(** * FareHunter: the alternate drop-off discovery engine

    A shallow embedding of the client pipeline (the three-tier
    [PageClient] component, the earlier two-pass [page.tsx] and
    [lib/estimator.ts]) together with the properties of its
    specification, followed by the rest of the client (route builder,
    overlap measure, candidate card), the first pipeline of [page.tsx]
    and the two server routes, with further properties of the code.

    Conventions of the embedding.
    - A JavaScript [number] is an exact rational ([Q]); the rounding error
      of IEEE doubles, [NaN] and the infinities are not modelled, except
      where a definition says so (the pickup ETA is computed under a
      rounding, and the [limit] of the places search may be [NaN] or
      infinite).  Numbers are compared with [Qeq], never with Leibniz
      equality.
    - [Math.sin], [Math.cos] and [Math.asin] have no rational model, so
      [haversineMeters] is a parameter of the pipeline.
    - A provider call ([fetch]) is a computation on an abstract world: it
      may change the world, return [null], or reject.
    - A rejected promise or a thrown [TypeError] is [None]. *)

From Stdlib Require Import QArith Qround Qminmax Qabs Lqa Lia ZArith List.
From Stdlib Require Import Sorting.Permutation Sorting.Sorted.
From stdpp Require Import base option list gmap strings pretty.

Local Open Scope Q_scope.

(** ** JavaScript numbers and built-ins *)

Definition Qltb (a b : Q) : bool := negb (Qle_bool b a).
Definition Qleb (a b : Q) : bool := Qle_bool a b.
Definition Qgtb (a b : Q) : bool := Qltb b a.
Definition Qgeb (a b : Q) : bool := Qle_bool b a.

(** [Math.max] on two numbers. *)
Definition Math_max (a b : Q) : Q := if Qle_bool a b then b else a.

(** [Math.floor] and [Math.round] (halves round towards +∞). *)
Definition Math_floor (x : Q) : Z := Qfloor x.
Definition Math_round (x : Q) : Z := Qfloor (x + (1 # 2)).

(** [x.toFixed(f)]: the sign is printed first, then the digits of the
    integer nearest to [|x| * 10^f] (ties go up).  The printed string is
    determined by, and determines, the pair below; two strings are equal
    exactly when the pairs are. *)
Definition toFixed (f : nat) (x : Q) : bool * Z :=
  (Qltb x 0, Qfloor (Qabs x * inject_Z (10 ^ Z.of_nat f) + (1 # 2))).

(** ** Data model *)

Record LatLng := mkLatLng { lat : Q; lng : Q }.

(** A route as the directions provider returns it; [coords] holds
    [[lng, lat]] pairs. *)
Record RouteStats := mkStats {
  distance : Q;
  duration : Q;
  coords : list (Q * Q)
}.

Inductive RouteKind := regular | alternate.

Record RouteGeo := mkRoute {
  r_distance : Q;
  r_duration : Q;
  r_coords : list (Q * Q);
  r_label : string;
  r_color : string;
  r_kind : RouteKind
}.

Record FareQuote := mkQuote { low : Q; high : Q; center : Q }.

(** ** Price model with consistent surge (PageClient) *)

Definition modeledPriceUSD (distance_m duration_s surge penaltyUSD : Q) : FareQuote :=
  let miles := distance_m / 1609.34 in
  let mins := duration_s / 60 in
  let base := 2.25 in
  let perMile := 1.50 in
  let perMin := 0.33 in
  let service := 1.2 in
  let est := (base + perMile * miles + perMin * mins + service) * surge + penaltyUSD in
  let center := Math_max 5 est in
  {| low := Math_max 4.5 (center * 0.9); high := center * 1.12; center := center |}.

(** ** Zone penalties *)

Record Box := mkBox { minLat : Q; maxLat : Q; minLng : Q; maxLng : Q }.

Inductive ZoneName := Downtown | Airport.

Record Zone := mkZone { z_name : ZoneName; z_box : Box; z_penaltyUSD : Q }.

Definition ZONES : list Zone :=
  [ {| z_name := Downtown;
       z_box := {| minLat := 30.260; maxLat := 30.275; minLng := -97.753; maxLng := -97.734 |};
       z_penaltyUSD := 0.75 |};
    {| z_name := Airport;
       z_box := {| minLat := 30.187; maxLat := 30.217; minLng := -97.706; maxLng := -97.648 |};
       z_penaltyUSD := 1.25 |} ].

Definition inBox (p : LatLng) (b : Box) : bool :=
  Qgeb (lat p) (minLat b) && Qleb (lat p) (maxLat b) &&
  Qgeb (lng p) (minLng b) && Qleb (lng p) (maxLng b).

Definition zonePenaltyUSD (p : LatLng) : Q :=
  fold_left (fun sum z => if inBox p (z_box z) then sum + z_penaltyUSD z else sum) ZONES 0.

(** ** Arrays *)

(** [l.slice(s, e)], with JavaScript's treatment of negative and
    out-of-range bounds. *)
Definition rel_index (len i : Z) : Z :=
  if (i <? 0)%Z then Z.max (len + i) 0 else Z.min i len.

Definition Array_slice {A} (l : list A) (s e : Z) : list A :=
  let len := Z.of_nat (length l) in
  let k := rel_index len s in
  let final := rel_index len e in
  take (Z.to_nat (final - k)) (drop (Z.to_nat k) l).

(** [l[i]] for an integer [i]; [None] is [undefined]. *)
Definition Array_get {A} (l : list A) (i : Z) : option A :=
  if (i <? 0)%Z then None else l !! Z.to_nat i.

(** [l.at(-1)]. *)
Definition Array_last {A} (l : list A) : option A := last l.

(** [l.sort(cmp)] for a comparator without effects.  The sort is stable;
    for a consistent comparator the result is the only stable sorted
    arrangement, here computed by insertion. *)
Fixpoint sort_insert {A} (cmp : A -> A -> Q) (x : A) (l : list A) : list A :=
  match l with
  | [] => [x]
  | y :: l' => if Qle_bool (cmp x y) 0 then x :: y :: l' else y :: sort_insert cmp x l'
  end.

Fixpoint Array_sort {A} (cmp : A -> A -> Q) (l : list A) : list A :=
  match l with
  | [] => []
  | x :: l' => sort_insert cmp x (Array_sort cmp l')
  end.

(** ** Tuning constants (PageClient) *)

Definition TAIL_FRACTION : Q := 0.22.
Definition SAMPLE_COUNT : nat := 16.
Definition DIST_FACTOR : Q := 0.88.
Definition TIME_FACTOR : Q := 0.88.
Definition PCT_IMPROVE : Q := 0.12.
Definition ABS_IMPROVE_MIN : Q := 1.75.
Definition RELAX_DIST : Q := 0.97.
Definition RELAX_TIME : Q := 0.97.
Definition MIN_SUGGESTIONS : nat := 2.
Definition MAX_SUGGESTIONS : nat := 4.

Definition metersToMinWalk (m : Q) : Z := Math_round (m / 1.33 / 60).

(** ** Route-tail sampling *)

(** A coordinate key: the string [`${lat.toFixed(f)},${lng.toFixed(f)}`]. *)
Definition Key : Type := (bool * Z) * (bool * Z).

Definition coordKey (f : nat) (p : LatLng) : Key := (toFixed f (lat p), toFixed f (lng p)).

(** The sampling loop [for (let i = 1; i <= count; i++)]; the
    destructuring [const [lng, lat] = slice[idx]] throws a [TypeError]
    when [slice[idx]] is [undefined]. *)
Fixpoint sampleLoop (slice : list (Q * Q)) (count : nat) (idxs : list nat) (out : list LatLng)
  : option (list LatLng) :=
  match idxs with
  | [] => Some out
  | i :: idxs' =>
      let t := inject_Z (Z.of_nat i) / inject_Z (Z.of_nat count + 1) in
      let idx := Z.min (Z.of_nat (length slice) - 1)
                       (Math_floor (t * inject_Z (Z.of_nat (length slice) - 1))) in
      match Array_get slice idx with
      | None => None
      | Some (lng0, lat0) => sampleLoop slice count idxs' (out ++ [ {| lat := lat0; lng := lng0 |} ])
      end
  end.

(** The loop [for (const p of out)] that drops points whose 5-decimal key
    was already seen. *)
Fixpoint dedupeLoop (out : list LatLng) (seen : gset Key) (uniq : list LatLng) : list LatLng :=
  match out with
  | [] => uniq
  | p :: out' =>
      let key := coordKey 5 p in
      if decide (key ∈ seen) then dedupeLoop out' seen uniq
      else dedupeLoop out' ({[ key ]} ∪ seen) (uniq ++ [p])
  end.

(** [sampleTail(coords, count, fraction)].  The start index and the
    sample indices are computed on exact numbers.  In doubles
    [1 - fraction] is 1 for a fraction below 2^-53, and a product such as
    [(13/17) * 153] falls just below the integer that it is exactly
    (116.99999999999999), so that the code may start the window one
    place later, or sample the coordinate one place earlier, than this
    definition does; with the fraction 0.22 the start index is the same
    for every array length, and a sampled index lies within the window
    either way. *)
Definition sampleTail (coords : list (Q * Q)) (count : nat) (fraction : Q) : option (list LatLng) :=
  if (length coords =? 0)%nat then Some [] else
  let n := Z.of_nat (length coords) in
  let startIdx := Z.max 0 (Math_floor (inject_Z n * (1 - fraction)) - 1) in
  let slice := Array_slice coords startIdx (n - 1) in
  match sampleLoop slice count (seq 1 count) [] with
  | None => None
  | Some out => Some (dedupeLoop out ∅ [])
  end.

(** ** The host: providers and clock *)

Inductive Profile := driving_traffic | driving | walking.

(** What the component cannot compute by itself.  [mapboxDirections] is
    the provider call up to the decoding of its response: [None] is a
    rejected [fetch], [Some (None, w)] a response that is not [ok]
    ([null]), [Some (Some routes, w)] the decoded routes.  [Array_sort_eff]
    is [Array.prototype.sort] for a comparator that has effects: which
    comparisons are made is up to the engine, so all that is assumed of
    it, where it matters, is that its result rearranges the input. *)
Class Host := {
  World : Type;
  haversineMeters : LatLng -> LatLng -> Q;
  Math_sin : Q -> Q;
  mapboxDirections :
    list LatLng -> Profile -> bool -> World -> option (option (list RouteStats) * World);
  fetchDrivingRoute : LatLng -> LatLng -> World -> option (option (Q * Q) * World);
  Date_getHours : World -> Z * World;
  Date_now : World -> Q * World;
  Array_sort_eff : forall A : Type,
    (A -> A -> World -> option (Q * World)) -> list A -> World -> option (list A * World)
}.

(** Asynchronous code: a computation on the world that may reject. *)
Definition M `{Host} (A : Type) : Type := World -> option (A * World).

Definition ret `{Host} {A} (a : A) : M A := fun w => Some (a, w).

Definition bind `{Host} {A B} (m : M A) (k : A -> M B) : M B :=
  fun w => match m w with
           | Some (a, w') => k a w'
           | None => None
           end.

Definition throw `{Host} {A} : M A := fun _ => None.

Definition liftOpt `{Host} {A} (o : option A) : M A :=
  match o with Some a => ret a | None => throw end.

Definition liftTotal `{Host} {A} (f : World -> A * World) : M A := fun w => Some (f w).

Notation "'let*' x := m 'in' k" := (bind m (fun x => k))
  (at level 10, x name, m at level 100, k at level 200).

(** [for (const a of l) { s = body(a, s) }] *)
Fixpoint forEach `{Host} {A S} (body : A -> S -> M S) (l : list A) (s : S) : M S :=
  match l with
  | [] => ret s
  | a :: l' => let* s' := body a s in forEach body l' s'
  end.

Definition mapboxDrive `{Host} (pu to : LatLng) : M (option RouteStats) :=
  let* r := mapboxDirections [pu; to] driving_traffic false in
  ret (match r with Some (r0 :: _) => Some r0 | _ => None end).

Definition mapboxWalk `{Host} (a b : LatLng) : M (option RouteStats) :=
  let* r := mapboxDirections [a; b] walking false in
  ret (match r with Some (r0 :: _) => Some r0 | _ => None end).

(** ** The three-tier pipeline (PageClient) *)

Record Drive := mkDrive { distance_m : Q; duration_s : Q }.

Inductive Reason := strict | fallback.

Record Candidate := mkCandidate {
  c_drop : LatLng;
  c_walkMin : Z;
  c_drive : Drive;
  c_routeIdx : string;
  c_surge : Q;
  c_reason : Reason
}.

(** The last coordinate of a route,
    [{ lat: coords.at(-1)?.[1] ?? 0, lng: coords.at(-1)?.[0] ?? 0 }]. *)
Definition endPoint (coords : list (Q * Q)) : LatLng :=
  match Array_last coords with
  | Some (lng0, lat0) => {| lat := lat0; lng := lng0 |}
  | None => {| lat := 0; lng := 0 |}
  end.

(** [modeledPriceUSD(c.drive.distance_m, c.drive.duration_s, surgeProxy,
    zonePenaltyUSD(c.drop)).center], as the comparators compute it. *)
Definition candPrice (surgeProxy : Q) (c : Candidate) : Q :=
  center (modeledPriceUSD (distance_m (c_drive c)) (duration_s (c_drive c)) surgeProxy
            (zonePenaltyUSD (c_drop c))).

Section Tiers.
Context `{Host}.
Variables (pickup drop : LatLng) (radiusM surgeProxy bestPrice : Q).

(** The body of the strict pass for one sampled point [p] of route [r];
    [continue] returns the list unchanged.  The four strict factors are
    arguments, instantiated with the module constants by [discover]. *)
Definition strictPoint (distFactor timeFactor pctImproveMin absImproveMin : Q)
    (r : RouteGeo) (p : LatLng) (strictAll : list Candidate) : M (list Candidate) :=
  let baseDist := r_distance r in
  let baseTime := r_duration r in
  let radial := haversineMeters p drop in
  if Qgtb radial radiusM || Qltb radial 12 then ret strictAll else
  let* wk := mapboxWalk p drop in
  let walkMin := match wk with
                 | Some wk => Math_round (duration wk / 60)
                 | None => metersToMinWalk radial
                 end in
  let* drv := mapboxDrive pickup p in
  match drv with
  | None => ret strictAll
  | Some drv =>
      let distOK := Qleb (distance drv) (distFactor * baseDist) in
      let timeOK := Qleb (duration drv) (timeFactor * baseTime) in
      if negb (distOK && timeOK) then ret strictAll else
      let candPenalty := zonePenaltyUSD p in
      let candPrice := center (modeledPriceUSD (distance drv) (duration drv) surgeProxy candPenalty) in
      let absImprove := bestPrice - candPrice in
      let pctImprove := absImprove / bestPrice in
      if Qltb absImprove absImproveMin then ret strictAll else
      if Qltb pctImprove pctImproveMin then ret strictAll else
      ret (strictAll ++ [ {| c_drop := p; c_walkMin := walkMin;
                             c_drive := {| distance_m := distance drv; duration_s := duration drv |};
                             c_routeIdx := r_label r; c_surge := surgeProxy; c_reason := strict |} ])
  end.

Definition relaxedPoint (r : RouteGeo) (p : LatLng) (relaxedAll : list Candidate)
  : M (list Candidate) :=
  let baseDist := r_distance r in
  let baseTime := r_duration r in
  let radial := haversineMeters p drop in
  if Qgtb radial radiusM || Qltb radial 12 then ret relaxedAll else
  let* wk := mapboxWalk p drop in
  let walkMin := match wk with
                 | Some wk => Math_round (duration wk / 60)
                 | None => metersToMinWalk radial
                 end in
  let* drv := mapboxDrive pickup p in
  match drv with
  | None => ret relaxedAll
  | Some drv =>
      let distOK := Qleb (distance drv) (RELAX_DIST * baseDist) in
      let timeOK := Qleb (duration drv) (RELAX_TIME * baseTime) in
      if negb (distOK && timeOK) then ret relaxedAll else
      ret (relaxedAll ++ [ {| c_drop := p; c_walkMin := walkMin;
                              c_drive := {| distance_m := distance drv; duration_s := duration drv |};
                              c_routeIdx := r_label r; c_surge := surgeProxy; c_reason := fallback |} ])
  end.

Definition closestPoint (r : RouteGeo) (p : LatLng) (closestAll : list Candidate)
  : M (list Candidate) :=
  let radial := haversineMeters p drop in
  if Qgtb radial radiusM || Qltb radial 12 then ret closestAll else
  let* wk := mapboxWalk p drop in
  let walkMin := match wk with
                 | Some wk => Math_round (duration wk / 60)
                 | None => metersToMinWalk radial
                 end in
  let* drv := mapboxDrive pickup p in
  match drv with
  | None => ret closestAll
  | Some drv =>
      ret (closestAll ++ [ {| c_drop := p; c_walkMin := walkMin;
                              c_drive := {| distance_m := distance drv; duration_s := duration drv |};
                              c_routeIdx := r_label r; c_surge := surgeProxy; c_reason := fallback |} ])
  end.

(** [for (const r of visible) { const tailPts = sampleTail(...);
    for (const p of tailPts) ... }] *)
Definition scanTails (point : RouteGeo -> LatLng -> list Candidate -> M (list Candidate))
    (visible : list RouteGeo) : M (list Candidate) :=
  forEach (fun r all =>
             let* tailPts := liftOpt (sampleTail (r_coords r) SAMPLE_COUNT TAIL_FRACTION) in
             forEach (point r) tailPts all)
          visible [].

(** Comparators of the three sorts. *)
Definition strictCmp (a b : Candidate) : Q :=
  let aPrice := candPrice surgeProxy a in
  let bPrice := candPrice surgeProxy b in
  let aSave := bestPrice - aPrice in
  let bSave := bestPrice - bPrice in
  if negb (Qeq_bool bSave aSave) then bSave - aSave else
  (distance_m (c_drive a) * 1.5 + duration_s (c_drive a))
  - (distance_m (c_drive b) * 1.5 + duration_s (c_drive b)).

Definition relaxedCmp (a b : Candidate) : Q :=
  candPrice surgeProxy a - candPrice surgeProxy b.

Definition closestCmp (a b : Candidate) : Q :=
  let ra := haversineMeters (c_drop a) drop in
  let rb := haversineMeters (c_drop b) drop in
  if negb (Qeq_bool ra rb) then ra - rb else
  candPrice surgeProxy a - candPrice surgeProxy b.

End Tiers.

(** cap strict: at most 2 per route and [MAX_SUGGESTIONS] in total.
    The counter [perRouteStrict] is a plain object in the code; it is a
    finite map here, which reads 0 for a label never counted.  The two
    differ on the labels that a plain object inherits (such as
    [constructor]), for which the code pushes nothing; the route builder
    issues none of these labels. *)
Fixpoint capStrict (strictAll : list Candidate) (perRouteStrict : gmap string nat)
    (strictCapped : list Candidate) : list Candidate :=
  match strictAll with
  | [] => strictCapped
  | c :: rest =>
      let n := (default 0 (perRouteStrict !! c_routeIdx c) + 1)%nat in
      let perRouteStrict := <[ c_routeIdx c := n ]> perRouteStrict in
      let strictCapped := if (n <=? 2)%nat then strictCapped ++ [c] else strictCapped in
      if (MAX_SUGGESTIONS <=? length strictCapped)%nat then strictCapped
      else capStrict rest perRouteStrict strictCapped
  end.

(** The merge loop of the relaxed and of the closest pass: skip a
    candidate whose 6-decimal key is already present, push it otherwise,
    and stop once [results] has [limit] entries. *)
Fixpoint mergeNew (limit : nat) (cs : list Candidate) (results : list Candidate)
    (have : gset Key) : list Candidate :=
  match cs with
  | [] => results
  | c :: rest =>
      let key := coordKey 6 (c_drop c) in
      if decide (key ∈ have) then mergeNew limit rest results have
      else
        let results := results ++ [c] in
        let have := {[ key ]} ∪ have in
        if (limit <=? length results)%nat then results
        else mergeNew limit rest results have
  end.

(** [new Set(results.map(c => key(c)))] *)
Definition keysOf (results : list Candidate) : gset Key :=
  list_to_set (map (fun c => coordKey 6 (c_drop c)) results).

Section Discover.
Context `{Host}.

Definition durationCmp (a b : RouteGeo) : Q := r_duration a - r_duration b.

(** The strict tier: scan, sort by savings, cap. *)
Definition strictTier (distFactor timeFactor pctImproveMin absImproveMin : Q)
    (pickup drop : LatLng) (radiusM surgeProxy bestPrice : Q) (visible : list RouteGeo)
  : M (list Candidate) :=
  let* strictAll :=
    scanTails (strictPoint pickup drop radiusM surgeProxy bestPrice
                 distFactor timeFactor pctImproveMin absImproveMin) visible in
  let strictAll := Array_sort (strictCmp surgeProxy bestPrice) strictAll in
  ret (capStrict strictAll ∅ []).

(** The relaxed tier, run on the results so far. *)
Definition relaxedTier (pickup drop : LatLng) (radiusM surgeProxy : Q) (visible : list RouteGeo)
    (results : list Candidate) : M (list Candidate) :=
  let* relaxedAll := scanTails (relaxedPoint pickup drop radiusM surgeProxy) visible in
  let relaxedAll := Array_sort (relaxedCmp surgeProxy) relaxedAll in
  let have := keysOf results in
  ret (mergeNew (Nat.max MIN_SUGGESTIONS MAX_SUGGESTIONS) relaxedAll results have).

(** The last-resort tier of the closest tail pins. *)
Definition closestTier (pickup drop : LatLng) (radiusM surgeProxy : Q) (visible : list RouteGeo)
    (results : list Candidate) : M (list Candidate) :=
  let* closestAll := scanTails (closestPoint pickup drop radiusM surgeProxy) visible in
  let closestAll := Array_sort (closestCmp drop surgeProxy) closestAll in
  let have := keysOf results in
  ret (mergeNew MIN_SUGGESTIONS closestAll results have).

(** The price of the fastest regular route, against which the strict
    tier measures savings. *)
Definition bestPriceOf (surgeProxy : Q) (bestReg : RouteGeo) : Q :=
  let bestPenalty := zonePenaltyUSD (endPoint (r_coords bestReg)) in
  center (modeledPriceUSD (r_distance bestReg) (r_duration bestReg) surgeProxy bestPenalty).

(** The candidates effect of [Page]: the value passed to [setCandidates]. *)
Definition discover (pickup drop : option LatLng) (showRegular showAlternates : bool)
    (regularRoutes altRoutes : list RouteGeo) (radiusM surgeProxy : Q) : M (list Candidate) :=
  match pickup, drop with
  | Some pickup, Some drop =>
      let visible := (if showRegular then regularRoutes else [])
                     ++ (if showAlternates then altRoutes else []) in
      match head (Array_sort durationCmp regularRoutes) with
      | None => ret []
      | Some bestReg =>
          let bestPrice := bestPriceOf surgeProxy bestReg in
          let* strictCapped :=
            strictTier DIST_FACTOR TIME_FACTOR PCT_IMPROVE ABS_IMPROVE_MIN
                       pickup drop radiusM surgeProxy bestPrice visible in
          let results := strictCapped in
          let* results :=
            if (length results <? MIN_SUGGESTIONS)%nat
            then relaxedTier pickup drop radiusM surgeProxy visible results
            else ret results in
          let* results :=
            if (length results <? MIN_SUGGESTIONS)%nat
            then closestTier pickup drop radiusM surgeProxy visible results
            else ret results in
          ret (Array_slice results 0 (Z.of_nat MAX_SUGGESTIONS))
      end
  | _, _ => ret []
  end.

End Discover.

(** ** The two-pass pipeline ([page.tsx]) *)

Module PageV2.

Definition DIST_FACTOR : Q := 0.90.
Definition TIME_FACTOR : Q := 0.90.
Definition PRICE_IMPROVE : Q := 0.08.
Definition LOOSE_DIST_FACTOR : Q := 0.98.
Definition LOOSE_TIME_FACTOR : Q := 0.98.
Definition LOOSE_PRICE_IMPROVE : Q := 0.00.

Record Candidate := mkCandidate {
  c_drop : LatLng;
  c_walkMin : Z;
  c_drive : Drive;
  c_routeIdx : string
}.

Section WithHost.
Context `{Host}.

(** [x - Math.floor(x)] on exact numbers, less than 1 always; in doubles
    the fraction of a tiny negative [x] rounds to 1. *)
Definition seededRand (seed : Q) : Q :=
  let x := Math_sin seed * 10000 in
  x - inject_Z (Math_floor x).

(** The price model of this version reads the clock: the surge comes
    from the hour of the day and the current minute. *)
Definition modeledPriceUSD (distance_m duration_s : Q) : M FareQuote :=
  let miles := distance_m / 1609.34 in
  let mins := duration_s / 60 in
  let base := 2.25 in
  let perMile := 1.50 in
  let perMin := 0.33 in
  let service := 1.2 in
  let* h := liftTotal Date_getHours in
  let rush := ((7 <=? h) && (h <=? 9) || (16 <=? h) && (h <=? 19))%Z in
  let* now := liftTotal Date_now in
  let surge := if rush
               then 1.18 + seededRand (inject_Z (Math_floor (now / 60000))) * 0.35
               else 1.0 + seededRand (inject_Z (Math_floor (now / 120000))) * 0.18 in
  let est := (base + perMile * miles + perMin * mins + service) * surge in
  let center := Math_max 5 est in
  ret {| low := Math_max 4.5 (center * 0.9); high := center * 1.12; center := center |}.

(** [savingsLowFirst]; [None] is [null].  [!v] holds of the number 0. *)
Definition savingsLowFirst (candidate : FareQuote) (base : option FareQuote) : option Q :=
  let baseVal := match base with Some b => low b | None => 0 end in
  let candVal := low candidate in
  if Qeq_bool baseVal 0 || Qeq_bool candVal 0 then None
  else Some (Math_max 0 (baseVal - candVal)).

Section Build.
Variables (pickup drop : LatLng) (radiusM : Q) (visible : list RouteGeo).

Definition buildPoint (strict : bool) (r : RouteGeo) (p : LatLng) (all : list Candidate)
  : M (list Candidate) :=
  let baseDist := r_distance r in
  let baseTime := r_duration r in
  if Qltb (haversineMeters p drop) 12 then ret all else
  let* wk := mapboxWalk p drop in
  let walkMin := match wk with
                 | Some wk => Math_round (duration wk / 60)
                 | None => metersToMinWalk (haversineMeters p drop)
                 end in
  if (walkMin >? metersToMinWalk radiusM + 1)%Z then ret all else
  let* drv := mapboxDrive pickup p in
  match drv with
  | None => ret all
  | Some drv =>
      let distOK := Qleb (distance drv) ((if strict then DIST_FACTOR else LOOSE_DIST_FACTOR) * baseDist) in
      let timeOK := Qleb (duration drv) ((if strict then TIME_FACTOR else LOOSE_TIME_FACTOR) * baseTime) in
      if negb (distOK && timeOK) then ret all else
      let* baseModel := modeledPriceUSD baseDist baseTime in
      let* candModel := modeledPriceUSD (distance drv) (duration drv) in
      let cheaper := Qgeb ((center baseModel - center candModel) / center baseModel)
                          (if strict then PRICE_IMPROVE else LOOSE_PRICE_IMPROVE) in
      if negb cheaper then ret all else
      ret (all ++ [ {| c_drop := p; c_walkMin := walkMin;
                       c_drive := {| distance_m := distance drv; duration_s := duration drv |};
                       c_routeIdx := r_label r |} ])
  end.

(** The comparator of [all.sort]; it calls the price model four times. *)
Definition buildCmp (a b : Candidate) : M Q :=
  let* aPrice := modeledPriceUSD (distance_m (c_drive a)) (duration_s (c_drive a)) in
  let* bPrice := modeledPriceUSD (distance_m (c_drive b)) (duration_s (c_drive b)) in
  let aBase := find (fun v => bool_decide (r_label v = c_routeIdx a)) visible in
  let bBase := find (fun v => bool_decide (r_label v = c_routeIdx b)) visible in
  let* aBasePrice := match aBase with
                     | Some v => let* q := modeledPriceUSD (r_distance v) (r_duration v) in ret (Some q)
                     | None => ret None
                     end in
  let* bBasePrice := match bBase with
                     | Some v => let* q := modeledPriceUSD (r_distance v) (r_duration v) in ret (Some q)
                     | None => ret None
                     end in
  let aSaved := default 0 (savingsLowFirst aPrice aBasePrice) in
  let bSaved := default 0 (savingsLowFirst bPrice bBasePrice) in
  if negb (Qeq_bool aSaved bSaved) then ret (bSaved - aSaved) else
  let aShown := low aPrice in
  let bShown := low bPrice in
  ret (aShown - bShown).

(** cap: top 2 per route label; [perRoute] as [perRouteStrict] above. *)
Fixpoint capPerRoute (all : list Candidate) (perRoute : gmap string nat) (capped : list Candidate)
  : list Candidate :=
  match all with
  | [] => capped
  | c :: rest =>
      let n := (default 0 (perRoute !! c_routeIdx c) + 1)%nat in
      let perRoute := <[ c_routeIdx c := n ]> perRoute in
      let capped := if (n <=? 2)%nat then capped ++ [c] else capped in
      capPerRoute rest perRoute capped
  end.

Definition build (strict : bool) : M (list Candidate) :=
  let* all :=
    forEach (fun r all =>
               let* tailPts := liftOpt (sampleTail (r_coords r) SAMPLE_COUNT TAIL_FRACTION) in
               forEach (buildPoint strict r) tailPts all)
            visible [] in
  let* all := Array_sort_eff Candidate buildCmp all in
  ret (capPerRoute all ∅ []).

End Build.

(** The candidates effect: the value passed to [setCandidates]. *)
Definition discover (pickup drop : option LatLng) (showRegular showAlternates : bool)
    (regularRoutes altRoutes : list RouteGeo) (radiusM : Q) : M (list Candidate) :=
  match pickup, drop with
  | Some pickup, Some drop =>
      let visible := (if showRegular then regularRoutes else [])
                     ++ (if showAlternates then altRoutes else []) in
      if (length visible =? 0)%nat then ret [] else
      let* out := build pickup drop radiusM visible true in
      let* out := if (length out =? 0)%nat then build pickup drop radiusM visible false
                  else ret out in
      ret out
  | _, _ => ret []
  end.

End WithHost.
End PageV2.

(** ** [lib/estimator.ts] *)

Module Estimator.

Definition M_TO_MI : Q := 0.000621371.
Definition SEC_TO_MIN : Q := 1 / 60.

Record Meta := mkMeta { miles : Q; driveMin : Z; todFactor : Q; bandPct : Q }.

Record PriceRange := mkRange { low : Q; high : Q; center : Q; meta : Meta }.

Record RateCard := mkRateCard { base : Q; perMile : Q; perMin : Q; booking : Q; minFare : Q }.

Definition AUSTIN_RATECARD : RateCard :=
  {| base := 2.25; perMile := 1.55; perMin := 0.28; booking := 2.00; minFare := 7.00 |}.

(** A [Date], as far as it is read: [getHours()] and [getDay()]. *)
Record JSDate := mkDate { getHours : Z; getDay : Z }.

Definition timeOfDayFactor (d : JSDate) : Q :=
  let h := getHours d in
  let dow := getDay d in
  let f := 1.0 in
  let weekday := ((1 <=? dow) && (dow <=? 5))%Z in
  let f := if (weekday && ((7 <=? h) && (h <=? 9) || (16 <=? h) && (h <=? 19)))%Z
           then f * 1.25 else f in
  let f := if (((dow =? 5) || (dow =? 6)) && ((20 <=? h) || (h <=? 2)))%Z
           then f * 1.35 else f in
  f.

(** [Math.round(n * 100) / 100] on the exact product; the code rounds
    the double nearest to [n * 100], which for a number like 2.675 lies
    on the other side of the half (268 against 267). *)
Definition round2 (n : Q) : Q := inject_Z (Math_round (n * 100)) / 100.

Section WithHost.
Context `{Host}.

(** A response that is not [ok] throws; a response without routes counts
    as 0 meters and 0 seconds. *)
Definition getDriveStats (pickup drop : LatLng) : M (Q * Q) :=
  let* route := fetchDrivingRoute pickup drop in
  let meters := match route with Some (d, _) => d | None => 0 end in
  let seconds := match route with Some (_, t) => t | None => 0 end in
  ret (meters * M_TO_MI, seconds * SEC_TO_MIN).

Definition estimatePriceRange (pickup drop : LatLng) (now : JSDate) : M PriceRange :=
  let* stats := getDriveStats pickup drop in
  let miles := fst stats in
  let driveMin := snd stats in
  let r := AUSTIN_RATECARD in
  let price := base r + perMile r * miles + perMin r * driveMin + booking r in
  let tod := timeOfDayFactor now in
  let price := price * tod in
  let price := Math_max price (minFare r) in
  let baseBand := if Qgtb tod 1.2 then 0.28 else 0.18 in
  let low := Math_max (minFare r) (round2 (price * (1 - baseBand))) in
  let high := round2 (price * (1 + baseBand)) in
  ret {| low := low; high := high; center := round2 price;
         meta := {| miles := round2 miles; driveMin := Math_round driveMin;
                    todFactor := round2 tod; bandPct := baseBand |} |}.

End WithHost.
End Estimator.

(** ** Specification-level definitions *)

(** The radius/separation band of a drop-off point. *)
Definition inBand `{Host} (drop : LatLng) (radiusM : Q) (p : LatLng) : Prop :=
  12 <= haversineMeters p drop /\ haversineMeters p drop <= radiusM.

Definition inBandb `{Host} (drop : LatLng) (radiusM : Q) (p : LatLng) : bool :=
  Qleb 12 (haversineMeters p drop) && Qleb (haversineMeters p drop) radiusM.

(** The candidates of [cs] that a merge loop can push: those whose
    6-decimal key is neither in [have] nor carried by an earlier candidate
    of [cs], in the order of [cs]. *)
Fixpoint freshByKey (have : gset Key) (cs : list Candidate) : list Candidate :=
  match cs with
  | [] => []
  | c :: rest =>
      let key := coordKey 6 (c_drop c) in
      if decide (key ∈ have) then freshByKey have rest
      else c :: freshByKey ({[ key ]} ∪ have) rest
  end.

(** The first two candidates of every route label, in the order of [cs];
    [seen] counts the candidates met so far. *)
Fixpoint capRoute (seen : gmap string nat) (cs : list Candidate) : list Candidate :=
  match cs with
  | [] => []
  | c :: rest =>
      let n := (default 0 (seen !! c_routeIdx c) + 1)%nat in
      let seen' := <[ c_routeIdx c := n ]> seen in
      if (n <=? 2)%nat then c :: capRoute seen' rest else capRoute seen' rest
  end.

(** The number of candidates of [cs] that carry the route label [l]. *)
Definition countLabel (l : string) (cs : list Candidate) : nat :=
  length (filter (fun c => c_routeIdx c = l) cs).

#[global] Instance Reason_eq_dec : EqDecision Reason.
Proof. solve_decision. Defined.

(** The strict candidates of [cs] that carry the route label [l]. *)
Definition strictOfLabel (l : string) (cs : list Candidate) : list Candidate :=
  filter (fun c => c_reason c = strict /\ c_routeIdx c = l) cs.

(** Ascending radial distance to the destination. *)
Definition radialLe `{Host} (drop : LatLng) (a b : Candidate) : Prop :=
  haversineMeters (c_drop a) drop <= haversineMeters (c_drop b) drop.

(** A point body only ever appends, to the list it is given, candidates
    that satisfy [P] for the route and the point at hand. *)
Definition appends `{Host} (P : RouteGeo -> LatLng -> Candidate -> Prop)
    (point : RouteGeo -> LatLng -> list Candidate -> M (list Candidate)) : Prop :=
  forall r p all w all' w', point r p all w = Some (all', w') ->
    exists added, all' = all ++ added /\ Forall (P r p) added.

(** [c] was sampled from the tail of a visible route and satisfies [P]
    for that route and point. *)
Definition sampledWith (P : RouteGeo -> LatLng -> Candidate -> Prop)
    (visible : list RouteGeo) (c : Candidate) : Prop :=
  exists r pts p, r ∈ visible /\
    sampleTail (r_coords r) SAMPLE_COUNT TAIL_FRACTION = Some pts /\ p ∈ pts /\ P r p c.

(** What every tier records of a sampled point: the point itself, the
    label of its route, and a distance within the band. *)
Definition recorded `{Host} (drop : LatLng) (radiusM : Q) (why : Reason)
    (r : RouteGeo) (p : LatLng) (c : Candidate) : Prop :=
  c_drop c = p /\ c_routeIdx c = r_label r /\ c_reason c = why /\ inBand drop radiusM p.

(** One more candidate of label [l] met. *)
Definition bump (seen : gmap string nat) (l : string) : gmap string nat :=
  <[ l := (default 0 (seen !! l) + 1)%nat ]> seen.

(** Two runs from the same world end alike: both reject, or both return,
    in the same world, values related by [R]. *)
Definition alike `{Host} {S} (R : S -> S -> Prop) (x y : option (S * World)) : Prop :=
  match x, y with
  | Some (s1, w1), Some (s2, w2) => R s1 s2 /\ w1 = w2
  | None, None => True
  | _, _ => False
  end.

(** ** A test host

    Distances are taken along a meridian at 100 km per degree of
    latitude; the providers answer from two tables, one for the walk from
    a point and one for the drive to a point; the world counts the
    provider calls and holds the clock.  The sort with effects is an
    insertion sort that calls the comparator as it goes. *)

Record TestWorld := mkWorld { calls : nat; hour : Z; nowMs : Q }.

Definition tick (w : TestWorld) : TestWorld :=
  {| calls := S (calls w); hour := hour w; nowMs := nowMs w |}.

Definition meridianMeters (a b : LatLng) : Q := 100000 * Qabs (lat a - lat b).

Fixpoint insertEff {W A} (cmp : A -> A -> W -> option (Q * W)) (x : A) (l : list A) (w : W)
  : option (list A * W) :=
  match l with
  | [] => Some ([x], w)
  | y :: l' =>
      match cmp x y w with
      | None => None
      | Some (c, w1) =>
          if Qle_bool c 0 then Some (x :: y :: l', w1)
          else match insertEff cmp x l' w1 with
               | None => None
               | Some (r, w2) => Some (y :: r, w2)
               end
      end
  end.

Fixpoint sortEff {W A} (cmp : A -> A -> W -> option (Q * W)) (l : list A) (w : W)
  : option (list A * W) :=
  match l with
  | [] => Some ([], w)
  | x :: l' =>
      match sortEff cmp l' w with
      | None => None
      | Some (r, w1) => insertEff cmp x r w1
      end
  end.

Definition testHost (walkOf drvOf : LatLng -> option RouteStats) : Host :=
  {| World := TestWorld;
     haversineMeters := meridianMeters;
     Math_sin := fun _ => 0;
     mapboxDirections := fun pts profile _ w =>
       match profile, pts with
       | walking, a :: _ => Some (option_map (fun s => [s]) (walkOf a), tick w)
       | driving_traffic, [_; b] => Some (option_map (fun s => [s]) (drvOf b), tick w)
       | _, _ => Some (None, tick w)
       end;
     fetchDrivingRoute := fun _ _ w => Some (Some (5000, 900), tick w);
     Date_getHours := fun w => (hour w, w);
     Date_now := fun w => (nowMs w, w);
     Array_sort_eff := @sortEff TestWorld |}.

Definition noon : TestWorld := {| calls := 0; hour := 12; nowMs := 1700000000000 |}.
Definition rushHour : TestWorld := {| calls := 0; hour := 8; nowMs := 1700000000000 |}.

Definition pickupPt : LatLng := {| lat := 30.2500; lng := -97.7500 |}.
Definition destPt : LatLng := {| lat := 30.2861; lng := -97.7394 |}.

(** A route of four coordinates, whose one sampled tail point lies
    [off] degrees of latitude south of the destination. *)
Definition route4 (label : string) (via : Q * Q) (off dist dur : Q) : RouteGeo :=
  {| r_distance := dist; r_duration := dur;
     r_coords := [ (-97.7500, 30.2500); via; (-97.7394, 30.2861 - off); (-97.7394, 30.2861) ];
     r_label := label; r_color := "#60a5fa"; r_kind := regular |}.

(** A route of fourteen coordinates; its sampled tail points lie 350 m,
    250 m and 150 m from the destination. *)
Definition route14 : RouteGeo :=
  {| r_distance := 8000; r_duration := 900;
     r_coords := map (fun la => (-97.7394, la))
                     [ 30.2500; 30.2540; 30.2580; 30.2620; 30.2660; 30.2700; 30.2740;
                       30.2780; 30.2810; 30.2826; 30.2836; 30.2846; 30.2856; 30.2861 ];
     r_label := "Regular A"; r_color := "#60a5fa"; r_kind := regular |}.

Definition walkOk (p : LatLng) : option RouteStats :=
  Some {| distance := 200; duration := 180; coords := [] |}.
Definition walkSlow (p : LatLng) : option RouteStats :=
  Some {| distance := 4000; duration := 3600; coords := [] |}.
Definition drvGood (p : LatLng) : option RouteStats :=
  Some {| distance := 6500; duration := 700; coords := [] |}.
Definition drvSoSo (p : LatLng) : option RouteStats :=
  Some {| distance := 7600; duration := 850; coords := [] |}.
Definition drvPoor (p : LatLng) : option RouteStats :=
  Some {| distance := 7900; duration := 890; coords := [] |}.
Definition drvFail (p : LatLng) : option RouteStats := None.

(** The world of the test host after [n] provider calls at noon. *)
Definition after (n : nat) : TestWorld := {| calls := n; hour := 12; nowMs := 1700000000000 |}.

Definition tailA (off : Q) : RouteGeo := route4 "Regular A" (-97.7450, 30.2700) off 8000 900.
Definition tailB (off : Q) : RouteGeo := route4 "Regular B" (-97.7400, 30.2680) off 8400 960.

(** The point [off] degrees of latitude south of the destination. *)
Definition south (off : Q) : LatLng := {| lat := 30.2861 - off; lng := -97.7394 |}.

(** The candidate recorded for the point [p]. *)
Definition pushed (p : LatLng) (walkMin : Z) (dist dur : Q) (label : string) (why : Reason)
  : Candidate :=
  {| c_drop := p; c_walkMin := walkMin;
     c_drive := {| distance_m := dist; duration_s := dur |};
     c_routeIdx := label; c_surge := 1; c_reason := why |}.

(** ** The rest of the client (PageClient) *)

(** [Math.min] on two numbers, and the truncation that [slice] applies
    to a bound that is not an integer. *)
Definition Math_min (a b : Q) : Q := if Qle_bool a b then a else b.

Definition Math_trunc (x : Q) : Z := if Qltb x 0 then Qceiling x else Qfloor x.

Definition M_TO_FT : Q := 3.28084.
Definition ALT_OVERLAP_TOL_M : Q := 60.
Definition ALT_MAX : nat := 3.
Definition REG_MAX : nat := 2.

Definition REG_COLORS : list string := [ "#60a5fa"; "#a78bfa" ].
Definition ALT_COLORS : list string := [ "#34d399"; "#f59e0b"; "#ef4444" ].

Definition metersToFeet (m : Q) : Z := Math_round (m * M_TO_FT).

(** [colors[i % colors.length]] *)
Definition colorAt (colors : list string) (i : nat) : string :=
  default EmptyString (colors !! (i mod length colors)%nat).

(** The pickup ETA depends on how the arithmetic rounds: the fraction
    [x - Math.floor(x)] of a tiny negative [x] rounds to 1.  For
    [seededRand] and [estimateETAmin] every operation is therefore
    followed by the rounding [fl] to the nearest double, of which only
    this is used: it is monotone, and exact on the integers that a
    double holds.  (The arguments and [Math.sin] are doubles already;
    [Math.floor] of a double is exact.) *)
Class Rounding := {
  fl : Q -> Q;
  fl_mono : forall x y, x <= y -> fl x <= fl y;
  fl_int : forall z : Z, (Z.abs z <= 2 ^ 53)%Z -> fl (inject_Z z) == inject_Z z
}.

Section Client.
Context `{Host}.

Definition seededRand `{Rounding} (seed : Q) : Q :=
  let x := fl (Math_sin seed * 10000) in
  fl (x - inject_Z (Math_floor x)).

(** [estimateETAmin(pickup, seed)]; the caller leaves [seed] to its
    default, [Date.now() / 30000]. *)
Definition estimateETAmin `{Rounding} (pickup : LatLng) (seed : Q) : Z :=
  Math_floor (fl (2 + fl (seededRand (fl (fl (seed + lat pickup) + lng pickup)) * 6))).

Definition baselineETA `{Rounding} (pickup : option LatLng) : M (option Z) :=
  match pickup with
  | Some pickup =>
      let* now := liftTotal Date_now in
      ret (Some (estimateETAmin pickup (fl (now / 30000))))
  | None => ret None
  end.

(** *** Geometry comparison *)

(** [base.filter((_, i) => i % step === 0)], from index [i] on. *)
Fixpoint everyNth {A} (step : nat) (i : nat) (l : list A) : list A :=
  match l with
  | [] => []
  | x :: l' => if (i mod step =? 0)%nat then x :: everyNth step (S i) l' else everyNth step (S i) l'
  end.

(** The inner loop [for (const b of basePts)] with its [break]; [best]
    is [None] while it is still [Infinity]. *)
Fixpoint nearestLoop (p : LatLng) (tolM : Q) (basePts : list LatLng) (best : option Q) : option Q :=
  match basePts with
  | [] => best
  | b :: rest =>
      let d := haversineMeters p b in
      let best := match best with
                  | None => Some d
                  | Some x => if Qltb d x then Some d else Some x
                  end in
      if match best with Some x => Qleb x tolM | None => false end then best
      else nearestLoop p tolM rest best
  end.

Definition pathOverlapPct (base alt : list (Q * Q)) (tolM : Q) : Q :=
  if (length base =? 0)%nat || (length alt =? 0)%nat then 1 else
  let step := Z.to_nat (Z.max 1 (Z.of_nat (length base) / 200)) in
  let basePts := map (fun c => {| lat := snd c; lng := fst c |}) (everyNth step 0 base) in
  let within :=
    fold_left (fun within c =>
                 let p := {| lat := snd c; lng := fst c |} in
                 let best := nearestLoop p tolM basePts None in
                 if match best with Some x => Qleb x tolM | None => false end
                 then (within + 1)%nat else within)
              alt 0%nat in
  inject_Z (Z.of_nat within) / inject_Z (Z.of_nat (length alt)).

(** *** The route builder *)

(** [try { m } catch { handler }]: a rejection inside [m] is handled in
    the world in which [m] was started. *)
Definition tryCatch {A} (m handler : M A) : M A :=
  fun w => match m w with
           | Some r => Some r
           | None => handler w
           end.

(** The reverse geocoder, a provider call that returns a short address
    line (the empty string when it finds none). *)
Class Geocoder := { reverseShort : LatLng -> M string }.

(** What one run of the route effect passes to the setters of the
    component; [None] is a setter that is not called.  The run is one
    that is not cancelled: [alive] stays [true]. *)
Record RoutesUpdate := mkUpdate {
  set_surgeProxy : option Q;
  set_regularRoutes : option (list RouteGeo);
  set_altRoutes : option (list RouteGeo);
  set_baselineAddr : option string
}.

Definition statsCmp (a b : RouteStats) : Q := duration a - duration b.

(** [`Regular ${String.fromCharCode(65 + i)}`] and [`Alternate ${i + 1}`] *)
Definition regularLabel (i : nat) : string :=
  "Regular " +:+ String (Ascii.ascii_of_nat (65 + i)) EmptyString.

Definition alternateLabel (i : nat) : string := "Alternate " +:+ pretty (i + 1)%nat.

Definition asRegular (i : nat) (r : RouteStats) : RouteGeo :=
  {| r_distance := distance r; r_duration := duration r; r_coords := coords r;
     r_label := regularLabel i; r_color := colorAt REG_COLORS i; r_kind := regular |}.

Definition asAlternate (i : nat) (r : RouteStats) : RouteGeo :=
  {| r_distance := distance r; r_duration := duration r; r_coords := coords r;
     r_label := alternateLabel i; r_color := colorAt ALT_COLORS i; r_kind := alternate |}.

(** The surge proxy: the fastest traffic duration over the free-flow
    duration, kept within 1.0 and 1.3. *)
Definition surgeOf (fastest : RouteStats) (free : option (list RouteStats)) : Q :=
  let freeDur := match free with
                 | Some (f :: _) => duration f
                 | _ => duration fastest
                 end in
  Math_max 1.0 (Math_min 1.3 (duration fastest / Math_max 1 freeDur)).

Definition buildRoutes `{Geocoder} (pickup drop : option LatLng) : M RoutesUpdate :=
  match pickup, drop with
  | Some pickup, Some drop =>
      let* routesTraffic := mapboxDirections [pickup; drop] driving_traffic true in
      match routesTraffic with
      | None | Some [] =>
          ret {| set_surgeProxy := None; set_regularRoutes := Some [];
                 set_altRoutes := Some []; set_baselineAddr := None |}
      | Some routesTraffic =>
          let routesTraffic := Array_sort statsCmp routesTraffic in
          let* surge :=
            tryCatch
              (let* fastest := liftOpt (Array_get routesTraffic 0) in
               let* free := mapboxDirections [pickup; drop] driving false in
               ret (surgeOf fastest free))
              (ret 1.0) in
          let regs := imap asRegular (Array_slice routesTraffic 0 (Z.of_nat REG_MAX)) in
          let altsFromAPI :=
            imap asAlternate
                 (Array_slice routesTraffic (Z.of_nat REG_MAX) (Z.of_nat (REG_MAX + ALT_MAX))) in
          let alts := altsFromAPI in
          let* rev := tryCatch (reverseShort drop) (ret EmptyString) in
          ret {| set_surgeProxy := Some surge; set_regularRoutes := Some regs;
                 set_altRoutes := Some (Array_slice alts 0 (Z.of_nat ALT_MAX));
                 set_baselineAddr := if String.eqb rev EmptyString then None else Some rev |}
      end
  | _, _ =>
      ret {| set_surgeProxy := None; set_regularRoutes := None;
             set_altRoutes := None; set_baselineAddr := None |}
  end.

(** *** The regular price and the candidate card *)

Definition cheapestRegular (regularRoutes : list RouteGeo) : option RouteGeo :=
  if (length regularRoutes =? 0)%nat then None
  else Array_get (Array_sort durationCmp regularRoutes) 0.

Definition regularPrice (cheapestRegular : option RouteGeo) (surgeProxy : Q) : option FareQuote :=
  match cheapestRegular with
  | None => None
  | Some cheapestRegular =>
      let penalty := zonePenaltyUSD (endPoint (r_coords cheapestRegular)) in
      Some (modeledPriceUSD (r_distance cheapestRegular) (r_duration cheapestRegular)
                            surgeProxy penalty)
  end.

(** The prices a [CandidateCard] shows. *)
Definition cardPrice (candidate : Candidate) : FareQuote :=
  let penalty := zonePenaltyUSD (c_drop candidate) in
  modeledPriceUSD (distance_m (c_drive candidate)) (duration_s (c_drive candidate))
                  (c_surge candidate) penalty.

Definition cardBasePrice (candidate : Candidate) (baseForRoute : option RouteGeo)
  : option FareQuote :=
  match baseForRoute with
  | Some b =>
      Some (modeledPriceUSD (r_distance b) (r_duration b) (c_surge candidate)
                            (zonePenaltyUSD (endPoint (r_coords b))))
  | None => None
  end.

(** [saved]; [None] is [null]. *)
Definition cardSaved (candidate : Candidate) (baseForRoute : option RouteGeo) : option Q :=
  let baseVal := match cardBasePrice candidate baseForRoute with
                 | Some q => center q
                 | None => 0
                 end in
  let candVal := center (cardPrice candidate) in
  if Qgtb baseVal 0 then Some (Math_max 0 (baseVal - candVal)) else None.

Definition walkFt (candidate : Candidate) : Z :=
  metersToFeet (inject_Z (c_walkMin candidate) * 60 * 1.33).

(** [[...regularRoutes, ...altRoutes].find(r => r.label === c.routeIdx)] *)
Definition baseForRouteOf (regularRoutes altRoutes : list RouteGeo) (c : Candidate)
  : option RouteGeo :=
  find (fun r => bool_decide (r_label r = c_routeIdx c)) (regularRoutes ++ altRoutes).

End Client.

(** ** The first pipeline ([page.tsx]): regular routes only *)

Module PageV1.

Definition DIST_FACTOR : Q := 0.90.
Definition TIME_FACTOR : Q := 0.90.
Definition PRICE_IMPROVE : Q := 0.08.
Definition CAND_MAX : nat := 3.
Definition CAND_COLORS : list string := [ "#34d399"; "#f59e0b"; "#ef4444" ].

Record Leg := mkLeg { leg_distance_m : Q; leg_duration_s : Q; leg_coords : list (Q * Q) }.

Record Candidate := mkCandidate {
  c_drop : LatLng;
  c_walkMin : Z;
  c_drive : Leg;
  c_walk : Leg;
  c_parent : string;
  c_color : string
}.

(** [savings]; [None] is [null]. *)
Definition savings (candidate : FareQuote) (base : option FareQuote) : option Q :=
  let baseVal := match base with Some b => center b | None => 0 end in
  let candVal := center candidate in
  if Qeq_bool baseVal 0 || Qeq_bool candVal 0 then None
  else Some (Math_max 0 (baseVal - candVal)).

Section WithHost.
Context `{Host}.

Section Candidates.
Variables (pickup drop : LatLng) (radiusM : Q).

Definition point (r : RouteGeo) (p : LatLng) (all : list Candidate) : M (list Candidate) :=
  let parentLabel := r_label r in
  let baseDist := r_distance r in
  let baseTime := r_duration r in
  if Qltb (haversineMeters p drop) 12 then ret all else
  let* wk := mapboxWalk p drop in
  let walkMin := match wk with
                 | Some wk => Math_round (duration wk / 60)
                 | None => metersToMinWalk (haversineMeters p drop)
                 end in
  if (walkMin >? metersToMinWalk radiusM + 1)%Z then ret all else
  let* drv := mapboxDrive pickup p in
  match drv with
  | None => ret all
  | Some drv =>
      let distOK := Qleb (distance drv) (DIST_FACTOR * baseDist) in
      let timeOK := Qleb (duration drv) (TIME_FACTOR * baseTime) in
      if negb (distOK && timeOK) then ret all else
      let* baseModel := PageV2.modeledPriceUSD baseDist baseTime in
      let* candModel := PageV2.modeledPriceUSD (distance drv) (duration drv) in
      if Qltb ((center baseModel - center candModel) / center baseModel) PRICE_IMPROVE
      then ret all else
      ret (all ++ [ {| c_drop := p; c_walkMin := walkMin;
                       c_drive := {| leg_distance_m := distance drv;
                                     leg_duration_s := duration drv;
                                     leg_coords := coords drv |};
                       c_walk := match wk with
                                 | Some wk => {| leg_distance_m := distance wk;
                                                 leg_duration_s := duration wk;
                                                 leg_coords := coords wk |}
                                 | None => {| leg_distance_m := 0;
                                              leg_duration_s := inject_Z walkMin * 60;
                                              leg_coords := [ (lng p, lat p); (lng drop, lat drop) ] |}
                                 end;
                       c_parent := parentLabel;
                       c_color := colorAt CAND_COLORS (length all) |} ])
  end.

(** The comparator of [all.sort]; it reads the clock through the price
    model. *)
Definition candCmp (a b : Candidate) : M Q :=
  let* am := PageV2.modeledPriceUSD (leg_distance_m (c_drive a)) (leg_duration_s (c_drive a)) in
  let* bm := PageV2.modeledPriceUSD (leg_distance_m (c_drive b)) (leg_duration_s (c_drive b)) in
  if negb (Qeq_bool (center am) (center bm)) then ret (center am - center bm) else
  ret ((leg_distance_m (c_drive a) * 1.5 + leg_duration_s (c_drive a))
       - (leg_distance_m (c_drive b) * 1.5 + leg_duration_s (c_drive b))).

(** de-dup by 5-decimal key and cap to [CAND_MAX]. *)
Fixpoint dedupCap (all : list Candidate) (seen : gset Key) (dedup : list Candidate)
  : list Candidate :=
  match all with
  | [] => dedup
  | c :: rest =>
      let key := coordKey 5 (c_drop c) in
      if decide (key ∈ seen) then dedupCap rest seen dedup
      else
        let seen := {[ key ]} ∪ seen in
        let dedup := dedup ++ [c] in
        if (CAND_MAX <=? length dedup)%nat then dedup
        else dedupCap rest seen dedup
  end.

End Candidates.

(** The candidates effect: the value passed to [setCandidates]. *)
Definition discover (pickup drop : option LatLng) (regularRoutes : list RouteGeo) (radiusM : Q)
  : M (list Candidate) :=
  match pickup, drop with
  | Some pickup, Some drop =>
      if (length regularRoutes =? 0)%nat then ret [] else
      let* all :=
        forEach (fun r all =>
                   let* tailPts := liftOpt (sampleTail (r_coords r) SAMPLE_COUNT TAIL_FRACTION) in
                   forEach (point pickup drop radiusM r) tailPts all)
                regularRoutes [] in
      let* all := Array_sort_eff Candidate candCmp all in
      ret (dedupCap all ∅ [])
  | _, _ => ret []
  end.

End WithHost.
End PageV1.

(** ** The places search route ([api/places/search]) *)

Module Places.

(** A venue of the Foursquare response, as far as it is read.  A field
    is [None] when it is missing or not of the type the handler tests
    for; [name] is [None] when it is missing or falsy, and the text it
    prints as otherwise. *)
Record Location := mkLocation {
  loc_lat : option Q;
  loc_lng : option Q;
  formattedAddress : option (list string);
  address : option string;
  city : option string;
  state : option string
}.

Record Venue := mkVenue { name : option string; location : option Location }.

(** The value of [response.minivenues] or [response.venues]: missing or
    falsy, an array, or a truthy value that [for ... of] cannot iterate,
    on which it throws a [TypeError]. *)
Inductive Listing :=
| Missing
| NotIterable
| Venues (vs : list Venue).

(** The number that [Number(...)] makes of the [limit] parameter. *)
Inductive JsNumber :=
| NaN
| Finite (q : Q)
| Infinite (positive : bool).

Record Feature := mkFeature { label : string; subtitle : string; f_lat : Q; f_lng : Q }.

(** The key [`${label}|${lat.toFixed(6)},${lng.toFixed(6)}`]: neither
    printed number holds a bar or a comma, so two keys are the same
    string exactly when their three parts are the same. *)
Definition FeatureKey : Type := string * Key.


Definition nonEmpty (s : string) : bool := negb (String.eqb s EmptyString).

Definition push (st : list Feature * gset FeatureKey)
    (label : option string) (subtitle : string) (lat lng : option Q)
  : list Feature * gset FeatureKey :=
  match label, lat, lng with
  | Some label, Some lat, Some lng =>
      if negb (nonEmpty label) then st else
      let key := (label, (toFixed 6 lat, toFixed 6 lng)) in
      if decide (key ∈ snd st) then st
      else (fst st ++ [ {| label := label; subtitle := subtitle; f_lat := lat; f_lng := lng |} ],
            {[ key ]} ∪ snd st)
  | _, _, _ => st
  end.

(** The subtitle of a venue: its formatted address when it is an array,
    the non-empty ones of address, city and state otherwise. *)
Definition subtitleOf (loc : option Location) : string :=
  match loc with
  | Some loc =>
      match formattedAddress loc with
      | Some fa => String.concat ", " fa
      | None => String.concat ", " (List.filter nonEmpty (omap id [address loc; city loc; state loc]))
      end
  | None => String.concat ", " []
  end.

Definition pushVenue (st : list Feature * gset FeatureKey) (v : Venue)
  : list Feature * gset FeatureKey :=
  let loc := location v in
  push st (name v) (subtitleOf loc) (loc ≫= loc_lat) (loc ≫= loc_lng).

(** [for (const v of listing || [])]; [None] is the [TypeError]. *)
Definition pushAll (st : list Feature * gset FeatureKey) (listing : Listing)
  : option (list Feature * gset FeatureKey) :=
  match listing with
  | Missing => Some st
  | NotIterable => None
  | Venues vs => Some (fold_left pushVenue vs st)
  end.

(** [Math.max(1, Math.min(15, n))]; [None] is [NaN]. *)
Definition clampLimit (n : JsNumber) : option Q :=
  match n with
  | NaN => None
  | Finite q => Some (Math_max 1 (Math_min 15 q))
  | Infinite true => Some (Math_max 1 15)
  | Infinite false => Some 1
  end.

(** [out.slice(0, limit)]; the bound [NaN] counts as 0. *)
Definition sliceTo {A} (out : list A) (limit : option Q) : list A :=
  match limit with
  | Some limit => Array_slice out 0 (Math_trunc limit)
  | None => Array_slice out 0 0
  end.

Inductive Response :=
| Failure (status : Z) (error : string)
| Features (features : list Feature).

(** The handler, from what it reads of its request and of the two
    provider responses: whether the two credentials are set, the number
    [qLength] of UTF-16 code units of the trimmed query ([q.length]),
    the [limit] parameter as a number when it is present and not empty,
    and the two venue lists ([Missing] also when the call failed).  A
    [TypeError] of one of the two loops is caught by the handler, which
    then answers 500. *)
Definition GET (haveId haveSecret : bool) (qLength : nat) (limit : option JsNumber)
    (minivenues venues : Listing) : Response :=
  if negb haveId || negb haveSecret then Failure 500 "Missing FSQ v2 creds" else
  let limit := clampLimit (default (Finite 10) limit) in
  if (qLength <? 2)%nat then Features [] else
  let st := (([] : list Feature), (∅ : gset FeatureKey)) in
  match pushAll st minivenues with
  | None => Failure 500 "fsq v2 proxy failed"
  | Some st =>
      match pushAll st venues with
      | None => Failure 500 "fsq v2 proxy failed"
      | Some st => Features (sliceTo (fst st) limit)
      end
  end.

End Places.

(** ** The server estimate ([api/uber/estimates]) *)

Module UberEstimates.

Inductive Response :=
| BadParams
| Model (range : FareQuote).

Section WithHost.
Context `{Host}.

(** [duration_s] is optional; [duration_s ? ... : ...] also takes the
    second branch for the number 0. *)
Definition modeledPriceUSD (distance_m : Q) (duration_s : option Q) : M FareQuote :=
  let miles := distance_m / 1609.34 in
  let mins := match duration_s with
              | Some d => if Qeq_bool d 0 then Math_max 5 (miles * 2.2) else d / 60
              | None => Math_max 5 (miles * 2.2)
              end in
  let base := 2.25 in
  let perMile := 1.50 in
  let perMin := 0.33 in
  let service := 1.2 in
  let* h := liftTotal Date_getHours in
  let rush := ((7 <=? h) && (h <=? 9) || (16 <=? h) && (h <=? 19))%Z in
  let* now := liftTotal Date_now in
  let rnd := Math_sin (inject_Z (Math_floor (now / 60000))) * 0.5 + 0.5 in
  let surge := if rush then 1.15 + rnd * 0.35 else 1.0 + rnd * 0.2 in
  let center := Math_max 5 ((base + perMile * miles + perMin * mins + service) * surge) in
  ret {| low := center * 0.9; high := center * 1.15; center := center |}.

(** The handler, from the four query parameters as numbers; [None] is a
    parameter that is not a finite number.  The catch-all prices a trip
    of 2000 m. *)
Definition GET (startLat startLng endLat endLng : option Q) : M Response :=
  tryCatch
    (match startLat, startLng, endLat, endLng with
     | Some startLat, Some startLng, Some endLat, Some endLng =>
         let d := haversineMeters {| lat := startLat; lng := startLng |}
                                  {| lat := endLat; lng := endLng |} in
         let* range := modeledPriceUSD d None in
         ret (Model range)
     | _, _, _, _ => ret BadParams
     end)
    (let* range := modeledPriceUSD 2000 None in ret (Model range)).

End WithHost.
End UberEstimates.

(** ** A test host for the route builder and the estimator

    The traffic-aware call answers with [traffic], the free-flow call
    with [free] (or rejects), the geocoder with [addr] (or rejects).
    The estimator's provider finds a route along the meridian, driven at
    10 m/s, and none between two points of the same latitude. *)

Definition meridianRoute (a b : LatLng) : option (Q * Q) :=
  if Qeq_bool (lat a) (lat b) then None
  else Some (meridianMeters a b, meridianMeters a b / 10).

Definition routesHost (traffic : option (list RouteStats))
    (free : option (option (list RouteStats))) : Host :=
  {| World := TestWorld;
     haversineMeters := meridianMeters;
     Math_sin := fun _ => 0;
     mapboxDirections := fun pts profile _ w =>
       match profile with
       | driving_traffic => Some (traffic, tick w)
       | driving => match free with Some f => Some (f, tick w) | None => None end
       | walking => Some (None, tick w)
       end;
     fetchDrivingRoute := fun a b w => Some (meridianRoute a b, tick w);
     Date_getHours := fun w => (hour w, w);
     Date_now := fun w => (nowMs w, w);
     Array_sort_eff := @sortEff TestWorld |}.

Definition fixedGeocoder (H : Host) (addr : option string) : @Geocoder H :=
  {| reverseShort := fun _ w => match addr with Some a => Some (a, w) | None => None end |}.

(** Six routes as the provider might list them, not in order of
    duration. *)
Definition sixRoutes : list RouteStats :=
  [ {| distance := 8400; duration := 960; coords := [ (-97.75, 30.25); (-97.7394, 30.2861) ] |};
    {| distance := 8000; duration := 900; coords := [ (-97.75, 30.25); (-97.7394, 30.2861) ] |};
    {| distance := 9100; duration := 1100; coords := [] |};
    {| distance := 8800; duration := 1000; coords := [] |};
    {| distance := 9900; duration := 1300; coords := [] |};
    {| distance := 9500; duration := 1200; coords := [] |} ].

(** ** Specification-level definitions for the rest of the code *)

(** The hours in which the price models of [page.tsx] raise the surge. *)
Definition rushHours (h : Z) : bool := ((7 <=? h) && (h <=? 9) || (16 <=? h) && (h <=? 19))%Z.

(** The fare before surge and minimum, as every price model computes it. *)
Definition meterFare (distance_m duration_s : Q) : Q :=
  2.25 + 1.50 * (distance_m / 1609.34) + 0.33 * (duration_s / 60) + 1.2.

(** The walk minutes of a point: the provider's walking time rounded to
    minutes, or the straight-line estimate when it has no route. *)
Definition walkMinutesOf `{Host} (dr p : LatLng) (wk : option RouteStats) : Z :=
  match wk with
  | Some wk => Math_round (duration wk / 60)
  | None => metersToMinWalk (haversineMeters p dr)
  end.

(** The providers were asked for the walk from [p] to the destination
    and then for the drive from the pickup to [p], and answered [wk] and
    [drv]. *)
Definition answered `{Host} (pu dr p : LatLng) (wk drv : option RouteStats) : Prop :=
  exists w0 w1 w2,
    mapboxWalk p dr w0 = Some (wk, w1) /\ mapboxDrive pu p w1 = Some (drv, w2).

(** The candidate made of the point [p] of route [r] and of the two
    answers. *)
Definition candidateFor `{Host} (dr : LatLng) (surge : Q) (why : Reason)
    (r : RouteGeo) (p : LatLng) (wk : option RouteStats) (drv : RouteStats) : Candidate :=
  {| c_drop := p; c_walkMin := walkMinutesOf dr p wk;
     c_drive := {| distance_m := distance drv; duration_s := duration drv |};
     c_routeIdx := r_label r; c_surge := surge; c_reason := why |}.

(** [c] is the candidate of the in-band point [p] of route [r], made of
    the answers that the providers gave for [p]. *)
Definition recordedFrom `{Host} (pu dr : LatLng) (radiusM surge : Q) (why : Reason)
    (r : RouteGeo) (p : LatLng) (c : Candidate) : Prop :=
  inBand dr radiusM p /\
  exists wk drv, answered pu dr p wk (Some drv) /\ c = candidateFor dr surge why r p wk drv.

(** What the strict pass has checked of a candidate [c] that it records
    for the point [p] of the route [r]: [c] is made of the providers'
    answers for [p], the drive is short and fast enough against [r], and
    the modeled price beats [best] by the two thresholds. *)
Definition strictlyBetter `{Host} (pu dr : LatLng) (radiusM : Q) (df tf pct ab surge best : Q)
    (r : RouteGeo) (p : LatLng) (c : Candidate) : Prop :=
  recordedFrom pu dr radiusM surge strict r p c /\
  distance_m (c_drive c) <= df * r_distance r /\
  duration_s (c_drive c) <= tf * r_duration r /\
  ab <= best - candPrice surge c /\
  pct <= (best - candPrice surge c) / best.

(** The sampled tail points of the visible routes, each with its route,
    in the order in which a pass visits them. *)
Definition tailPoints (visible : list RouteGeo) : list (RouteGeo * LatLng) :=
  flat_map (fun r => map (pair r)
                         (default [] (sampleTail (r_coords r) SAMPLE_COUNT TAIL_FRACTION)))
           visible.

(** The candidate that the closest tier is to record for a sampled
    point, when the providers answer [walkOf p] and [drvOf p] for the
    point [p]: one for every point within the band to which the driving
    provider has a route. *)
Definition closestCandidate `{Host} (dr : LatLng) (radiusM surge : Q)
    (walkOf drvOf : LatLng -> option RouteStats) (rp : RouteGeo * LatLng) : option Candidate :=
  if inBandb dr radiusM (snd rp) then
    match drvOf (snd rp) with
    | Some drv => Some (candidateFor dr surge fallback (fst rp) (snd rp) (walkOf (snd rp)) drv)
    | None => None
    end
  else None.

Definition closestAccepted `{Host} (dr : LatLng) (radiusM surge : Q)
    (walkOf drvOf : LatLng -> option RouteStats) (pts : list (RouteGeo * LatLng))
  : list Candidate :=
  omap (closestCandidate dr radiusM surge walkOf drvOf) pts.


(** Ascending modeled price, the order of the strict and relaxed sorts. *)
Definition priceLe (surge : Q) (a b : Candidate) : Prop := candPrice surge a <= candPrice surge b.

(** Ascending duration, the order in which routes are ranked. *)
Definition durationLe (a b : RouteGeo) : Prop := r_duration a <= r_duration b.

(** The 6-decimal key of a candidate. *)
Definition candKey (c : Candidate) : Key := coordKey 6 (c_drop c).

(** Every provider call is answered (with routes or without). *)
Definition providersRespond `{Host} : Prop :=
  forall pts profile alternatives w, is_Some (mapboxDirections pts profile alternatives w).

(** The provider's part of a listed route. *)
Definition statsOf (r : RouteGeo) : RouteStats :=
  {| distance := r_distance r; duration := r_duration r; coords := r_coords r |}.

Definition statsLe (a b : RouteStats) : Prop := duration a <= duration b.

Definition REG_LABELS : list string := [ "Regular A"; "Regular B" ].
Definition ALT_LABELS : list string := [ "Alternate 1"; "Alternate 2"; "Alternate 3" ].

(** The base points that [pathOverlapPct] compares against, and whether
    a point lies within [tolM] of one of them. *)
Definition pointOf (c : Q * Q) : LatLng := {| lat := snd c; lng := fst c |}.

Definition basePtsOf (base : list (Q * Q)) : list LatLng :=
  map pointOf (everyNth (Z.to_nat (Z.max 1 (Z.of_nat (length base) / 200))) 0 base).

Definition nearSome `{Host} (tolM : Q) (basePts : list LatLng) (p : LatLng) : bool :=
  existsb (fun b => Qleb (haversineMeters p b) tolM) basePts.



(** What the first pipeline has checked of a candidate [c] that it
    records for the point [p] of the regular route [r]: the point is at
    least 12 m from the destination, the walk minutes made of the
    walking provider's answer keep the ceiling, and the drive that the
    driving provider answered is short and fast enough against [r]. *)
Definition acceptedV1 `{Host} (pu dr : LatLng) (radiusM : Q)
    (r : RouteGeo) (p : LatLng) (c : PageV1.Candidate) : Prop :=
  12 <= haversineMeters p dr /\
  exists wk drv,
    answered pu dr p wk (Some drv) /\
    PageV1.c_drop c = p /\ PageV1.c_parent c = r_label r /\
    PageV1.c_walkMin c = walkMinutesOf dr p wk /\
    PageV1.leg_distance_m (PageV1.c_drive c) = distance drv /\
    PageV1.leg_duration_s (PageV1.c_drive c) = duration drv /\
    (walkMinutesOf dr p wk <= metersToMinWalk radiusM + 1)%Z /\
    distance drv <= PageV1.DIST_FACTOR * r_distance r /\
    duration drv <= PageV1.TIME_FACTOR * r_duration r.

(** The same for a pass of the two-pass pipeline. *)
Definition acceptedV2 `{Host} (pu dr : LatLng) (radiusM : Q) (strictPass : bool)
    (r : RouteGeo) (p : LatLng) (c : PageV2.Candidate) : Prop :=
  12 <= haversineMeters p dr /\
  exists wk drv,
    answered pu dr p wk (Some drv) /\
    c = {| PageV2.c_drop := p; PageV2.c_walkMin := walkMinutesOf dr p wk;
           PageV2.c_drive := {| distance_m := distance drv; duration_s := duration drv |};
           PageV2.c_routeIdx := r_label r |} /\
    (walkMinutesOf dr p wk <= metersToMinWalk radiusM + 1)%Z /\
    distance drv
    <= (if strictPass then PageV2.DIST_FACTOR else PageV2.LOOSE_DIST_FACTOR) * r_distance r /\
    duration drv
    <= (if strictPass then PageV2.TIME_FACTOR else PageV2.LOOSE_TIME_FACTOR) * r_duration r.

(** [c] was sampled from the tail of one of [routes] and satisfies [P]
    for that route and point. *)
Definition sampledFrom {C} (P : RouteGeo -> LatLng -> C -> Prop)
    (routes : list RouteGeo) (c : C) : Prop :=
  exists r pts p, r ∈ routes /\
    sampleTail (r_coords r) SAMPLE_COUNT TAIL_FRACTION = Some pts /\ p ∈ pts /\ P r p c.

(** The number of candidates of the two-pass pipeline that carry the
    route label [l]. *)
Definition countLabelV2 (l : string) (cs : list PageV2.Candidate) : nat :=
  length (filter (fun c => PageV2.c_routeIdx c = l) cs).

(** The minutes that the server estimate prices: the given duration, or
    2.2 minutes per mile and at least 5 when it is missing or 0. *)
Definition serverMinutes (distance_m : Q) (duration_s : option Q) : Q :=
  match duration_s with
  | Some d => if Qeq_bool d 0 then Math_max 5 (distance_m / 1609.34 * 2.2) else d / 60
  | None => Math_max 5 (distance_m / 1609.34 * 2.2)
  end.

(** A driving table that is good at the last sampled point of [route14]
    and mediocre before it. *)
Definition drvMixed (p : LatLng) : option RouteStats :=
  if Qle_bool 30.2846 (lat p) then drvGood p else drvSoSo p.

(** A route whose geometry is a single coordinate. *)
Definition onePoint : RouteGeo :=
  {| r_distance := 8400; r_duration := 960; r_coords := [ (-97.7394, 30.2861) ];
     r_label := "Regular B"; r_color := "#a78bfa"; r_kind := regular |}.

(** The list that the three-tier pipeline returns for [route14] when the
    driving table is [drvMixed]: one strict candidate, then two from the
    relaxed tier. *)
Definition mixedRun : list Candidate :=
  [ pushed {| lat := 30.2846; lng := -97.7394 |} 3 6500 700 "Regular A" strict;
    pushed {| lat := 30.2826; lng := -97.7394 |} 3 7600 850 "Regular A" fallback;
    pushed {| lat := 30.2836; lng := -97.7394 |} 3 7600 850 "Regular A" fallback ].

(** The host whose provider answers with [sixRoutes] and a free-flow
    duration of 750 s. *)
Definition sixRoutesHost : Host :=
  routesHost (Some sixRoutes) (Some (Some [ {| distance := 8000; duration := 750; coords := [] |} ])).

(** ** A rounding for the ETA

    [coarse] keeps a number below one half and rounds a larger one to
    the nearest multiple of 1/1024 (ties up): a rounding with little
    precision that, like the doubles, is finer near zero. *)
Definition coarse (x : Q) : Q :=
  if Qle_bool (1 # 2) (Qabs x) then inject_Z (Qfloor (x * 1024 + (1 # 2))) / 1024 else x.

Definition coarseRounding : Rounding.
Proof.
  assert (forall x y, x <= y ->
            inject_Z (Qfloor (x * 1024 + (1 # 2))) / 1024
            <= inject_Z (Qfloor (y * 1024 + (1 # 2))) / 1024) as Hg.
  { intros x y L. apply Qmult_le_compat_r; [|discriminate].
    rewrite <- Zle_Qle. apply Qfloor_resp_le. lra. }
  assert (forall x, 1 # 2 <= Qabs x -> 1 # 2 <= x \/ x <= - (1 # 2)) as Hcase.
  { intros x L. destruct (Qlt_le_dec x 0) as [N|N].
    - right. rewrite Qabs_neg in L by lra. lra.
    - left. rewrite Qabs_pos in L by lra. exact L. }
  assert (forall x, Qle_bool (1 # 2) (Qabs x) = false -> - (1 # 2) < x /\ x < 1 # 2) as Hsmall.
  { intros x E. assert (Qabs x < 1 # 2) as L.
    { apply Qnot_le_lt. intros L. apply Qle_bool_iff in L. congruence. }
    apply Qabs_Qlt_condition in L. exact L. }
  refine {| fl := coarse |}.
  - intros x y L. unfold coarse.
    destruct (Qle_bool (1 # 2) (Qabs x)) eqn:Ex; destruct (Qle_bool (1 # 2) (Qabs y)) eqn:Ey.
    + apply Hg. exact L.
    + apply Qle_bool_iff, Hcase in Ex. apply Hsmall in Ey.
      destruct Ex as [Ex|Ex]; [lra|].
      eapply Qle_trans; [apply (Hg x (- (1 # 2)) Ex)|].
      eapply Qle_trans; [|apply Qlt_le_weak, (proj1 Ey)]. vm_compute. discriminate.
    + apply Qle_bool_iff, Hcase in Ey. apply Hsmall in Ex.
      destruct Ey as [Ey|Ey]; [|lra].
      eapply Qle_trans; [|apply (Hg (1 # 2) y Ey)].
      eapply Qle_trans; [apply Qlt_le_weak, (proj2 Ex)|]. vm_compute. discriminate.
    + exact L.
  - intros z _. unfold coarse.
    destruct (Qle_bool (1 # 2) (Qabs (inject_Z z))); [|reflexivity].
    assert (Qfloor (inject_Z z * 1024 + (1 # 2)) = (z * 1024)%Z) as ->.
    { pose proof (Qfloor_le (inject_Z z * 1024 + (1 # 2))) as L.
      pose proof (Qlt_floor (inject_Z z * 1024 + (1 # 2))) as U.
      set (k := Qfloor _) in *.
      assert (inject_Z z * 1024 == inject_Z (z * 1024)) as Em
        by (rewrite inject_Z_mult; reflexivity).
      rewrite Em in L, U.
      assert (inject_Z k < inject_Z (z * 1024 + 1)) as L'.
      { rewrite inject_Z_plus. change (inject_Z 1) with 1. lra. }
      assert (inject_Z (z * 1024) < inject_Z (k + 1)) as U' by lra.
      rewrite <- Zlt_Qlt in L', U'. lia. }
    rewrite inject_Z_mult. change (inject_Z 1024) with 1024. field.
Defined.

(** A test host whose sine is the constant [s]. *)
Definition sineHost (s : Q) : Host :=
  {| World := TestWorld;
     haversineMeters := meridianMeters;
     Math_sin := fun _ => s;
     mapboxDirections := fun _ _ _ w => Some (None, tick w);
     fetchDrivingRoute := fun _ _ w => Some (None, tick w);
     Date_getHours := fun w => (hour w, w);
     Date_now := fun w => (nowMs w, w);
     Array_sort_eff := @sortEff TestWorld |}.

(** * Properties *)

(** ** Numbers *)

Lemma Qltb_lt a b : Qltb a b = true <-> a < b.
Proof.
  unfold Qltb. rewrite negb_true_iff. split.
  - intros E. apply Qnot_le_lt. intros L. apply Qle_bool_iff in L. congruence.
  - intros L. destruct (Qle_bool b a) eqn:E; [|reflexivity].
    apply Qle_bool_iff in E. lra.
Qed.

Lemma Qltb_ge a b : Qltb a b = false <-> b <= a.
Proof.
  unfold Qltb. rewrite negb_false_iff. apply Qle_bool_iff.
Qed.

Lemma Qleb_le a b : Qleb a b = true <-> a <= b.
Proof. apply Qle_bool_iff. Qed.

Lemma Qleb_gt a b : Qleb a b = false <-> b < a.
Proof.
  unfold Qleb. split.
  - intros E. apply Qnot_le_lt. intros L. apply Qle_bool_iff in L. congruence.
  - intros L. destruct (Qle_bool a b) eqn:E; [|reflexivity].
    apply Qle_bool_iff in E. lra.
Qed.

Lemma Qgtb_gt a b : Qgtb a b = true <-> b < a.
Proof. apply Qltb_lt. Qed.

Lemma Qgtb_le a b : Qgtb a b = false <-> a <= b.
Proof. apply Qltb_ge. Qed.

Lemma Qgeb_ge a b : Qgeb a b = true <-> b <= a.
Proof. apply Qle_bool_iff. Qed.

Lemma Math_max_spec a b : Math_max a b == Qmax a b.
Proof.
  unfold Math_max. destruct (Qle_bool a b) eqn:E.
  - apply Qle_bool_iff in E. symmetry. apply Q.max_r. exact E.
  - apply (Qleb_gt a b) in E. symmetry. apply Q.max_l. lra.
Qed.

Lemma Math_max_l a b : a <= Math_max a b.
Proof. rewrite Math_max_spec. apply Q.le_max_l. Qed.

Lemma Math_max_r a b : b <= Math_max a b.
Proof. rewrite Math_max_spec. apply Q.le_max_r. Qed.

Lemma Math_max_lub a b c : a <= c -> b <= c -> Math_max a b <= c.
Proof. intros. rewrite Math_max_spec. apply Q.max_lub; assumption. Qed.


Lemma Math_round_mono x y : x <= y -> (Math_round x <= Math_round y)%Z.
Proof. intros L. unfold Math_round. apply Qfloor_resp_le. lra. Qed.


(** ** The price model *)

Lemma modeledPriceUSD_center_min d t s p : 5 <= center (modeledPriceUSD d t s p).
Proof. apply Math_max_l. Qed.

(** ** The clock *)

Section Clock.
Context {H : Host}.
Variables (getHours : World -> Z * World) (now : World -> Q * World).







End Clock.




(** C9.  The worked scenario: 5000 m and 900 s at surge 1.0 without
    penalty are 3.107 miles and 15 minutes, and the quote shows as
    center 13.06, low 11.75 (center × 0.9) and high 14.63 (center × 1.12)
    once printed with two decimals. *)
Theorem fare_scenario_5000m_900s :
  toFixed 3 (5000 / 1609.34) = (false, 3107%Z) /\
  900 / 60 == 15 /\
  toFixed 2 (center (modeledPriceUSD 5000 900 1.0 0)) = (false, 1306%Z) /\
  toFixed 2 (low (modeledPriceUSD 5000 900 1.0 0)) = (false, 1175%Z) /\
  toFixed 2 (high (modeledPriceUSD 5000 900 1.0 0)) = (false, 1463%Z) /\
  low (modeledPriceUSD 5000 900 1.0 0) == center (modeledPriceUSD 5000 900 1.0 0) * 0.9 /\
  high (modeledPriceUSD 5000 900 1.0 0) == center (modeledPriceUSD 5000 900 1.0 0) * 1.12.
Proof. repeat split; vm_compute; reflexivity. Qed.

Lemma modeledPriceUSD_bounds d t s p :
  low (modeledPriceUSD d t s p) <= center (modeledPriceUSD d t s p) /\
  center (modeledPriceUSD d t s p) <= high (modeledPriceUSD d t s p) /\
  4.5 <= low (modeledPriceUSD d t s p) /\
  5 <= center (modeledPriceUSD d t s p).
Proof.
  pose proof (modeledPriceUSD_center_min d t s p) as Hc.
  cbn [low high center modeledPriceUSD] in *.
  set (c := Math_max 5 _) in *.
  repeat split.
  - apply Math_max_lub; lra.
  - lra.
  - apply Math_max_l.
  - exact Hc.
Qed.

Lemma round2_mono x y : x <= y -> Estimator.round2 x <= Estimator.round2 y.
Proof.
  intros L. unfold Estimator.round2.
  unfold Qdiv. apply Qmult_le_compat_r; [|discriminate].
  rewrite <- Zle_Qle. apply Math_round_mono. lra.
Qed.

Lemma estimatePriceRange_bounds `{Host} pickup drop now w pr w' :
  Estimator.estimatePriceRange pickup drop now w = Some (pr, w') ->
  Estimator.low pr <= Estimator.center pr /\
  Estimator.center pr <= Estimator.high pr /\
  Estimator.minFare Estimator.AUSTIN_RATECARD <= Estimator.low pr.
Proof.
  unfold Estimator.estimatePriceRange, Estimator.getDriveStats, bind, ret.
  destruct (fetchDrivingRoute pickup drop w) as [[route w1]|]; [|discriminate].
  intros E. injection E as <- <-.
  cbn [Estimator.low Estimator.center Estimator.high fst snd].
  cbn [Estimator.minFare Estimator.AUSTIN_RATECARD].
  set (price := Math_max (_ * Estimator.timeOfDayFactor now) _).
  set (band := if Qgtb _ 1.2 then 0.28 else 0.18).
  assert (7.00 <= price) as Hp by apply Math_max_r.
  assert (0 <= band /\ band <= 1) as Hb.
  { unfold band. destruct (Qgtb _ _); lra. }
  repeat split.
  - apply Math_max_lub.
    + apply Qle_trans with (Estimator.round2 7.00); [vm_compute; discriminate|].
      apply round2_mono. lra.
    + apply round2_mono. nra.
  - apply round2_mono. nra.
  - apply Math_max_l.
Qed.

(** C5 (amended).  Every quote of the fare model satisfies
    low ≤ center ≤ high; its center is at least the minimum fare 5, and its
    low is at least 4.5, that is 0.9 × the minimum fare, not the minimum
    fare itself.  Every range of [estimatePriceRange] satisfies
    low ≤ center ≤ high with low at least its minimum fare 7. *)
Theorem fare_quote_bounds `{Host} (d t s p : Q) pickup drop now w pr w' :
  Estimator.estimatePriceRange pickup drop now w = Some (pr, w') ->
  (low (modeledPriceUSD d t s p) <= center (modeledPriceUSD d t s p) /\
   center (modeledPriceUSD d t s p) <= high (modeledPriceUSD d t s p) /\
   4.5 <= low (modeledPriceUSD d t s p) /\
   5 <= center (modeledPriceUSD d t s p)) /\
  (Estimator.low pr <= Estimator.center pr /\
   Estimator.center pr <= Estimator.high pr /\
   Estimator.minFare Estimator.AUSTIN_RATECARD <= Estimator.low pr).
Proof.
  intros E. split.
  - apply modeledPriceUSD_bounds.
  - eapply estimatePriceRange_bounds. exact E.
Qed.

(** ** Route-tail sampling *)

Lemma Array_get_Some {A} (l : list A) (i : Z) :
  (0 <= i < Z.of_nat (length l))%Z -> exists x, Array_get l i = Some x /\ l !! Z.to_nat i = Some x.
Proof.
  intros [H0 H1]. unfold Array_get.
  destruct (Z.ltb_spec i 0); [lia|].
  destruct (lookup_lt_is_Some_2 l (Z.to_nat i)) as [x Hx]; [lia|].
  exists x. split; exact Hx.
Qed.

Lemma Array_get_neg {A} (l : list A) (i : Z) : (i < 0)%Z -> Array_get l i = None.
Proof. intros H. unfold Array_get. destruct (Z.ltb_spec i 0); [reflexivity|lia]. Qed.

Lemma Array_slice_prefix {A} (l : list A) (n : nat) :
  Array_slice l 0 (Z.of_nat n) = take n l.
Proof.
  unfold Array_slice, rel_index. cbn [Z.ltb Z.compare].
  destruct (Z.ltb_spec (Z.of_nat n) 0); [lia|].
  replace (Z.to_nat (Z.min 0 (Z.of_nat (length l)))) with 0%nat by lia.
  rewrite drop_0.
  destruct (Nat.le_gt_cases n (length l)) as [L|L].
  - f_equal. lia.
  - rewrite (take_ge l n) by lia. apply take_ge. lia.
Qed.

Lemma sampleLoop_spec (slice : list (Q * Q)) (count : nat) (P : LatLng -> Prop) :
  (0 < length slice)%nat ->
  (forall lng0 lat0, (lng0, lat0) ∈ slice -> P {| lat := lat0; lng := lng0 |}) ->
  forall idxs out, Forall P out ->
    exists out', sampleLoop slice count idxs out = Some out' /\
                 Forall P out' /\ length out' = (length out + length idxs)%nat.
Proof.
  intros Hne HP. induction idxs as [|i idxs IH]; intros out Hout.
  - exists out. cbn. split; [reflexivity|]. split; [exact Hout|lia].
  - cbn [sampleLoop].
    set (idx := Z.min _ _).
    assert (0 <= idx < Z.of_nat (length slice))%Z as Hidx.
    { unfold idx. split; [|lia]. apply Z.min_glb; [lia|].
      unfold Math_floor. change 0%Z with (Qfloor 0). apply Qfloor_resp_le.
      apply Qmult_le_0_compat.
      - apply Qle_shift_div_l.
        + rewrite <- (Zlt_Qlt 0). lia.
        + rewrite Qmult_0_l. rewrite <- (Zle_Qle 0). lia.
      - rewrite <- (Zle_Qle 0). lia. }
    destruct (Array_get_Some slice idx Hidx) as [[lng0 lat0] [-> Hx]].
    destruct (IH (out ++ [ {| lat := lat0; lng := lng0 |} ])) as [out' [E [F L]]].
    { apply Forall_app. split; [exact Hout|]. apply Forall_singleton.
      apply HP. eapply list_elem_of_lookup_2. exact Hx. }
    exists out'. split; [exact E|]. split; [exact F|].
    rewrite L, length_app. cbn. lia.
Qed.

Lemma dedupeLoop_spec (P : LatLng -> Prop) out :
  forall seen uniq, Forall P out -> Forall P uniq ->
    Forall P (dedupeLoop out seen uniq) /\
    (length (dedupeLoop out seen uniq) <= length uniq + length out)%nat.
Proof.
  induction out as [|p out IH]; intros seen uniq Hout Huniq; cbn [dedupeLoop].
  - split; [exact Huniq|lia].
  - apply Forall_cons in Hout as [Hp Hout].
    destruct (decide (coordKey 5 p ∈ seen)).
    + destruct (IH seen uniq Hout Huniq) as [F L]. split; [exact F|cbn; lia].
    + destruct (IH ({[coordKey 5 p]} ∪ seen) (uniq ++ [p]) Hout) as [F L].
      { apply Forall_app. split; [exact Huniq|]. apply Forall_singleton. exact Hp. }
      split; [exact F|]. rewrite length_app in L. cbn in *. lia.
Qed.

(** The keys of the points that [dedupeLoop] adds are pairwise distinct
    and not in [seen]. *)
Lemma dedupeLoop_NoDup out :
  forall seen uniq,
    NoDup (map (coordKey 5) uniq) ->
    (forall p, p ∈ uniq -> coordKey 5 p ∈ seen) ->
    NoDup (map (coordKey 5) (dedupeLoop out seen uniq)).
Proof.
  induction out as [|p out IH]; intros seen uniq Hnd Hseen; cbn [dedupeLoop].
  - exact Hnd.
  - destruct (decide (coordKey 5 p ∈ seen)) as [Hin|Hout].
    + apply IH; assumption.
    + apply IH.
      * rewrite map_app. cbn. apply NoDup_app. split; [exact Hnd|]. split.
        -- intros k Hk Hk'. apply list_elem_of_singleton in Hk'. subst k.
           apply list_elem_of_fmap in Hk as [q [Hq Hq']].
           apply Hout. rewrite Hq. apply Hseen. exact Hq'.
        -- apply NoDup_singleton.
      * intros q Hq. apply elem_of_app in Hq as [Hq|Hq].
        -- apply elem_of_union_r. apply Hseen. exact Hq.
        -- apply list_elem_of_singleton in Hq. subst q.
           apply elem_of_union_l. apply elem_of_singleton. reflexivity.
Qed.

Lemma Qfloor_lt_Z (x : Q) (n : Z) : x < inject_Z n -> (Qfloor x < n)%Z.
Proof.
  intros H. rewrite Zlt_Qlt. eapply Qle_lt_trans; [apply Qfloor_le|exact H].
Qed.

Lemma sampleTail_returns (coords : list (Q * Q)) (count : nat) (fraction : Q) :
  (2 <= length coords)%nat -> 0 < fraction ->
  exists pts, sampleTail coords count fraction = Some pts /\
    (length pts <= count)%nat /\
    NoDup (map (coordKey 5) pts) /\
    Forall (fun p => exists i, (i < length coords - 1)%nat /\ coords !! i = Some (lng p, lat p)) pts.
Proof.
  intros Hn Hf. unfold sampleTail.
  destruct (Nat.eqb_spec (length coords) 0) as [E0|_]; [lia|].
  set (n := Z.of_nat (length coords)).
  set (startIdx := Z.max 0 _).
  assert (0 <= startIdx <= n - 2)%Z as Hs.
  { unfold startIdx. split; [lia|]. apply Z.max_lub; [lia|].
    assert (Math_floor (inject_Z n * (1 - fraction)) < n)%Z; [|lia].
    apply Qfloor_lt_Z.
    assert (0 < inject_Z n) by (rewrite <- (Zlt_Qlt 0); lia). nra. }
  set (slice := Array_slice coords startIdx (n - 1)).
  assert (slice = take (Z.to_nat (n - 1 - startIdx)) (drop (Z.to_nat startIdx) coords)) as Hslice.
  { unfold slice, Array_slice, rel_index. fold n.
    destruct (Z.ltb_spec startIdx 0); [lia|].
    destruct (Z.ltb_spec (n - 1) 0); [lia|].
    rewrite !Z.min_l by lia. reflexivity. }
  assert (0 < length slice)%nat as Hlen.
  { rewrite Hslice, length_take, length_drop. lia. }
  set (P := fun p => exists i, (i < length coords - 1)%nat /\ coords !! i = Some (lng p, lat p)).
  assert (forall lng0 lat0, (lng0, lat0) ∈ slice -> P {| lat := lat0; lng := lng0 |}) as HP.
  { intros lng0 lat0 Hin. rewrite Hslice in Hin.
    apply elem_of_take in Hin as [i [Hi Hlt]].
    rewrite lookup_drop in Hi.
    exists (Z.to_nat startIdx + i)%nat. split; [lia|exact Hi]. }
  destruct (sampleLoop_spec slice count P Hlen HP (seq 1 count) []) as [out [-> [F L]]];
    [constructor|].
  exists (dedupeLoop out ∅ []). split; [reflexivity|].
  destruct (dedupeLoop_spec P out ∅ [] F) as [F' L']; [constructor|].
  split; [|split].
  - rewrite length_seq in L. cbn in L, L'. lia.
  - apply dedupeLoop_NoDup; [constructor|]. intros p Hp. apply elem_of_nil in Hp. contradiction.
  - exact F'.
Qed.

(** C10 (the failing case).  On a geometry of exactly one point and a
    positive sample count [sampleTail] throws: the tail slice is empty,
    the index is -1, and destructuring [slice[-1]] raises a [TypeError]. *)
Theorem sampleTail_single_point_throws (c : Q * Q) (k : nat) (fraction : Q) :
  sampleTail [c] (S k) fraction = None.
Proof.
  unfold sampleTail. cbn [length Nat.eqb].
  set (startIdx := Z.max 0 _).
  assert (Array_slice [c] startIdx (Z.of_nat 1 - 1) = []) as ->.
  { assert (Z.to_nat (rel_index 1 0 - rel_index 1 startIdx) = 0%nat) as E.
    { unfold rel_index. destruct (Z.ltb_spec startIdx 0); cbn; lia. }
    unfold Array_slice. cbn [length].
    change (Z.of_nat 1 - 1)%Z with 0%Z. change (Z.of_nat 1) with 1%Z.
    rewrite E. reflexivity. }
  cbn [seq sampleLoop length].
  rewrite Array_get_neg; [reflexivity|]. lia.
Qed.

(** ** Loops over the world *)

Section Loops.
Context `{Host}.

Lemma bind_Some {A B} (m : M A) (k : A -> M B) w b w' :
  bind m k w = Some (b, w') <-> exists a w1, m w = Some (a, w1) /\ k a w1 = Some (b, w').
Proof.
  unfold bind. split.
  - destruct (m w) as [[a w1]|]; [|discriminate]. intros E. exists a, w1. split; [reflexivity|exact E].
  - intros [a [w1 [-> E]]]. exact E.
Qed.

Lemma ret_Some {A} (a b : A) (w w' : World) : ret a w = Some (b, w') <-> a = b /\ w = w'.
Proof. unfold ret. split; [intros E; injection E; auto|intros [-> ->]; reflexivity]. Qed.

Lemma liftOpt_Some {A} (o : option A) (a : A) (w w' : World) :
  liftOpt o w = Some (a, w') <-> o = Some a /\ w = w'.
Proof.
  destruct o as [x|]; cbn.
  - rewrite ret_Some. split; intros [E ->]; split; congruence.
  - unfold throw. split; [discriminate|intros [E _]; discriminate].
Qed.

Lemma forEach_inv {A S} (I : S -> Prop) (body : A -> S -> M S) (l : list A) :
  (forall a s w s' w', a ∈ l -> I s -> body a s w = Some (s', w') -> I s') ->
  forall s w s' w', I s -> forEach body l s w = Some (s', w') -> I s'.
Proof.
  induction l as [|a l IH]; intros Hbody s w s' w' Hs E; cbn [forEach] in E.
  - apply ret_Some in E as [<- _]. exact Hs.
  - apply bind_Some in E as [s1 [w1 [E1 E2]]].
    eapply IH; [| |exact E2].
    + intros a0 s0 w0 s0' w0' Hin. apply Hbody. apply elem_of_cons. right. exact Hin.
    + eapply Hbody; [apply elem_of_cons; left; reflexivity|exact Hs|exact E1].
Qed.

Lemma scanTails_Forall P point visible w all w' :
  appends P point -> scanTails point visible w = Some (all, w') ->
  Forall (sampledWith P visible) all.
Proof.
  intros Hp E. unfold scanTails in E.
  eapply (forEach_inv (Forall (sampledWith P visible))); [| |exact E]; [|constructor].
  intros r s w0 s' w0' Hr Hs E0.
  apply bind_Some in E0 as [pts [w1 [Epts E1]]].
  apply liftOpt_Some in Epts as [Epts _].
  eapply (forEach_inv (Forall (sampledWith P visible))); [| exact Hs |exact E1].
  intros p s1 w2 s1' w2' Hin Hs1 E2.
  destruct (Hp _ _ _ _ _ _ E2) as [added [-> Ha]].
  apply Forall_app. split; [assumption|].
  eapply Forall_impl; [exact Ha|].
  intros c Hc. exists r, pts, p. auto.
Qed.

Lemma inBand_of_guard drop radiusM p :
  Qgtb (haversineMeters p drop) radiusM || Qltb (haversineMeters p drop) 12 = false ->
  inBand drop radiusM p.
Proof.
  intros E. apply orb_false_iff in E as [E1 E2].
  apply Qgtb_le in E1. apply Qltb_ge in E2. split; assumption.
Qed.

Lemma appends_none {A} (P : A -> Prop) (all : list A) :
  exists added, all = all ++ added /\ Forall P added.
Proof. exists []. rewrite app_nil_r. split; [reflexivity|constructor]. Qed.

Lemma appends_one {A} (P : A -> Prop) (all : list A) (c : A) :
  P c -> exists added, all ++ [c] = all ++ added /\ Forall P added.
Proof. intros Hc. exists [c]. split; [reflexivity|]. apply Forall_singleton. exact Hc. Qed.

Ltac point_appends :=
  intros ? ? ? ? ? ? ?; repeat case_match; simplify_eq;
  first [ apply appends_none
        | apply appends_one; split; [reflexivity|]; split; [reflexivity|];
          split; [reflexivity|]; apply inBand_of_guard; assumption ].

Lemma strictPoint_appends pickup drop radiusM surgeProxy bestPrice df tf pct ab :
  appends (recorded drop radiusM strict)
          (strictPoint pickup drop radiusM surgeProxy bestPrice df tf pct ab).
Proof. unfold appends, strictPoint, bind, ret. point_appends. Qed.

Lemma relaxedPoint_appends pickup drop radiusM surgeProxy :
  appends (recorded drop radiusM fallback) (relaxedPoint pickup drop radiusM surgeProxy).
Proof. unfold appends, relaxedPoint, bind, ret. point_appends. Qed.

Lemma closestPoint_appends pickup drop radiusM surgeProxy :
  appends (recorded drop radiusM fallback) (closestPoint pickup drop radiusM surgeProxy).
Proof. unfold appends, closestPoint, bind, ret. point_appends. Qed.

Lemma sampledWith_recorded drop radiusM why visible c :
  sampledWith (recorded drop radiusM why) visible c ->
  inBand drop radiusM (c_drop c) /\ c_reason c = why.
Proof.
  intros [r [pts [p [_ [_ [_ [Hd [_ [Hw Hb]]]]]]]]]. rewrite Hd. split; assumption.
Qed.

End Loops.

(** ** Sorting *)

Lemma sort_insert_perm {A} (cmp : A -> A -> Q) (x : A) (l : list A) :
  sort_insert cmp x l ≡ₚ x :: l.
Proof.
  induction l as [|y l IH]; cbn [sort_insert]; [reflexivity|].
  destruct (Qle_bool (cmp x y) 0); [reflexivity|].
  rewrite IH. apply perm_swap.
Qed.

Lemma Array_sort_perm {A} (cmp : A -> A -> Q) (l : list A) : Array_sort cmp l ≡ₚ l.
Proof.
  induction l as [|x l IH]; cbn [Array_sort]; [reflexivity|].
  rewrite sort_insert_perm, IH. reflexivity.
Qed.

Lemma Array_sort_Forall {A} (P : A -> Prop) (cmp : A -> A -> Q) (l : list A) :
  Forall P l -> Forall P (Array_sort cmp l).
Proof. intros F. rewrite Array_sort_perm. exact F. Qed.

Lemma Array_sort_length {A} (cmp : A -> A -> Q) (l : list A) :
  length (Array_sort cmp l) = length l.
Proof. apply Permutation_length, Array_sort_perm. Qed.

(** A comparator that decides a relation [R] both ways sorts by it. *)
Section SortedBy.
Context {A : Type} (cmp : A -> A -> Q) (R : A -> A -> Prop).
Hypothesis cmp_le : forall a b, cmp a b <= 0 -> R a b.
Hypothesis cmp_gt : forall a b, ~ cmp a b <= 0 -> R b a.

Lemma sort_insert_Sorted x l : Sorted R l -> Sorted R (sort_insert cmp x l).
Proof using cmp_le cmp_gt.
  induction l as [|y l IH]; intros S; cbn [sort_insert].
  - repeat constructor.
  - destruct (Qle_bool (cmp x y) 0) eqn:E.
    + apply Qle_bool_iff in E. constructor; [exact S|]. constructor. apply cmp_le. exact E.
    + assert (~ cmp x y <= 0) as N by (rewrite <- Qle_bool_iff; congruence).
      apply Sorted_inv in S as [S Hd]. constructor; [apply IH; exact S|].
      destruct l as [|z l]; cbn [sort_insert].
      * constructor. apply cmp_gt. exact N.
      * destruct (Qle_bool (cmp x z) 0); constructor.
        -- apply cmp_gt. exact N.
        -- apply HdRel_inv in Hd. exact Hd.
Qed.

Lemma Array_sort_Sorted l : Sorted R (Array_sort cmp l).
Proof using cmp_le cmp_gt.
  induction l as [|x l IH]; cbn [Array_sort]; [constructor|].
  apply sort_insert_Sorted. exact IH.
Qed.

End SortedBy.

Lemma StronglySorted_sublist {A} (R : A -> A -> Prop) (l' l : list A) :
  l' `sublist_of` l -> StronglySorted R l -> StronglySorted R l'.
Proof.
  induction 1 as [|x l1 l2 Hs IH|x l1 l2 Hs IH]; intros S.
  - constructor.
  - apply StronglySorted_inv in S as [S F]. constructor; [apply IH; exact S|].
    apply Forall_forall. intros y Hy. rewrite Forall_forall in F. apply F.
    eapply elem_of_sublist; eassumption.
  - apply StronglySorted_inv in S as [S _]. apply IH. exact S.
Qed.

Section Closest.
Context `{Host}.

Lemma closestCmp_le drop surge a b : closestCmp drop surge a b <= 0 -> radialLe drop a b.
Proof.
  unfold closestCmp, radialLe.
  destruct (Qeq_bool _ _) eqn:E; cbn [negb].
  - apply Qeq_bool_iff in E. intros _. rewrite E. apply Qle_refl.
  - intros L. lra.
Qed.

Lemma closestCmp_gt drop surge a b : ~ closestCmp drop surge a b <= 0 -> radialLe drop b a.
Proof.
  unfold closestCmp, radialLe.
  destruct (Qeq_bool _ _) eqn:E; cbn [negb].
  - apply Qeq_bool_iff in E. intros _. rewrite E. apply Qle_refl.
  - intros L. lra.
Qed.

Lemma closest_sorted drop surge l :
  StronglySorted (radialLe drop) (Array_sort (closestCmp drop surge) l).
Proof.
  apply Sorted_StronglySorted.
  - intros a b c. unfold radialLe. apply Qle_trans.
  - apply (Array_sort_Sorted (closestCmp drop surge) (radialLe drop)).
    + apply closestCmp_le.
    + apply closestCmp_gt.
Qed.

End Closest.

(** ** Capping per route *)

Local Close Scope Q_scope.

Lemma bump_lookup_eq seen l : (default 0 (bump seen l !! l) = default 0 (seen !! l) + 1)%nat.
Proof. unfold bump. rewrite lookup_insert_eq. reflexivity. Qed.

Lemma bump_lookup_ne seen l l' : l <> l' -> bump seen l !! l' = seen !! l'.
Proof. intros N. unfold bump. apply lookup_insert_ne. exact N. Qed.

Ltac case_leb :=
  repeat match goal with
         | |- context [(?a <=? ?b)] => destruct (Nat.leb_spec a b)
         | H : context [(?a <=? ?b)] |- _ => destruct (Nat.leb_spec a b)
         end.

Lemma capRoute_cons seen c rest :
  capRoute seen (c :: rest) =
  if (default 0 (seen !! c_routeIdx c) + 1 <=? 2)%nat
  then c :: capRoute (bump seen (c_routeIdx c)) rest
  else capRoute (bump seen (c_routeIdx c)) rest.
Proof. reflexivity. Qed.

Lemma capRoute_sublist cs : forall seen, capRoute seen cs `sublist_of` cs.
Proof.
  induction cs as [|c cs IH]; intros seen; [constructor|].
  rewrite capRoute_cons. destruct (_ <=? 2)%nat.
  - apply sublist_skip, IH.
  - apply sublist_cons, IH.
Qed.

Lemma capRoute_count l cs : forall seen : gmap string nat,
  (countLabel l (capRoute seen cs) + Nat.min 2 (default 0 (seen !! l)) <= 2)%nat.
Proof.
  unfold countLabel.
  induction cs as [|c cs IH]; intros seen;
    [cbn [capRoute]; rewrite filter_nil; cbn [length]; lia|].
  rewrite capRoute_cons.
  specialize (IH (bump seen (c_routeIdx c))).
  destruct (decide (c_routeIdx c = l)) as [E|N].
  - rewrite E in *. rewrite bump_lookup_eq in IH.
    destruct (Nat.leb_spec (default 0 (seen !! l) + 1) 2).
    + rewrite filter_cons_True by exact E. cbn [length]. lia.
    + lia.
  - rewrite bump_lookup_ne in IH by exact N.
    destruct (_ <=? 2)%nat; [rewrite filter_cons_False by exact N|]; exact IH.
Qed.

Lemma bump_comm (seen : gmap string nat) l1 l2 :
  l1 <> l2 -> bump (bump seen l1) l2 = bump (bump seen l2) l1.
Proof.
  intros N. unfold bump. rewrite !lookup_insert_ne by congruence.
  apply insert_insert_ne. congruence.
Qed.

(** Having met one more candidate of label [l] costs at most one place,
    and none once two of that label were met. *)
Lemma capRoute_length_bump cs : forall (seen : gmap string nat) l,
  (length (capRoute seen cs) <=
   (if (default 0 (seen !! l) + 1 <=? 2)%nat then 1 else 0) + length (capRoute (bump seen l) cs))%nat.
Proof.
  induction cs as [|c cs IH]; intros seen l; [cbn; lia|].
  rewrite !capRoute_cons.
  destruct (decide (c_routeIdx c = l)) as [E|N].
  - rewrite E. rewrite bump_lookup_eq.
    specialize (IH (bump seen l) l). rewrite bump_lookup_eq in IH.
    case_leb; cbn [length] in *; lia.
  - rewrite (bump_lookup_ne seen l (c_routeIdx c)) by congruence.
    rewrite (bump_comm seen l (c_routeIdx c)) by congruence.
    specialize (IH (bump seen (c_routeIdx c)) l).
    rewrite (bump_lookup_ne seen (c_routeIdx c) l) in IH by congruence.
    case_leb; cbn [length] in *; lia.
Qed.

Lemma capRoute_length_sublist cs' cs :
  cs' `sublist_of` cs -> forall seen, (length (capRoute seen cs') <= length (capRoute seen cs))%nat.
Proof.
  induction 1 as [|c l1 l2 Hs IH|c l1 l2 Hs IH]; intros seen.
  - reflexivity.
  - rewrite !capRoute_cons. specialize (IH (bump seen (c_routeIdx c))).
    destruct (_ <=? 2)%nat; cbn [length]; lia.
  - rewrite capRoute_cons. specialize (IH seen).
    pose proof (capRoute_length_bump l2 seen (c_routeIdx c)) as B.
    destruct (_ <=? 2)%nat; cbn [length] in *; lia.
Qed.

Lemma capRoute_length_perm cs cs' :
  cs ≡ₚ cs' -> forall seen, length (capRoute seen cs) = length (capRoute seen cs').
Proof.
  induction 1 as [|c l1 l2 Hp IH|x y l|l1 l2 l3 H1 IH1 H2 IH2]; intros seen.
  - reflexivity.
  - rewrite !capRoute_cons. specialize (IH (bump seen (c_routeIdx c))).
    destruct (_ <=? 2)%nat; cbn [length]; lia.
  - rewrite !capRoute_cons.
    destruct (decide (c_routeIdx x = c_routeIdx y)) as [E|N].
    + rewrite E. rewrite !bump_lookup_eq.
      case_leb; cbn [length]; lia.
    + rewrite (bump_lookup_ne seen (c_routeIdx y) (c_routeIdx x)) by congruence.
      rewrite (bump_lookup_ne seen (c_routeIdx x) (c_routeIdx y)) by congruence.
      rewrite (bump_comm seen (c_routeIdx x) (c_routeIdx y)) by congruence.
      case_leb; cbn [length]; lia.
  - rewrite IH1. apply IH2.
Qed.

(** The strict cap is the per-route cap cut at [MAX_SUGGESTIONS]. *)
Lemma capStrict_eq cs : forall seen capped,
  (length capped < MAX_SUGGESTIONS)%nat ->
  capStrict cs seen capped = take MAX_SUGGESTIONS (capped ++ capRoute seen cs).
Proof.
  induction cs as [|c cs IH]; intros seen capped L.
  - cbn [capStrict capRoute]. rewrite app_nil_r. symmetry. apply take_ge. lia.
  - cbn [capStrict]. rewrite capRoute_cons.
    destruct (Nat.leb_spec (default 0 (seen !! c_routeIdx c) + 1) 2).
    + destruct (Nat.leb_spec MAX_SUGGESTIONS (length (capped ++ [c]))) as [G|G].
      * rewrite length_app in G. cbn [length] in G.
        rewrite (cons_middle c capped (capRoute _ cs)), app_assoc.
        rewrite (take_app_length' (capped ++ [c])); [reflexivity|]. rewrite length_app. cbn [length].
        unfold MAX_SUGGESTIONS in *. lia.
      * rewrite IH by exact G. rewrite <- app_assoc. reflexivity.
    + destruct (Nat.leb_spec MAX_SUGGESTIONS (length capped)); [lia|].
      apply IH. exact L.
Qed.

Lemma capStrict_start cs : capStrict cs ∅ [] = take MAX_SUGGESTIONS (capRoute ∅ cs).
Proof. rewrite capStrict_eq by (cbn; unfold MAX_SUGGESTIONS; lia). reflexivity. Qed.

(** ** Merging without duplicates *)

Lemma mergeNew_eq limit cs : forall results have,
  (length results < limit)%nat ->
  mergeNew limit cs results have =
  results ++ take (limit - length results) (freshByKey have cs).
Proof.
  induction cs as [|c cs IH]; intros results have L; cbn [mergeNew freshByKey].
  - rewrite take_nil, app_nil_r. reflexivity.
  - destruct (decide (coordKey 6 (c_drop c) ∈ have)); [apply IH; exact L|].
    destruct (Nat.leb_spec limit (length (results ++ [c]))) as [G|G];
      rewrite length_app in G; cbn [length] in G.
    + replace (limit - length results)%nat with 1%nat by lia.
      cbn [take]. rewrite take_0. reflexivity.
    + rewrite IH by (rewrite length_app; cbn [length]; lia).
      rewrite length_app. cbn [length].
      replace (limit - length results)%nat with (S (limit - (length results + 1)))%nat by lia.
      cbn [take]. rewrite <- app_assoc. reflexivity.
Qed.

Lemma freshByKey_sublist cs : forall have, freshByKey have cs `sublist_of` cs.
Proof.
  induction cs as [|c cs IH]; intros have; cbn [freshByKey]; [constructor|].
  destruct (decide _); [apply sublist_cons|apply sublist_skip]; apply IH.
Qed.

Lemma freshByKey_new cs : forall have c,
  c ∈ freshByKey have cs -> coordKey 6 (c_drop c) ∉ have.
Proof.
  induction cs as [|x cs IH]; intros have c Hc; cbn [freshByKey] in Hc.
  - apply elem_of_nil in Hc. contradiction.
  - destruct (decide (coordKey 6 (c_drop x) ∈ have)) as [Hin|Hout]; [eapply IH; exact Hc|].
    apply elem_of_cons in Hc as [->|Hc]; [exact Hout|].
    apply IH in Hc. intros Hk. apply Hc. apply elem_of_union_r. exact Hk.
Qed.

Lemma freshByKey_NoDup cs : forall have,
  NoDup (map (fun c => coordKey 6 (c_drop c)) (freshByKey have cs)).
Proof.
  induction cs as [|x cs IH]; intros have; cbn [freshByKey]; [constructor|].
  destruct (decide (coordKey 6 (c_drop x) ∈ have)) as [Hin|Hout]; [apply IH|].
  cbn [map]. apply NoDup_cons. split; [|apply IH].
  intros Hk. apply list_elem_of_fmap in Hk as [c [E Hc]].
  apply freshByKey_new in Hc. apply Hc. rewrite <- E.
  apply elem_of_union_l, elem_of_singleton. reflexivity.
Qed.

Lemma freshByKey_covers cs : forall have c,
  c ∈ cs -> coordKey 6 (c_drop c) ∉ have ->
  coordKey 6 (c_drop c) ∈ map (fun c => coordKey 6 (c_drop c)) (freshByKey have cs).
Proof.
  induction cs as [|x cs IH]; intros have c Hc Hk.
  - apply elem_of_nil in Hc. contradiction.
  - cbn [freshByKey].
    destruct (decide (coordKey 6 (c_drop x) ∈ have)) as [Hin|Hout].
    + apply elem_of_cons in Hc as [->|Hc]; [contradiction|]. apply IH; assumption.
    + cbn [map]. destruct (decide (coordKey 6 (c_drop c) = coordKey 6 (c_drop x))) as [E|N].
      * rewrite E. apply elem_of_cons. left. reflexivity.
      * apply elem_of_cons. right.
        apply elem_of_cons in Hc as [->|Hc]; [congruence|].
        apply IH; [exact Hc|].
        intros Hu. apply elem_of_union in Hu as [Hu|Hu]; [|contradiction].
        apply elem_of_singleton in Hu. contradiction.
Qed.

(** Candidates of [cs] with pairwise distinct keys outside [have] are no
    more numerous than the fresh ones. *)
Lemma freshByKey_length_ge cs have picks :
  NoDup (map (fun c => coordKey 6 (c_drop c)) picks) ->
  (forall c, c ∈ picks -> c ∈ cs /\ coordKey 6 (c_drop c) ∉ have) ->
  (length picks <= length (freshByKey have cs))%nat.
Proof.
  intros Hnd Hp.
  rewrite <- (length_map (fun c => coordKey 6 (c_drop c)) picks).
  rewrite <- (length_map (fun c => coordKey 6 (c_drop c)) (freshByKey have cs)).
  apply submseteq_length. apply NoDup_submseteq; [exact Hnd|].
  intros k Hk. apply list_elem_of_fmap in Hk as [c [-> Hc]].
  destruct (Hp c Hc) as [Hin Hout]. apply freshByKey_covers; assumption.
Qed.

Lemma keysOf_spec results k :
  k ∈ keysOf results <-> exists c, c ∈ results /\ k = coordKey 6 (c_drop c).
Proof.
  unfold keysOf. rewrite elem_of_list_to_set, list_elem_of_fmap.
  split; intros [c [E Hc]]; exists c; auto.
Qed.

Local Open Scope Q_scope.

(** ** Tightening the strict factors *)

Section Lockstep.
Context `{Host}.

Lemma forEach_alike {A S} (R : S -> S -> Prop) (b1 b2 : A -> S -> M S) (l : list A) :
  (forall a s1 s2 w, a ∈ l -> R s1 s2 -> alike R (b1 a s1 w) (b2 a s2 w)) ->
  forall s1 s2 w, R s1 s2 -> alike R (forEach b1 l s1 w) (forEach b2 l s2 w).
Proof.
  induction l as [|a l IH]; intros Hb s1 s2 w HR; cbn [forEach].
  - cbn. split; [exact HR|reflexivity].
  - unfold bind.
    pose proof (Hb a s1 s2 w ltac:(apply elem_of_cons; left; reflexivity) HR) as Ha.
    unfold alike in Ha.
    destruct (b1 a s1 w) as [[t1 w1]|], (b2 a s2 w) as [[t2 w2]|]; try contradiction.
    + destruct Ha as [HR' <-]. apply IH; [|exact HR'].
      intros a0 u1 u2 w0 Hin. apply Hb. apply elem_of_cons. right. exact Hin.
    + exact I.
Qed.

Ltac bool_to_Q :=
  repeat match goal with
         | H : Qleb _ _ = true |- _ => apply Qleb_le in H
         | H : Qleb _ _ = false |- _ => apply Qleb_gt in H
         | H : Qltb _ _ = true |- _ => apply Qltb_lt in H
         | H : Qltb _ _ = false |- _ => apply Qltb_ge in H
         end.

Lemma strictPoint_alike pu dr radiusM surge best df tf pct ab df' tf' pct' ab' r p all1 all2 w :
  df' <= df -> tf' <= tf -> pct <= pct' -> ab <= ab' ->
  0 <= r_distance r -> 0 <= r_duration r ->
  all1 `sublist_of` all2 ->
  alike sublist (strictPoint pu dr radiusM surge best df' tf' pct' ab' r p all1 w)
                (strictPoint pu dr radiusM surge best df tf pct ab r p all2 w).
Proof.
  intros Hdf Htf Hpct Hab Hd Ht Hs. unfold strictPoint, bind, ret.
  destruct (Qgtb _ radiusM || Qltb _ 12); [split; [exact Hs|reflexivity]|].
  destruct (mapboxWalk p dr w) as [[wk w1]|]; [|exact I].
  destruct (mapboxDrive pu p w1) as [[[drv|] w2]|]; [|split; [exact Hs|reflexivity]|exact I].
  destruct (Qleb (distance drv) (df' * r_distance r)) eqn:D1,
           (Qleb (distance drv) (df * r_distance r)) eqn:D2,
           (Qleb (duration drv) (tf' * r_duration r)) eqn:T1,
           (Qleb (duration drv) (tf * r_duration r)) eqn:T2;
    cbn [andb negb];
    try (split; [first [exact Hs | apply sublist_inserts_r; exact Hs]|reflexivity]);
    try (exfalso; bool_to_Q; nra).
  all: set (absImprove := best - center _);
    destruct (Qltb absImprove ab') eqn:A1, (Qltb absImprove ab) eqn:A2,
             (Qltb (absImprove / best) pct') eqn:P1, (Qltb (absImprove / best) pct) eqn:P2;
    try (split; [first [exact Hs | apply sublist_inserts_r; exact Hs
                       | apply sublist_app; [exact Hs|reflexivity]]|reflexivity]);
    try (exfalso; bool_to_Q; lra).
Qed.

Lemma scanTails_alike (R : list Candidate -> list Candidate -> Prop) point1 point2 visible :
  R [] [] ->
  (forall r p s1 s2 w, r ∈ visible -> R s1 s2 -> alike R (point1 r p s1 w) (point2 r p s2 w)) ->
  forall w, alike R (scanTails point1 visible w) (scanTails point2 visible w).
Proof.
  intros R0 Hp w. unfold scanTails.
  apply (forEach_alike R); [|exact R0].
  intros r s1 s2 w0 Hr HR. unfold bind.
  destruct (sampleTail (r_coords r) SAMPLE_COUNT TAIL_FRACTION) as [pts|]; cbn; [|exact I].
  apply (forEach_alike R); [|exact HR].
  intros p u1 u2 w1 _. apply Hp. exact Hr.
Qed.

Lemma strict_scan_alike pu dr radiusM surge best df tf pct ab df' tf' pct' ab' visible w :
  df' <= df -> tf' <= tf -> pct <= pct' -> ab <= ab' ->
  Forall (fun r => 0 <= r_distance r /\ 0 <= r_duration r) visible ->
  alike sublist
    (scanTails (strictPoint pu dr radiusM surge best df' tf' pct' ab') visible w)
    (scanTails (strictPoint pu dr radiusM surge best df tf pct ab) visible w).
Proof.
  intros Hdf Htf Hpct Hab Hv. apply scanTails_alike; [constructor|].
  intros r p s1 s2 w0 Hr Hs. rewrite Forall_forall in Hv. destruct (Hv r Hr) as [Hd Ht].
  apply strictPoint_alike; assumption.
Qed.

End Lockstep.

(** ** The tiers *)

Section TierFacts.
Context `{Host}.

Lemma sublist_filter_length {A} (P : A -> Prop) `{!forall x, Decision (P x)} (l1 l2 : list A) :
  l1 `sublist_of` l2 -> (length (filter P l1) <= length (filter P l2))%nat.
Proof.
  induction 1 as [|x l1 l2 Hs IH|x l1 l2 Hs IH].
  - reflexivity.
  - rewrite !filter_cons. destruct (decide (P x)); cbn [length]; lia.
  - rewrite filter_cons. destruct (decide (P x)); cbn [length]; lia.
Qed.

Lemma Forall_sublist {A} (P : A -> Prop) (l1 l2 : list A) :
  l1 `sublist_of` l2 -> Forall P l2 -> Forall P l1.
Proof.
  intros Hs F. apply Forall_forall. intros x Hx. rewrite Forall_forall in F.
  apply F. eapply elem_of_sublist; eassumption.
Qed.

(** What the strict tier returns: a part of the sorted strict candidates,
    at most two per route label and [MAX_SUGGESTIONS] in all. *)
Lemma strictTier_spec df tf pct ab pu dr radiusM surge best visible w capped w' :
  strictTier df tf pct ab pu dr radiusM surge best visible w = Some (capped, w') ->
  exists strictAll,
    scanTails (strictPoint pu dr radiusM surge best df tf pct ab) visible w = Some (strictAll, w') /\
    capped = take MAX_SUGGESTIONS (capRoute ∅ (Array_sort (strictCmp surge best) strictAll)) /\
    Forall (sampledWith (recorded dr radiusM strict) visible) capped /\
    (length capped <= MAX_SUGGESTIONS)%nat /\
    (forall l, countLabel l capped <= 2)%nat.
Proof.
  unfold strictTier. intros E. apply bind_Some in E as [strictAll [w1 [E1 E2]]].
  apply ret_Some in E2 as [<- <-]. exists strictAll.
  rewrite capStrict_start.
  pose proof (scanTails_Forall _ _ _ _ _ _ (strictPoint_appends pu dr radiusM surge best df tf pct ab) E1) as F.
  split; [exact E1|]. split; [reflexivity|].
  assert (take MAX_SUGGESTIONS (capRoute ∅ (Array_sort (strictCmp surge best) strictAll))
          `sublist_of` Array_sort (strictCmp surge best) strictAll) as Hs.
  { etransitivity; [apply sublist_take|apply capRoute_sublist]. }
  split; [|split].
  - eapply Forall_sublist; [exact Hs|]. apply Array_sort_Forall. exact F.
  - rewrite length_take. lia.
  - intros l. unfold countLabel.
    etransitivity; [apply sublist_filter_length, sublist_take|].
    pose proof (capRoute_count l (Array_sort (strictCmp surge best) strictAll) ∅) as C.
    unfold countLabel in C. lia.
Qed.

(** What a merging tier returns: the results so far, followed by the
    first fresh candidates of its sorted scan, up to [limit] in all. *)
Lemma relaxedTier_spec pu dr radiusM surge visible results w out w' :
  (length results < MIN_SUGGESTIONS)%nat ->
  relaxedTier pu dr radiusM surge visible results w = Some (out, w') ->
  exists relaxedAll,
    scanTails (relaxedPoint pu dr radiusM surge) visible w = Some (relaxedAll, w') /\
    Forall (sampledWith (recorded dr radiusM fallback) visible) relaxedAll /\
    out = results ++ take (MAX_SUGGESTIONS - length results)
                       (freshByKey (keysOf results) (Array_sort (relaxedCmp surge) relaxedAll)).
Proof.
  intros L. unfold relaxedTier. intros E. apply bind_Some in E as [relaxedAll [w1 [E1 E2]]].
  apply ret_Some in E2 as [<- <-]. exists relaxedAll.
  split; [exact E1|]. split.
  - eapply scanTails_Forall; [apply relaxedPoint_appends|exact E1].
  - apply mergeNew_eq. unfold MIN_SUGGESTIONS, MAX_SUGGESTIONS in *. cbn. lia.
Qed.

Lemma closestTier_spec pu dr radiusM surge visible results w out w' :
  (length results < MIN_SUGGESTIONS)%nat ->
  closestTier pu dr radiusM surge visible results w = Some (out, w') ->
  exists closestAll,
    scanTails (closestPoint pu dr radiusM surge) visible w = Some (closestAll, w') /\
    Forall (sampledWith (recorded dr radiusM fallback) visible) closestAll /\
    out = results ++ take (MIN_SUGGESTIONS - length results)
                       (freshByKey (keysOf results) (Array_sort (closestCmp dr surge) closestAll)).
Proof.
  intros L. unfold closestTier. intros E. apply bind_Some in E as [closestAll [w1 [E1 E2]]].
  apply ret_Some in E2 as [<- <-]. exists closestAll.
  split; [exact E1|]. split.
  - eapply scanTails_Forall; [apply closestPoint_appends|exact E1].
  - apply mergeNew_eq. exact L.
Qed.

Lemma fresh_take_Forall (P : Candidate -> Prop) cmp n have cs :
  Forall P cs -> Forall P (take n (freshByKey have (Array_sort cmp cs))).
Proof.
  intros F. eapply Forall_sublist; [|apply (Array_sort_Forall P cmp cs F)].
  etransitivity; [apply sublist_take|apply freshByKey_sublist].
Qed.

(** The stages of [discover], when it returns. *)
Lemma discover_stages pickup drop sr sa regs alts radiusM surge w results w' :
  discover pickup drop sr sa regs alts radiusM surge w = Some (results, w') ->
  results = [] \/
  exists pu dr bestReg capped w1 r2 w2 r3,
    pickup = Some pu /\ drop = Some dr /\
    strictTier DIST_FACTOR TIME_FACTOR PCT_IMPROVE ABS_IMPROVE_MIN pu dr radiusM surge
      (bestPriceOf surge bestReg)
      ((if sr then regs else []) ++ (if sa then alts else [])) w = Some (capped, w1) /\
    (if (length capped <? MIN_SUGGESTIONS)%nat
     then relaxedTier pu dr radiusM surge
            ((if sr then regs else []) ++ (if sa then alts else [])) capped w1
     else ret capped w1) = Some (r2, w2) /\
    (if (length r2 <? MIN_SUGGESTIONS)%nat
     then closestTier pu dr radiusM surge
            ((if sr then regs else []) ++ (if sa then alts else [])) r2 w2
     else ret r2 w2) = Some (r3, w') /\
    results = take MAX_SUGGESTIONS r3.
Proof.
  unfold discover. intros E.
  destruct pickup as [pu|]; [|apply ret_Some in E as [<- _]; left; reflexivity].
  destruct drop as [dr|]; [|apply ret_Some in E as [<- _]; left; reflexivity].
  destruct (head _) as [bestReg|]; [|apply ret_Some in E as [<- _]; left; reflexivity].
  apply bind_Some in E as [capped [w1 [E1 E]]].
  apply bind_Some in E as [r2 [w2 [E2 E]]].
  apply bind_Some in E as [r3 [w3 [E3 E]]].
  apply ret_Some in E as [<- <-].
  right. exists pu, dr, bestReg, capped, w1, r2, w2, r3.
  rewrite Array_slice_prefix.
  repeat split; try reflexivity; try assumption.
  - destruct (length capped <? MIN_SUGGESTIONS)%nat; exact E2.
  - destruct (length r2 <? MIN_SUGGESTIONS)%nat; exact E3.
Qed.

(** Every stage keeps to candidates that were sampled within the band;
    those past the strict ones are marked [fallback]. *)
Lemma discover_shape pickup drop sr sa regs alts radiusM surge w results w' :
  discover pickup drop sr sa regs alts radiusM surge w = Some (results, w') ->
  results = [] \/
  exists dr capped added,
    drop = Some dr /\
    results = take MAX_SUGGESTIONS (capped ++ added) /\
    Forall (fun c => inBand dr radiusM (c_drop c) /\ c_reason c = strict) capped /\
    Forall (fun c => inBand dr radiusM (c_drop c) /\ c_reason c = fallback) added /\
    (forall l, countLabel l capped <= 2)%nat.
Proof.
  intros E. apply discover_stages in E as [->|E]; [left; reflexivity|right].
  destruct E as (pu & dr & bestReg & capped & w1 & r2 & w2 & r3 & -> & -> & E1 & E2 & E3 & ->).
  apply strictTier_spec in E1 as (strictAll & _ & _ & F1 & _ & C1).
  assert (Forall (fun c => inBand dr radiusM (c_drop c) /\ c_reason c = strict) capped) as F1'.
  { eapply Forall_impl; [exact F1|]. intros c. apply sampledWith_recorded. }
  assert (exists a2, r2 = capped ++ a2 /\
            Forall (fun c => inBand dr radiusM (c_drop c) /\ c_reason c = fallback) a2) as [a2 [-> F2]].
  { destruct (Nat.ltb_spec (length capped) MIN_SUGGESTIONS) as [L|L].
    - apply relaxedTier_spec in E2 as (relaxedAll & _ & F & ->); [|exact L].
      eexists. split; [reflexivity|]. apply fresh_take_Forall.
      eapply Forall_impl; [exact F|]. intros c. apply sampledWith_recorded.
    - apply ret_Some in E2 as [<- _]. exists []. rewrite app_nil_r. split; [reflexivity|constructor]. }
  assert (exists a3, r3 = (capped ++ a2) ++ a3 /\
            Forall (fun c => inBand dr radiusM (c_drop c) /\ c_reason c = fallback) a3) as [a3 [-> F3]].
  { destruct (Nat.ltb_spec (length (capped ++ a2)) MIN_SUGGESTIONS) as [L|L].
    - apply closestTier_spec in E3 as (closestAll & _ & F & ->); [|exact L].
      eexists. split; [reflexivity|]. apply fresh_take_Forall.
      eapply Forall_impl; [exact F|]. intros c. apply sampledWith_recorded.
    - apply ret_Some in E3 as [<- _]. exists []. rewrite app_nil_r. split; [reflexivity|constructor]. }
  exists dr, capped, (a2 ++ a3). rewrite app_assoc.
  repeat split; try assumption; try reflexivity.
  apply Forall_app. split; assumption.
Qed.

End TierFacts.

(** ** The discovery pipeline *)

Section Pipeline.
Context `{Host}.

(** C3 (amended).  Every candidate of the returned list lies within the
    closed band: its radial distance to the destination is at least the
    separation floor of 12 m and at most the walk radius.  (A point at
    exactly 12 m is kept.) *)
Theorem returned_candidates_in_band pickup drop sr sa regs alts radiusM surge w results w' :
  discover pickup drop sr sa regs alts radiusM surge w = Some (results, w') ->
  forall c, c ∈ results ->
    exists dest, drop = Some dest /\
      12 <= haversineMeters (c_drop c) dest /\ haversineMeters (c_drop c) dest <= radiusM.
Proof.
  intros E c Hc. apply discover_shape in E as [->|E].
  - apply elem_of_nil in Hc. contradiction.
  - destruct E as (dr & capped & added & -> & -> & F1 & F2 & _).
    exists dr. split; [reflexivity|].
    assert (c ∈ capped ++ added) as Hin.
    { eapply elem_of_sublist; [exact Hc|apply sublist_take]. }
    apply elem_of_app in Hin as [Hin|Hin].
    + rewrite Forall_forall in F1. destruct (F1 c Hin) as [B _]. exact B.
    + rewrite Forall_forall in F2. destruct (F2 c Hin) as [B _]. exact B.
Qed.

Lemma filter_and_length {A} (P Q : A -> Prop)
    `{!forall x, Decision (P x)} `{!forall x, Decision (Q x)} (l : list A) :
  (length (filter (fun x => Q x /\ P x) l) <= length (filter P l))%nat.
Proof.
  induction l as [|x l IH]; [reflexivity|].
  rewrite !filter_cons.
  destruct (decide (Q x /\ P x)) as [[_ HP]|N], (decide (P x)); cbn [length]; try lia.
  contradiction.
Qed.

Lemma filter_none {A} (P : A -> Prop) `{!forall x, Decision (P x)} (l : list A) :
  Forall (fun x => ~ P x) l -> filter P l = [].
Proof.
  induction 1 as [|x l Hx F IH]; [reflexivity|].
  rewrite filter_cons. destruct (decide (P x)); [contradiction|exact IH].
Qed.

(** C7 (amended).  The returned list has at most [MAX_SUGGESTIONS] (4)
    entries.  It is a prefix of the strict tier's output followed by the
    fallback candidates of the later tiers; the strict output holds at
    most two candidates per route label, so the returned list holds at
    most two strict candidates per label.  (The later tiers are not capped
    per route.) *)
Theorem strict_capped_per_route_total_capped
    pickup drop sr sa regs alts radiusM surge w results w' :
  discover pickup drop sr sa regs alts radiusM surge w = Some (results, w') ->
  (length results <= MAX_SUGGESTIONS)%nat /\
  (forall l, length (strictOfLabel l results) <= 2)%nat /\
  exists capped added,
    results = take MAX_SUGGESTIONS (capped ++ added) /\
    Forall (fun c => c_reason c = strict) capped /\
    Forall (fun c => c_reason c = fallback) added /\
    (forall l, countLabel l capped <= 2)%nat.
Proof.
  intros E. apply discover_shape in E as [->|E].
  - split; [cbn; lia|]. split; [intros lbl; cbn; lia|].
    exists [], []. split; [reflexivity|]. split; [constructor|]. split; [constructor|].
    intros lbl. cbn. lia.
  - destruct E as (dr & capped & added & _ & -> & F1 & F2 & C).
    split; [rewrite length_take; lia|]. split.
    + intros l. unfold strictOfLabel.
      etransitivity; [apply sublist_filter_length, sublist_take|].
      rewrite filter_app, length_app.
      rewrite (filter_none _ added).
      * pose proof (filter_and_length (fun c => c_routeIdx c = l)
                      (fun c => c_reason c = strict) capped) as L.
        specialize (C l). unfold countLabel in C. cbn [length]. lia.
      * eapply Forall_impl; [exact F2|]. intros c [_ R] [R' _]. congruence.
    + exists capped, added. split; [reflexivity|].
      split; [eapply Forall_impl; [exact F1|]; intros c [_ R]; exact R|].
      split; [eapply Forall_impl; [exact F2|]; intros c [_ R]; exact R|exact C].
Qed.

(** C8.  For fixed routes, sampled points, provider responses and surge
    proxy, tightening the strict factors (a lower distance factor, a lower
    time factor, a higher percentage threshold, a higher absolute floor)
    never increases the number of strict candidates, before the cap and
    after it; the provider calls made, and so the world left behind, are
    the same. *)
Theorem strict_tier_monotone
    df tf pct ab df' tf' pct' ab' pu dr radiusM surge best visible w :
  df' <= df -> tf' <= tf -> pct <= pct' -> ab <= ab' ->
  Forall (fun r => 0 <= r_distance r /\ 0 <= r_duration r) visible ->
  alike (fun tight loose => (length tight <= length loose)%nat)
    (scanTails (strictPoint pu dr radiusM surge best df' tf' pct' ab') visible w)
    (scanTails (strictPoint pu dr radiusM surge best df tf pct ab) visible w) /\
  alike (fun tight loose => (length tight <= length loose)%nat)
    (strictTier df' tf' pct' ab' pu dr radiusM surge best visible w)
    (strictTier df tf pct ab pu dr radiusM surge best visible w).
Proof.
  intros Hdf Htf Hpct Hab Hv.
  pose proof (strict_scan_alike pu dr radiusM surge best df tf pct ab df' tf' pct' ab'
                visible w Hdf Htf Hpct Hab Hv) as A.
  unfold strictTier, bind, ret. unfold alike in *.
  destruct (scanTails (strictPoint pu dr radiusM surge best df' tf' pct' ab') visible w)
    as [[l' w1]|],
    (scanTails (strictPoint pu dr radiusM surge best df tf pct ab) visible w)
    as [[l w2]|]; try contradiction; [|split; exact I].
  destruct A as [Hs ->]. split; (split; [|reflexivity]).
  - apply sublist_length. exact Hs.
  - rewrite !capStrict_start, !length_take.
    rewrite (capRoute_length_perm _ _ (Array_sort_perm (strictCmp surge best) l') ∅).
    rewrite (capRoute_length_perm _ _ (Array_sort_perm (strictCmp surge best) l) ∅).
    pose proof (capRoute_length_sublist l' l Hs ∅). lia.
Qed.

End Pipeline.

(** ** The two-pass pipeline *)

Section TwoPass.
Context `{Host}.

Lemma capPerRoute_Forall (P : PageV2.Candidate -> Prop) all :
  forall perRoute capped,
    Forall P all -> Forall P capped -> Forall P (PageV2.capPerRoute all perRoute capped).
Proof.
  induction all as [|c all IH]; intros perRoute capped Fa Fc; cbn [PageV2.capPerRoute].
  - exact Fc.
  - apply Forall_cons in Fa as [Hc Fa]. apply IH; [exact Fa|].
    destruct (_ <=? 2)%nat; [|exact Fc].
    apply Forall_app. split; [exact Fc|]. apply Forall_singleton. exact Hc.
Qed.

End TwoPass.

(** ** Worked cases on the test host *)

Lemma inBandb_inBand `{Host} drop radiusM p :
  inBandb drop radiusM p = true -> inBand drop radiusM p.
Proof.
  unfold inBandb, inBand. intros E. apply andb_true_iff in E as [E1 E2].
  apply Qleb_le in E1. apply Qleb_le in E2. split; assumption.
Qed.

Lemma insertEff_perm {W A} (cmp : A -> A -> W -> option (Q * W)) (x : A) (l : list A) :
  forall w l' w', insertEff cmp x l w = Some (l', w') -> Permutation (x :: l) l'.
Proof.
  induction l as [|y l IH]; intros w l' w' E; cbn [insertEff] in E.
  - injection E as <- _. reflexivity.
  - destruct (cmp x y w) as [[c w1]|]; [|discriminate].
    destruct (Qle_bool c 0).
    + injection E as <- _. reflexivity.
    + destruct (insertEff cmp x l w1) as [[r w2]|] eqn:E1; [|discriminate].
      injection E as <- _. apply IH in E1. rewrite <- E1. apply perm_swap.
Qed.

Lemma sortEff_perm {W A} (cmp : A -> A -> W -> option (Q * W)) (l : list A) :
  forall w l' w', sortEff cmp l w = Some (l', w') -> Permutation l l'.
Proof.
  induction l as [|x l IH]; intros w l' w' E; cbn [sortEff] in E.
  - injection E as <- _. reflexivity.
  - destruct (sortEff cmp l w) as [[r w1]|] eqn:E1; [|discriminate].
    apply IH in E1. apply insertEff_perm in E. rewrite E1. exact E.
Qed.



(** C5 (counterexample).  A trip of no length at surge 1 without penalty
    is a valid input; its center is the minimum fare 5 and its low is 4.5,
    below the minimum fare. *)
Lemma low_below_minimum_fare :
  0 <= 0 /\ 1 <= 1 /\
  center (modeledPriceUSD 0 0 1 0) == 5 /\
  low (modeledPriceUSD 0 0 1 0) == 4.5 /\
  ~ 5 <= low (modeledPriceUSD 0 0 1 0).
Proof.
  split; [lra|]. split; [lra|]. split; [vm_compute; reflexivity|].
  split; [vm_compute; reflexivity|]. vm_compute. intros L. apply L. reflexivity.
Qed.

(** C5 at a concrete input: the empty trip, and a range estimated in the
    Tuesday morning peak. *)
Lemma fare_quote_bounds_witness :
  let H := testHost walkOk drvGood in
  let now := {| Estimator.getHours := 8; Estimator.getDay := 2 |} in
  exists pr,
    Estimator.estimatePriceRange pickupPt destPt now noon = Some (pr, after 1) /\
    (low (modeledPriceUSD 0 0 1 0) <= center (modeledPriceUSD 0 0 1 0) /\
     center (modeledPriceUSD 0 0 1 0) <= high (modeledPriceUSD 0 0 1 0) /\
     4.5 <= low (modeledPriceUSD 0 0 1 0) /\
     5 <= center (modeledPriceUSD 0 0 1 0)) /\
    (Estimator.low pr <= Estimator.center pr /\
     Estimator.center pr <= Estimator.high pr /\
     Estimator.minFare Estimator.AUSTIN_RATECARD <= Estimator.low pr).
Proof.
  intros H now. eexists. split; [vm_compute; reflexivity|].
  apply (fare_quote_bounds (H:=H) 0 0 1 0 pickupPt destPt now noon _ (after 1)).
  vm_compute. reflexivity.
Defined.

(** C3 (counterexample).  A sampled point exactly 12 m from the
    destination is accepted by the strict pass and returned: its distance
    is not strictly greater than the separation floor. *)
Lemma candidate_at_separation_floor :
  let H := testHost walkOk drvGood in
  discover (Some pickupPt) (Some destPt) true true [tailA 0.00012] [] 400 1 noon
  = Some ([pushed (south 0.00012) 3 6500 700 "Regular A" strict], after 6) /\
  haversineMeters (south 0.00012) destPt == 12 /\
  ~ 12 < haversineMeters (south 0.00012) destPt.
Proof.
  intros H. split; [vm_compute; reflexivity|].
  assert (haversineMeters (south 0.00012) destPt == 12) as E by (vm_compute; reflexivity).
  split; [exact E|]. rewrite E. lra.
Qed.

(** C3 at a concrete input: the request of the counterexample. *)
Lemma returned_candidates_in_band_witness :
  let H := testHost walkOk drvGood in
  discover (Some pickupPt) (Some destPt) true true [tailA 0.00012] [] 400 1 noon
  = Some ([pushed (south 0.00012) 3 6500 700 "Regular A" strict], after 6) /\
  forall c, c ∈ [pushed (south 0.00012) 3 6500 700 "Regular A" strict] ->
    exists dest, Some destPt = Some dest /\
      12 <= haversineMeters (c_drop c) dest /\ haversineMeters (c_drop c) dest <= 400.
Proof.
  intros H.
  assert (discover (Some pickupPt) (Some destPt) true true [tailA 0.00012] [] 400 1 noon
          = Some ([pushed (south 0.00012) 3 6500 700 "Regular A" strict], after 6)) as E
    by (vm_compute; reflexivity).
  split; [exact E|].
  exact (returned_candidates_in_band (H:=H) _ _ _ _ _ _ _ _ _ _ _ E).
Defined.


(** The two-pass pipeline on the long walk of the counterexample: the
    point is rejected in both passes. *)
Remark two_pass_rejects_long_walk :
  let H := testHost walkSlow drvGood in
  PageV2.discover (Some pickupPt) (Some destPt) true true [tailA 0.0015] [] 400 noon
  = Some ([], after 2).
Proof. vm_compute. reflexivity. Qed.

(** C6 (the failing case).  Two visible routes share their tail point,
    and the point passes the strict tests on both: the strict tier records
    it once per route, nothing removes the second copy, and the returned
    list holds two candidates with the same 6-decimal key. *)
Theorem strict_duplicates_survive :
  let H := testHost walkOk drvGood in
  discover (Some pickupPt) (Some destPt) true true [tailA 0.0015; tailB 0.0015] [] 400 1 noon
  = Some ([pushed (south 0.0015) 3 6500 700 "Regular A" strict;
           pushed (south 0.0015) 3 6500 700 "Regular B" strict], after 4) /\
  ~ NoDup (map (fun c => coordKey 6 (c_drop c))
             [pushed (south 0.0015) 3 6500 700 "Regular A" strict;
              pushed (south 0.0015) 3 6500 700 "Regular B" strict]).
Proof.
  intros H. split; [vm_compute; reflexivity|].
  cbn [map pushed c_drop]. intros Hn. apply NoDup_cons in Hn as [Hn _].
  apply Hn. apply elem_of_cons. left. reflexivity.
Qed.

(** C7 (counterexample).  One visible route whose three sampled points
    pass the relaxed tests but not the strict ones: the relaxed tier adds
    all three, so the list returned holds three candidates of one route
    label. *)
Lemma relaxed_tier_not_capped_per_route :
  let H := testHost walkOk drvSoSo in
  discover (Some pickupPt) (Some destPt) true true [route14] [] 400 1 noon
  = Some ([pushed (mkLatLng 30.2826 (-97.7394)) 3 7600 850 "Regular A" fallback;
           pushed (mkLatLng 30.2836 (-97.7394)) 3 7600 850 "Regular A" fallback;
           pushed (mkLatLng 30.2846 (-97.7394)) 3 7600 850 "Regular A" fallback], after 12) /\
  countLabel "Regular A"
    [pushed (mkLatLng 30.2826 (-97.7394)) 3 7600 850 "Regular A" fallback;
     pushed (mkLatLng 30.2836 (-97.7394)) 3 7600 850 "Regular A" fallback;
     pushed (mkLatLng 30.2846 (-97.7394)) 3 7600 850 "Regular A" fallback] = 3%nat.
Proof.
  intros H. split; [vm_compute; reflexivity|]. vm_compute. reflexivity.
Qed.

(** C1 (counterexample).  Three sampled tail points lie within the band,
    the strict tier accepts nothing, the relaxed and the closest tier run,
    and still nothing is returned: the driving provider has no route to
    any of the points, and the closest tier skips such points. *)
Lemma closest_tier_needs_driving_routes :
  let H := testHost walkOk drvFail in
  sampleTail (r_coords route14) SAMPLE_COUNT TAIL_FRACTION
  = Some [mkLatLng 30.2826 (-97.7394); mkLatLng 30.2836 (-97.7394); mkLatLng 30.2846 (-97.7394)] /\
  Forall (inBand destPt 400)
    [mkLatLng 30.2826 (-97.7394); mkLatLng 30.2836 (-97.7394); mkLatLng 30.2846 (-97.7394)] /\
  (MIN_SUGGESTIONS <=
   length [mkLatLng 30.2826 (-97.7394); mkLatLng 30.2836 (-97.7394); mkLatLng 30.2846 (-97.7394)])%nat /\
  strictTier DIST_FACTOR TIME_FACTOR PCT_IMPROVE ABS_IMPROVE_MIN pickupPt destPt 400 1
    (bestPriceOf 1 route14) [route14] noon = Some ([], after 6) /\
  discover (Some pickupPt) (Some destPt) true true [route14] [] 400 1 noon
  = Some ([], after 18).
Proof.
  intros H. split; [vm_compute; reflexivity|]. split.
  - repeat (apply List.Forall_cons; [apply inBandb_inBand; vm_compute; reflexivity|]).
    apply List.Forall_nil.
  - split; [cbn; unfold MIN_SUGGESTIONS; lia|].
    split; vm_compute; reflexivity.
Qed.

(** C7 at a concrete input: two strict candidates, one per route. *)
Lemma strict_capped_per_route_total_capped_witness :
  let H := testHost walkOk drvGood in
  let results := [pushed (south 0.0015) 3 6500 700 "Regular A" strict;
                  pushed (south 0.0015) 3 6500 700 "Regular B" strict] in
  discover (Some pickupPt) (Some destPt) true true [tailA 0.0015; tailB 0.0015] [] 400 1 noon
  = Some (results, after 4) /\
  (length results <= MAX_SUGGESTIONS)%nat /\
  (forall l, length (strictOfLabel l results) <= 2)%nat /\
  exists capped added,
    results = take MAX_SUGGESTIONS (capped ++ added) /\
    Forall (fun c => c_reason c = strict) capped /\
    Forall (fun c => c_reason c = fallback) added /\
    (forall l, countLabel l capped <= 2)%nat.
Proof.
  intros H results.
  assert (discover (Some pickupPt) (Some destPt) true true [tailA 0.0015; tailB 0.0015] []
            400 1 noon = Some (results, after 4)) as E by (vm_compute; reflexivity).
  split; [exact E|].
  exact (strict_capped_per_route_total_capped (H:=H) _ _ _ _ _ _ _ _ _ _ _ E).
Defined.

(** C8 at a concrete input: the factors of the source against tighter
    ones. *)
Lemma strict_tier_monotone_witness :
  let H := testHost walkOk drvGood in
  let visible := [tailA 0.0015; tailB 0.0015] in
  let best := bestPriceOf 1 (tailA 0.0015) in
  (0.80 <= DIST_FACTOR /\ 0.80 <= TIME_FACTOR /\ PCT_IMPROVE <= 0.20 /\ ABS_IMPROVE_MIN <= 3) /\
  Forall (fun r => 0 <= r_distance r /\ 0 <= r_duration r) visible /\
  alike (fun tight loose => (length tight <= length loose)%nat)
    (scanTails (strictPoint pickupPt destPt 400 1 best 0.80 0.80 0.20 3) visible noon)
    (scanTails (strictPoint pickupPt destPt 400 1 best
                  DIST_FACTOR TIME_FACTOR PCT_IMPROVE ABS_IMPROVE_MIN) visible noon) /\
  alike (fun tight loose => (length tight <= length loose)%nat)
    (strictTier 0.80 0.80 0.20 3 pickupPt destPt 400 1 best visible noon)
    (strictTier DIST_FACTOR TIME_FACTOR PCT_IMPROVE ABS_IMPROVE_MIN
       pickupPt destPt 400 1 best visible noon).
Proof.
  intros H visible best.
  assert (0.80 <= DIST_FACTOR) as H1 by (unfold DIST_FACTOR; lra).
  assert (0.80 <= TIME_FACTOR) as H2 by (unfold TIME_FACTOR; lra).
  assert (PCT_IMPROVE <= 0.20) as H3 by (unfold PCT_IMPROVE; lra).
  assert (ABS_IMPROVE_MIN <= 3) as H4 by (unfold ABS_IMPROVE_MIN; lra).
  assert (Forall (fun r => 0 <= r_distance r /\ 0 <= r_duration r) visible) as H5.
  { repeat constructor; cbn; lra. }
  split; [repeat split; assumption|]. split; [exact H5|].
  exact (strict_tier_monotone (H:=H) _ _ _ _ _ _ _ _ pickupPt destPt 400 1 best visible noon
           H1 H2 H3 H4 H5).
Defined.

(** On that input the tightened tier accepts nothing and the tier of the
    source accepts two candidates. *)
Remark tightened_strict_tier_example :
  let H := testHost walkOk drvGood in
  let visible := [tailA 0.0015; tailB 0.0015] in
  let best := bestPriceOf 1 (tailA 0.0015) in
  strictTier 0.80 0.80 0.20 3 pickupPt destPt 400 1 best visible noon = Some ([], after 4) /\
  strictTier DIST_FACTOR TIME_FACTOR PCT_IMPROVE ABS_IMPROVE_MIN
    pickupPt destPt 400 1 best visible noon
  = Some ([pushed (south 0.0015) 3 6500 700 "Regular A" strict;
           pushed (south 0.0015) 3 6500 700 "Regular B" strict], after 4).
Proof. intros H visible best. split; vm_compute; reflexivity. Qed.

(** * Further properties of the code *)

(** ** Numbers, keys and zones *)

Lemma Qfloor_eq_close (a b : Q) : Qfloor a = Qfloor b -> Qabs (a - b) < 1.
Proof.
  intros E.
  pose proof (Qfloor_le a) as La. pose proof (Qlt_floor a) as Ua.
  pose proof (Qfloor_le b) as Lb. pose proof (Qlt_floor b) as Ub.
  rewrite inject_Z_plus in Ua, Ub. rewrite E in La, Ua.
  change (inject_Z 1) with 1 in Ua, Ub.
  apply Qabs_Qlt_condition. split; lra.
Qed.

Lemma pow10_pos (f : nat) : 0 < inject_Z (10 ^ Z.of_nat f).
Proof. rewrite <- (Zlt_Qlt 0). apply Z.pow_pos_nonneg; lia. Qed.

Lemma toFixed_close (f : nat) (x y : Q) :
  toFixed f x = toFixed f y -> Qabs (x - y) * inject_Z (10 ^ Z.of_nat f) < 1.
Proof.
  unfold toFixed. intros E.
  pose proof (f_equal fst E) as Es. pose proof (f_equal snd E) as Ef.
  cbn [fst snd] in Es, Ef. clear E.
  apply Qfloor_eq_close in Ef.
  pose proof (pow10_pos f) as Hs. set (s := inject_Z (10 ^ Z.of_nat f)) in *.
  apply Qabs_Qlt_condition in Ef as [E1 E2].
  destruct (Qltb x 0) eqn:Sx; symmetry in Es.
  - apply Qltb_lt in Sx, Es.
    rewrite (Qabs_neg x) in E1, E2 by lra. rewrite (Qabs_neg y) in E1, E2 by lra.
    destruct (Qlt_le_dec (x - y) 0) as [N|N].
    + rewrite Qabs_neg by lra. lra.
    + rewrite Qabs_pos by lra. lra.
  - apply Qltb_ge in Sx, Es.
    rewrite (Qabs_pos x) in E1, E2 by lra. rewrite (Qabs_pos y) in E1, E2 by lra.
    destruct (Qlt_le_dec (x - y) 0) as [N|N].
    + rewrite Qabs_neg by lra. lra.
    + rewrite Qabs_pos by lra. lra.
Qed.

(** X1.  Two points with the same [f]-decimal coordinate key (the key by
    which [sampleTail], the merge loops and the first pipeline drop
    duplicates) differ by less than [10^-f] degrees in latitude and in
    longitude, and lie on the same side of zero: only points that close
    are ever merged. *)
Theorem same_key_points_are_close (f : nat) (p q : LatLng) :
  coordKey f p = coordKey f q ->
  Qabs (lat p - lat q) * inject_Z (10 ^ Z.of_nat f) < 1 /\
  Qabs (lng p - lng q) * inject_Z (10 ^ Z.of_nat f) < 1.
Proof.
  unfold coordKey. intros E.
  split; apply toFixed_close; [exact (f_equal fst E)|exact (f_equal snd E)].
Qed.

(** X2.  The two penalty zones do not overlap, so the zone penalty of a
    point is 0, 0.75 (Downtown) or 1.25 (Airport), never their sum; it
    is 0 exactly when the point lies in no zone box. *)
Theorem zone_penalty_values (p : LatLng) :
  (zonePenaltyUSD p == 0 \/ zonePenaltyUSD p == 0.75 \/ zonePenaltyUSD p == 1.25) /\
  (zonePenaltyUSD p == 0 <-> Forall (fun z => inBox p (z_box z) = false) ZONES).
Proof.
  unfold zonePenaltyUSD, ZONES. cbn [fold_left z_box z_penaltyUSD].
  rewrite !Forall_cons, Forall_nil. cbn [z_box].
  destruct (inBox p (mkBox 30.260 30.275 (-97.753) (-97.734))) eqn:E1;
    destruct (inBox p (mkBox 30.187 30.217 (-97.706) (-97.648))) eqn:E2.
  - exfalso. unfold inBox in E1, E2. cbn in E1, E2.
    repeat (apply andb_prop in E1 as [E1 ?]). repeat (apply andb_prop in E2 as [E2 ?]).
    repeat match goal with
           | H : Qgeb _ _ = true |- _ => apply Qgeb_ge in H
           | H : Qleb _ _ = true |- _ => apply Qleb_le in H
           end.
    lra.
  - split; [right; left; lra|]. split; [lra|]. intros [F _]. discriminate.
  - split; [right; right; lra|]. split; [lra|]. intros [_ [F _]]. discriminate.
  - split; [left; lra|]. split; [|lra]. intros _. auto.
Qed.

Lemma fl_exact `{Rounding} (z : Z) (x : Q) :
  (Z.abs z <= 2 ^ 53)%Z -> x == inject_Z z -> fl x == inject_Z z.
Proof.
  intros B E. apply Qle_antisym.
  - rewrite <- (fl_int z B). apply fl_mono. rewrite E. apply Qle_refl.
  - rewrite <- (fl_int z B). apply fl_mono. rewrite E. apply Qle_refl.
Qed.

Lemma fl_between `{Rounding} (a b : Z) (x : Q) :
  (Z.abs a <= 2 ^ 53)%Z -> (Z.abs b <= 2 ^ 53)%Z ->
  inject_Z a <= x <= inject_Z b -> inject_Z a <= fl x <= inject_Z b.
Proof.
  intros Ba Bb [L U]. split.
  - rewrite <- (fl_int a Ba). apply fl_mono. exact L.
  - rewrite <- (fl_int b Bb). apply fl_mono. exact U.
Qed.

Lemma seededRand_range `{Host} `{Rounding} (seed : Q) : 0 <= seededRand seed <= 1.
Proof.
  unfold seededRand, Math_floor. set (x := fl (Math_sin seed * 10000)).
  pose proof (Qfloor_le x). pose proof (Qlt_floor x) as U. rewrite inject_Z_plus in U.
  change (inject_Z 1) with 1 in U.
  apply (fl_between 0 1); [vm_compute; discriminate|vm_compute; discriminate|].
  change (inject_Z 0) with 0. change (inject_Z 1) with 1. split; lra.
Qed.

(** X3.  Whatever the seed, whatever [Math.sin] returns and however the
    arithmetic rounds, the pickup ETA that the page shows is a whole
    number of minutes from 2 to 8. *)
Theorem eta_between_2_and_8 `{Host} `{Rounding} (pickup : LatLng) (seed : Q) :
  (2 <= estimateETAmin pickup seed <= 8)%Z.
Proof.
  unfold estimateETAmin, Math_floor.
  destruct (seededRand_range (fl (fl (seed + lat pickup) + lng pickup))) as [L U].
  set (r := seededRand _) in *.
  assert (0 <= fl (r * 6) <= 6) as [L1 U1].
  { apply (fl_between 0 6); [vm_compute; discriminate|vm_compute; discriminate|].
    change (inject_Z 0) with 0. change (inject_Z 6) with 6. split; lra. }
  assert (2 <= fl (2 + fl (r * 6)) <= 8) as [L2 U2].
  { apply (fl_between 2 8); [vm_compute; discriminate|vm_compute; discriminate|].
    change (inject_Z 2) with 2. change (inject_Z 8) with 8. split; lra. }
  split.
  - transitivity (Qfloor 2); [reflexivity|]. apply Qfloor_resp_le. exact L2.
  - transitivity (Qfloor 8); [|reflexivity]. apply Qfloor_resp_le. exact U2.
Qed.

(** The ETA of 8 minutes is reached: with a sine of -1/100000000 the
    fraction 0.9999 of [seededRand] rounds to 1 under [coarseRounding]. *)
Remark eta_of_8_minutes :
  @estimateETAmin (sineHost (- (1 # 100000000))) coarseRounding pickupPt 0 = 8%Z.
Proof. vm_compute. reflexivity. Qed.

Lemma Math_max_mono a b c d : a <= c -> b <= d -> Math_max a b <= Math_max c d.
Proof.
  intros H1 H2. apply Math_max_lub.
  - eapply Qle_trans; [exact H1|apply Math_max_l].
  - eapply Qle_trans; [exact H2|apply Math_max_r].
Qed.

Lemma pageV2_seededRand_range `{Host} (seed : Q) :
  0 <= PageV2.seededRand seed /\ PageV2.seededRand seed < 1.
Proof.
  unfold PageV2.seededRand, Math_floor. set (x := Math_sin seed * 10000).
  pose proof (Qfloor_le x). pose proof (Qlt_floor x) as U. rewrite inject_Z_plus in U.
  change (inject_Z 1) with 1 in U. split; lra.
Qed.

Lemma pageV2_price_inv `{Host} d t w q w' :
  PageV2.modeledPriceUSD d t w = Some (q, w') ->
  exists surge,
    (if rushHours (fst (Date_getHours w)) then 1.18 <= surge /\ surge < 1.53
     else 1 <= surge /\ surge < 1.18) /\
    center q = Math_max 5 (meterFare d t * surge) /\
    low q = Math_max 4.5 (center q * 0.9) /\ high q = center q * 1.12.
Proof.
  unfold PageV2.modeledPriceUSD, bind, liftTotal, ret.
  destruct (Date_getHours w) as [h w1]. destruct (Date_now w1) as [now w2]. cbn [fst].
  fold (rushHours h). intros E. injection E as <- <-. cbn [center low high].
  eexists. split; [|split; [reflexivity|split; reflexivity]].
  destruct (rushHours h);
    match goal with
    | |- context [PageV2.seededRand ?s] => destruct (pageV2_seededRand_range s)
    end; split; lra.
Qed.

(** X4.  In the price model of [page.tsx], which draws its surge from
    the clock, a quote made in a rush hour (7-9 or 16-19 h) is never
    below a quote made outside the rush hours for the same trip,
    whatever the minute and whatever [Math.sin] returns: the rush surge
    is at least 1.18 and the other one stays below 1.18. *)
Theorem rush_quote_not_below_offpeak `{Host} (d t : Q) (w1 w2 : World) q1 q2 w1' w2' :
  0 <= d -> 0 <= t ->
  rushHours (fst (Date_getHours w1)) = true ->
  rushHours (fst (Date_getHours w2)) = false ->
  PageV2.modeledPriceUSD d t w1 = Some (q1, w1') ->
  PageV2.modeledPriceUSD d t w2 = Some (q2, w2') ->
  center q2 <= center q1 /\ low q2 <= low q1 /\ high q2 <= high q1.
Proof.
  intros Hd Ht R1 R2 E1 E2.
  apply pageV2_price_inv in E1 as (s1 & B1 & C1 & L1 & H1).
  apply pageV2_price_inv in E2 as (s2 & B2 & C2 & L2 & H2).
  rewrite R1 in B1. rewrite R2 in B2.
  assert (0 <= meterFare d t) as F.
  { unfold meterFare.
    assert (0 <= d / 1609.34) by (apply Qle_shift_div_l; lra).
    assert (0 <= t / 60) by (apply Qle_shift_div_l; lra). lra. }
  assert (center q2 <= center q1) as C.
  { rewrite C1, C2. apply Math_max_mono; [lra|]. nra. }
  split; [exact C|]. split.
  - rewrite L1, L2. apply Math_max_mono; lra.
  - rewrite H1, H2. lra.
Qed.

(** ** Price models *)

Lemma meterFare_mono d t d' t' : d <= d' -> t <= t' -> meterFare d t <= meterFare d' t'.
Proof.
  intros Hd Ht. unfold meterFare.
  assert (d / 1609.34 <= d' / 1609.34) by (apply Qmult_le_compat_r; [exact Hd|vm_compute; discriminate]).
  assert (t / 60 <= t' / 60) by (apply Qmult_le_compat_r; [exact Ht|vm_compute; discriminate]).
  lra.
Qed.

(** X5.  The modeled quote of the client never falls when the trip gets
    longer or slower or the zone penalty rises: for a non-negative surge,
    [low], [center] and [high] are monotone in distance, duration and
    penalty. *)
Theorem modeled_price_monotone (d t s p d' t' p' : Q) :
  0 <= s -> d <= d' -> t <= t' -> p <= p' ->
  center (modeledPriceUSD d t s p) <= center (modeledPriceUSD d' t' s p') /\
  low (modeledPriceUSD d t s p) <= low (modeledPriceUSD d' t' s p') /\
  high (modeledPriceUSD d t s p) <= high (modeledPriceUSD d' t' s p').
Proof.
  intros Hs Hd Ht Hp. pose proof (meterFare_mono d t d' t' Hd Ht) as F.
  unfold modeledPriceUSD. cbn [center low high]. fold (meterFare d t). fold (meterFare d' t').
  assert (Math_max 5 (meterFare d t * s + p) <= Math_max 5 (meterFare d' t' * s + p')) as C.
  { apply Math_max_mono; [lra|]. nra. }
  split; [exact C|]. split.
  - apply Math_max_mono; lra.
  - lra.
Qed.

Lemma modeled_price_monotone_witness :
  center (modeledPriceUSD 6500 700 1 0) <= center (modeledPriceUSD 8000 900 1 0.75) /\
  low (modeledPriceUSD 6500 700 1 0) <= low (modeledPriceUSD 8000 900 1 0.75) /\
  high (modeledPriceUSD 6500 700 1 0) <= high (modeledPriceUSD 8000 900 1 0.75).
Proof.
  apply (modeled_price_monotone 6500 700 1 0 8000 900 0.75); vm_compute; discriminate.
Defined.

Lemma rush_quote_not_below_offpeak_witness :
  let H := testHost walkOk drvGood in
  exists q1 q2,
    PageV2.modeledPriceUSD 5000 900 rushHour = Some (q1, rushHour) /\
    PageV2.modeledPriceUSD 5000 900 noon = Some (q2, noon) /\
    center q2 <= center q1 /\ low q2 <= low q1 /\ high q2 <= high q1.
Proof.
  intros H. eexists. eexists.
  assert (forall q1 q2,
             PageV2.modeledPriceUSD 5000 900 rushHour = Some (q1, rushHour) ->
             PageV2.modeledPriceUSD 5000 900 noon = Some (q2, noon) ->
             center q2 <= center q1 /\ low q2 <= low q1 /\ high q2 <= high q1) as K.
  { intros q1 q2.
    apply (rush_quote_not_below_offpeak (H:=H) 5000 900 rushHour noon q1 q2 rushHour noon);
      vm_compute; first [reflexivity|discriminate]. }
  split; [vm_compute; reflexivity|]. split; [vm_compute; reflexivity|].
  apply K; vm_compute; reflexivity.
Defined.

(** *** [lib/estimator.ts] *)

Lemma timeOfDayFactor_cases (d : Estimator.JSDate) :
  Estimator.timeOfDayFactor d = 1.0 \/ Estimator.timeOfDayFactor d = 1.0 * 1.25 \/
  Estimator.timeOfDayFactor d = 1.0 * 1.35.
Proof.
  unfold Estimator.timeOfDayFactor.
  set (h := Estimator.getHours d). set (dow := Estimator.getDay d).
  set (c1 := ((1 <=? dow) && (dow <=? 5) && ((7 <=? h) && (h <=? 9) || (16 <=? h) && (h <=? 19)))%Z).
  set (c2 := (((dow =? 5) || (dow =? 6)) && ((20 <=? h) || (h <=? 2)))%Z).
  assert (c1 && c2 = false) as N.
  { apply not_true_is_false. unfold c1, c2. intros T.
    rewrite !andb_true_iff, !orb_true_iff, !andb_true_iff in T.
    rewrite !Z.leb_le, !Z.eqb_eq in T. lia. }
  destruct c1, c2; try discriminate N; auto.
Qed.

(** X6.  The time-of-day factor of the estimator is 1, 1.25 (weekday
    rush hours) or 1.35 (Friday and Saturday nights): the two peaks
    never hold at once, so the factor is never their product. *)
Theorem time_of_day_factor_values (d : Estimator.JSDate) :
  Estimator.timeOfDayFactor d == 1 \/ Estimator.timeOfDayFactor d == 1.25 \/
  Estimator.timeOfDayFactor d == 1.35.
Proof.
  destruct (timeOfDayFactor_cases d) as [E|[E|E]]; rewrite E.
  - left. reflexivity.
  - right. left. vm_compute. reflexivity.
  - right. right. vm_compute. reflexivity.
Qed.

(** X8.  When the directions provider answers without a route, the
    estimator does not fail: it prices a trip of 0 miles and 0 minutes,
    which at every time of day is the minimum fare (center and low 7,
    high at most 8.96). *)
Theorem estimate_without_route_is_minimum_fare `{Host} (pickup drop : LatLng)
    (now : Estimator.JSDate) (w w1 : World) :
  fetchDrivingRoute pickup drop w = Some (None, w1) ->
  exists pr,
    Estimator.estimatePriceRange pickup drop now w = Some (pr, w1) /\
    Estimator.center pr == 7 /\ Estimator.low pr == 7 /\ Estimator.high pr <= 8.96 /\
    Estimator.miles (Estimator.meta pr) == 0 /\ Estimator.driveMin (Estimator.meta pr) = 0%Z.
Proof.
  intros E. unfold Estimator.estimatePriceRange, Estimator.getDriveStats, bind, ret.
  rewrite E. cbn [fst snd]. eexists. split; [reflexivity|].
  cbn [Estimator.center Estimator.low Estimator.high Estimator.meta Estimator.miles
       Estimator.driveMin].
  destruct (timeOfDayFactor_cases now) as [T|[T|T]]; rewrite T;
    repeat split; vm_compute; first [reflexivity|discriminate].
Qed.

Lemma estimate_without_route_is_minimum_fare_witness :
  let H := routesHost None None in
  let now := {| Estimator.getHours := 8; Estimator.getDay := 2 |} in
  exists pr,
    Estimator.estimatePriceRange pickupPt pickupPt now noon = Some (pr, after 1) /\
    Estimator.center pr == 7 /\ Estimator.low pr == 7 /\ Estimator.high pr <= 8.96 /\
    Estimator.miles (Estimator.meta pr) == 0 /\ Estimator.driveMin (Estimator.meta pr) = 0%Z.
Proof.
  intros H now.
  apply (estimate_without_route_is_minimum_fare (H:=H) pickupPt pickupPt now noon (after 1)).
  vm_compute. reflexivity.
Defined.

Lemma estimator_price_inv `{Host} pickup drop now w pr w' :
  Estimator.estimatePriceRange pickup drop now w = Some (pr, w') ->
  exists route,
    fetchDrivingRoute pickup drop w = Some (route, w') /\
    let meters := match route with Some (d, _) => d | None => 0 end in
    let seconds := match route with Some (_, t) => t | None => 0 end in
    let tod := Estimator.timeOfDayFactor now in
    let band := if Qgtb tod 1.2 then 0.28 else 0.18 in
    let price := Math_max ((2.25 + 1.55 * (meters * Estimator.M_TO_MI)
                            + 0.28 * (seconds * Estimator.SEC_TO_MIN) + 2.00) * tod) 7.00 in
    Estimator.center pr = Estimator.round2 price /\
    Estimator.low pr = Math_max 7.00 (Estimator.round2 (price * (1 - band))) /\
    Estimator.high pr = Estimator.round2 (price * (1 + band)).
Proof.
  unfold Estimator.estimatePriceRange, Estimator.getDriveStats, bind, ret.
  destruct (fetchDrivingRoute pickup drop w) as [[route w1]|]; [|discriminate].
  intros E. injection E as <- <-. exists route. split; [reflexivity|].
  cbn. repeat split; reflexivity.
Qed.

(** X9.  At a given date, the estimator never quotes less for a trip
    that is longer and slower: [low], [center] and [high] are monotone
    in the meters and seconds of the route that the provider returns. *)
Theorem estimate_monotone_in_trip `{Host} (p1 d1 p2 d2 : LatLng) (now : Estimator.JSDate)
    (w1 w2 w1' w2' : World) (m1 s1 m2 s2 : Q) pr1 pr2 :
  fetchDrivingRoute p1 d1 w1 = Some (Some (m1, s1), w1') ->
  fetchDrivingRoute p2 d2 w2 = Some (Some (m2, s2), w2') ->
  m1 <= m2 -> s1 <= s2 ->
  Estimator.estimatePriceRange p1 d1 now w1 = Some (pr1, w1') ->
  Estimator.estimatePriceRange p2 d2 now w2 = Some (pr2, w2') ->
  Estimator.center pr1 <= Estimator.center pr2 /\
  Estimator.low pr1 <= Estimator.low pr2 /\
  Estimator.high pr1 <= Estimator.high pr2.
Proof.
  intros F1 F2 Hm Hs E1 E2.
  apply estimator_price_inv in E1 as (r1 & G1 & C1 & L1 & H1).
  apply estimator_price_inv in E2 as (r2 & G2 & C2 & L2 & H2).
  rewrite F1 in G1. injection G1 as <-. rewrite F2 in G2. injection G2 as <-.
  cbn zeta in *. rewrite C1, C2, L1, L2, H1, H2.
  set (tod := Estimator.timeOfDayFactor now).
  assert (1 <= tod <= 1.35) as [T1 T2].
  { unfold tod. destruct (timeOfDayFactor_cases now) as [T|[T|T]]; rewrite T;
      split; vm_compute; discriminate. }
  set (band := if Qgtb tod 1.2 then 0.28 else 0.18).
  assert (0.18 <= band <= 0.28) as [B1 B2].
  { unfold band. destruct (Qgtb tod 1.2); split; vm_compute; discriminate. }
  set (f1 := (2.25 + 1.55 * (m1 * Estimator.M_TO_MI) + 0.28 * (s1 * Estimator.SEC_TO_MIN) + 2.00) * tod).
  set (f2 := (2.25 + 1.55 * (m2 * Estimator.M_TO_MI) + 0.28 * (s2 * Estimator.SEC_TO_MIN) + 2.00) * tod).
  assert (f1 <= f2) as F.
  { unfold f1, f2. apply Qmult_le_compat_r; [|lra].
    unfold Estimator.M_TO_MI, Estimator.SEC_TO_MIN. change (1 / 60) with (1 # 60). lra. }
  assert (Math_max f1 7.00 <= Math_max f2 7.00) as P by (apply Math_max_mono; lra).
  split; [|split].
  - apply round2_mono. exact P.
  - apply Math_max_mono; [lra|]. apply round2_mono. nra.
  - apply round2_mono. nra.
Qed.

(** ** Route-tail sampling *)

Lemma dedupeLoop_length_ge out : forall seen uniq,
  (length uniq <= length (dedupeLoop out seen uniq))%nat.
Proof.
  induction out as [|p out IH]; intros seen uniq; cbn [dedupeLoop]; [lia|].
  destruct (decide (coordKey 5 p ∈ seen)); [apply IH|].
  etransitivity; [|apply IH]. rewrite length_app. cbn. lia.
Qed.

Lemma dedupeLoop_nonempty out : out <> [] -> dedupeLoop out ∅ [] <> [].
Proof.
  destruct out as [|p out]; [congruence|]. intros _. cbn [dedupeLoop].
  destruct (decide (coordKey 5 p ∈ (∅ : gset Key))) as [Hin|_]; [set_solver|].
  intros E. pose proof (dedupeLoop_length_ge out ({[coordKey 5 p]} ∪ ∅) ([] ++ [p])) as L.
  rewrite E in L. cbn in L. lia.
Qed.

(** X10.  With the tail fraction of the pipeline (0.22) and on a
    geometry of at least two points, [sampleTail] returns: at most
    [count] points, at least one when [count] is positive, with pairwise
    distinct 5-decimal keys, each a coordinate of the route taken from
    the tail window, that is from index [max(0, floor(n * 0.78) - 1)] up
    to, but not including, the final coordinate. *)
Theorem sample_tail_window (coords : list (Q * Q)) (count : nat) :
  (2 <= length coords)%nat ->
  exists pts, sampleTail coords count TAIL_FRACTION = Some pts /\
    (length pts <= count)%nat /\ ((1 <= count)%nat -> pts <> []) /\
    NoDup (map (coordKey 5) pts) /\
    Forall (fun p => exists i : nat,
              (Z.max 0 (Math_floor (inject_Z (Z.of_nat (length coords)) * 0.78) - 1)
               <= Z.of_nat i)%Z /\
              (i < length coords - 1)%nat /\ coords !! i = Some (lng p, lat p)) pts.
Proof.
  intros Hn. unfold sampleTail.
  destruct (Nat.eqb_spec (length coords) 0) as [E0|_]; [lia|].
  set (n := Z.of_nat (length coords)).
  assert (Math_floor (inject_Z n * (1 - TAIL_FRACTION)) = Math_floor (inject_Z n * 0.78)) as ->.
  { unfold Math_floor. apply Qfloor_comp. unfold TAIL_FRACTION. lra. }
  set (startIdx := Z.max 0 _).
  assert (0 <= startIdx <= n - 2)%Z as Hs.
  { unfold startIdx. split; [lia|]. apply Z.max_lub; [lia|].
    assert (Math_floor (inject_Z n * 0.78) < n)%Z; [|lia].
    apply Qfloor_lt_Z.
    assert (0 < inject_Z n) by (rewrite <- (Zlt_Qlt 0); lia). lra. }
  set (slice := Array_slice coords startIdx (n - 1)).
  assert (slice = take (Z.to_nat (n - 1 - startIdx)) (drop (Z.to_nat startIdx) coords)) as Hslice.
  { unfold slice, Array_slice, rel_index. fold n.
    destruct (Z.ltb_spec startIdx 0); [lia|].
    destruct (Z.ltb_spec (n - 1) 0); [lia|].
    rewrite !Z.min_l by lia. reflexivity. }
  assert (0 < length slice)%nat as Hlen.
  { rewrite Hslice, length_take, length_drop. lia. }
  set (P := fun p => exists i : nat, (startIdx <= Z.of_nat i)%Z /\
                       (i < length coords - 1)%nat /\ coords !! i = Some (lng p, lat p)).
  assert (forall lng0 lat0, (lng0, lat0) ∈ slice -> P {| lat := lat0; lng := lng0 |}) as HP.
  { intros lng0 lat0 Hin. rewrite Hslice in Hin.
    apply elem_of_take in Hin as [i [Hi Hlt]].
    rewrite lookup_drop in Hi.
    exists (Z.to_nat startIdx + i)%nat. split; [lia|]. split; [lia|exact Hi]. }
  destruct (sampleLoop_spec slice count P Hlen HP (seq 1 count) []) as [out [-> [F L]]];
    [constructor|].
  exists (dedupeLoop out ∅ []). split; [reflexivity|].
  destruct (dedupeLoop_spec P out ∅ [] F) as [F' L']; [constructor|].
  rewrite length_seq in L. cbn in L, L'.
  split; [lia|]. split; [|split].
  - intros C. apply dedupeLoop_nonempty. intros ->. cbn in L. lia.
  - apply dedupeLoop_NoDup; [constructor|]. intros p Hp. apply elem_of_nil in Hp. contradiction.
  - exact F'.
Qed.

Lemma sample_tail_window_witness :
  (2 <= length (r_coords route14))%nat /\
  exists pts, sampleTail (r_coords route14) SAMPLE_COUNT TAIL_FRACTION = Some pts /\
    (length pts <= SAMPLE_COUNT)%nat /\ ((1 <= SAMPLE_COUNT)%nat -> pts <> []) /\
    NoDup (map (coordKey 5) pts) /\
    Forall (fun p => exists i : nat,
              (Z.max 0 (Math_floor (inject_Z (Z.of_nat (length (r_coords route14))) * 0.78) - 1)
               <= Z.of_nat i)%Z /\
              (i < length (r_coords route14) - 1)%nat /\
              r_coords route14 !! i = Some (lng p, lat p)) pts.
Proof.
  assert (2 <= length (r_coords route14))%nat as L by (vm_compute; lia).
  split; [exact L|].
  exact (sample_tail_window (r_coords route14) SAMPLE_COUNT L).
Defined.

Lemma sampleTail_one_point (cs : list (Q * Q)) :
  length cs = 1%nat -> sampleTail cs SAMPLE_COUNT TAIL_FRACTION = None.
Proof.
  destruct cs as [|c [|c' cs]]; try discriminate. intros _.
  unfold sampleTail, SAMPLE_COUNT. cbn [length Nat.eqb].
  set (startIdx := Z.max 0 _).
  assert (Array_slice [c] startIdx (Z.of_nat 1 - 1) = []) as ->.
  { assert (Z.to_nat (rel_index 1 0 - rel_index 1 startIdx) = 0%nat) as E.
    { unfold rel_index. destruct (Z.ltb_spec startIdx 0); cbn; lia. }
    unfold Array_slice. cbn [length].
    change (Z.of_nat 1 - 1)%Z with 0%Z. change (Z.of_nat 1) with 1%Z.
    rewrite E. reflexivity. }
  cbn [seq sampleLoop length].
  rewrite Array_get_neg; [reflexivity|]. lia.
Qed.

Lemma sampleTail_total (cs : list (Q * Q)) :
  length cs <> 1%nat -> is_Some (sampleTail cs SAMPLE_COUNT TAIL_FRACTION).
Proof.
  intros N. destruct cs as [|c [|c' cs]].
  - eexists. reflexivity.
  - contradiction N. reflexivity.
  - destruct (sampleTail_returns (c :: c' :: cs) SAMPLE_COUNT TAIL_FRACTION) as [pts [E _]].
    + cbn [length]. lia.
    + vm_compute. reflexivity.
    + exists pts. exact E.
Qed.

(** ** The three-tier pipeline, continued *)

Section MorePipeline.
Context `{Host}.

Lemma forEach_total {A S} (body : A -> S -> M S) (l : list A) :
  (forall a s w, a ∈ l -> is_Some (body a s w)) ->
  forall s w, is_Some (forEach body l s w).
Proof.
  induction l as [|a l IH]; intros Hb s w; cbn [forEach].
  - eexists. reflexivity.
  - unfold bind. destruct (Hb a s w) as [[s1 w1] E]; [apply elem_of_cons; left; reflexivity|].
    rewrite E. apply IH. intros a0 s0 w0 Hin. apply Hb. apply elem_of_cons. right. exact Hin.
Qed.

Lemma forEach_rejects {A S} (body : A -> S -> M S) (l : list A) (a : A) :
  a ∈ l -> (forall s w, body a s w = None) -> forall s w, forEach body l s w = None.
Proof.
  induction l as [|b l IH]; intros Hin Hb s w.
  - apply elem_of_nil in Hin. contradiction.
  - cbn [forEach]. unfold bind. apply elem_of_cons in Hin as [<-|Hin].
    + rewrite Hb. reflexivity.
    + destruct (body b s w) as [[s1 w1]|]; [|reflexivity]. apply IH; assumption.
Qed.

Lemma scanTails_total point visible w :
  (forall r p all w, is_Some (point r p all w)) ->
  Forall (fun r => length (r_coords r) <> 1%nat) visible ->
  is_Some (scanTails point visible w).
Proof.
  intros Hp F. unfold scanTails. apply forEach_total.
  intros r s w0 Hr. rewrite Forall_forall in F.
  destruct (sampleTail_total (r_coords r) (F r Hr)) as [pts E].
  unfold bind. rewrite E. cbn. apply forEach_total. intros p s1 w1 _. apply Hp.
Qed.

Lemma scanTails_rejects point visible r w :
  r ∈ visible -> length (r_coords r) = 1%nat -> scanTails point visible w = None.
Proof.
  intros Hr L. unfold scanTails. eapply forEach_rejects; [exact Hr|].
  intros s w0. unfold bind. rewrite (sampleTail_one_point _ L). reflexivity.
Qed.

Lemma bind_total {A B} (m : M A) (k : A -> M B) w :
  is_Some (m w) -> (forall a w1, is_Some (k a w1)) -> is_Some (bind m k w).
Proof. intros [[a w1] E] Hk. unfold bind. rewrite E. apply Hk. Qed.

Lemma ret_total {A} (a : A) w : is_Some (ret a w).
Proof. eexists. reflexivity. Qed.

Lemma mapboxWalk_total a b w : providersRespond -> is_Some (mapboxWalk a b w).
Proof.
  intros R. unfold mapboxWalk. apply bind_total; [apply R|]. intros; apply ret_total.
Qed.

Lemma mapboxDrive_total a b w : providersRespond -> is_Some (mapboxDrive a b w).
Proof.
  intros R. unfold mapboxDrive. apply bind_total; [apply R|]. intros; apply ret_total.
Qed.

Ltac point_total R :=
  intros r p all w; cbv zeta;
  repeat first
    [ apply ret_total
    | apply bind_total;
      [first [apply mapboxWalk_total|apply mapboxDrive_total]; exact R|intros ? ?]
    | match goal with
      | |- is_Some ((if ?b then _ else _) _) => destruct b
      | |- is_Some (match ?o with Some _ => _ | None => _ end _) => destruct o
      end ].

Lemma strictPoint_total pu dr radiusM surge best df tf pct ab :
  providersRespond ->
  forall r p all w, is_Some (strictPoint pu dr radiusM surge best df tf pct ab r p all w).
Proof. intros R. unfold strictPoint. point_total R. Qed.

Lemma relaxedPoint_total pu dr radiusM surge :
  providersRespond -> forall r p all w, is_Some (relaxedPoint pu dr radiusM surge r p all w).
Proof. intros R. unfold relaxedPoint. point_total R. Qed.

Lemma closestPoint_total pu dr radiusM surge :
  providersRespond -> forall r p all w, is_Some (closestPoint pu dr radiusM surge r p all w).
Proof. intros R. unfold closestPoint. point_total R. Qed.

(** X11.  The discovery run returns a list, it does not reject, when
    every provider call is answered and no visible route has a geometry
    of exactly one coordinate. *)
Theorem discover_returns_when_providers_respond
    pickup drop (sr sa : bool) (regs alts : list RouteGeo) radiusM surge w :
  providersRespond ->
  Forall (fun r => length (r_coords r) <> 1%nat)
         ((if sr then regs else []) ++ (if sa then alts else [])) ->
  exists results w', discover pickup drop sr sa regs alts radiusM surge w = Some (results, w').
Proof.
  intros R F.
  assert (is_Some (discover pickup drop sr sa regs alts radiusM surge w)) as [[results w'] E];
    [|exists results, w'; exact E].
  unfold discover. destruct pickup as [pu|]; [|apply ret_total].
  destruct drop as [dr|]; [|apply ret_total].
  destruct (head _) as [bestReg|]; [|apply ret_total].
  apply bind_total.
  { unfold strictTier. apply bind_total; [|intros; apply ret_total].
    apply scanTails_total; [apply strictPoint_total; exact R|exact F]. }
  intros capped w1. apply bind_total.
  { destruct (_ <? _)%nat; [|apply ret_total].
    unfold relaxedTier. apply bind_total; [|intros; apply ret_total].
    apply scanTails_total; [apply relaxedPoint_total; exact R|exact F]. }
  intros r2 w2. apply bind_total; [|intros; apply ret_total].
  destruct (_ <? _)%nat; [|apply ret_total].
  unfold closestTier. apply bind_total; [|intros; apply ret_total].
  apply scanTails_total; [apply closestPoint_total; exact R|exact F].
Qed.

(** X12.  The discovery run rejects, whatever the providers answer, when
    pickup and destination are set, there is a regular route, and some
    visible route has a geometry of exactly one coordinate: the strict
    pass samples every visible route, and [sampleTail] throws on that
    one. *)
Theorem discover_rejects_on_one_point_route
    pu dr (sr sa : bool) (regs alts : list RouteGeo) radiusM surge w r :
  regs <> [] ->
  r ∈ (if sr then regs else []) ++ (if sa then alts else []) ->
  length (r_coords r) = 1%nat ->
  discover (Some pu) (Some dr) sr sa regs alts radiusM surge w = None.
Proof.
  intros Hne Hr L. unfold discover.
  destruct (head (Array_sort durationCmp regs)) as [bestReg|] eqn:Eh.
  - unfold bind at 1. unfold strictTier. unfold bind at 1.
    rewrite (scanTails_rejects _ _ r w Hr L). reflexivity.
  - exfalso. apply head_None in Eh.
    pose proof (Array_sort_length durationCmp regs) as Len. rewrite Eh in Len.
    destruct regs; [congruence|discriminate].
Qed.

End MorePipeline.
(** ** Candidates and the providers' answers *)

Section Answers.
Context `{Host}.

Lemma elem_of_tailPoints (visible : list RouteGeo) (r : RouteGeo) (p : LatLng) :
  (r, p) ∈ tailPoints visible <->
  r ∈ visible /\
  exists pts, sampleTail (r_coords r) SAMPLE_COUNT TAIL_FRACTION = Some pts /\ p ∈ pts.
Proof.
  unfold tailPoints. rewrite list_elem_of_In, in_flat_map. split.
  - intros [r0 [Hr Hp]]. apply in_map_iff in Hp as [p0 [Eq Hp]]. injection Eq as -> ->.
    split; [apply list_elem_of_In; exact Hr|].
    destruct (sampleTail (r_coords r) SAMPLE_COUNT TAIL_FRACTION) as [pts|]; [|destruct Hp].
    exists pts. split; [reflexivity|]. apply list_elem_of_In. exact Hp.
  - intros [Hr [pts [E Hp]]]. exists r. split; [apply list_elem_of_In; exact Hr|].
    rewrite E. apply in_map. apply list_elem_of_In. exact Hp.
Qed.

Lemma candidateFor_fields dr surge why r p wk drv :
  c_drop (candidateFor dr surge why r p wk drv) = p /\
  c_routeIdx (candidateFor dr surge why r p wk drv) = r_label r /\
  c_surge (candidateFor dr surge why r p wk drv) = surge /\
  c_reason (candidateFor dr surge why r p wk drv) = why.
Proof. repeat split. Qed.

Lemma recordedFrom_recorded pu dr radiusM surge why r p c :
  recordedFrom pu dr radiusM surge why r p c -> recorded dr radiusM why r p c.
Proof. intros [B (wk & drv & _ & ->)]. repeat split; apply B. Qed.

(** The three point bodies record, of a point, the candidate made of
    the answers that the two providers gave for it. *)
Ltac point_answers :=
  intros ? ? ? ? ? ? ?; repeat case_match; simplify_eq;
  first [ apply appends_none | apply appends_one ].

Ltac answered_here :=
  split; [apply inBand_of_guard; assumption|];
  eexists; eexists; split;
    [eexists; eexists; eexists; split; eassumption|reflexivity].

Lemma strictPoint_answers pu dr radiusM surge best df tf pct ab :
  appends (strictlyBetter pu dr radiusM df tf pct ab surge best)
          (strictPoint pu dr radiusM surge best df tf pct ab).
Proof.
  unfold appends, strictPoint, bind, ret. point_answers.
  all: repeat match goal with
              | E : negb _ = false |- _ => apply negb_false_iff, andb_prop in E; destruct E
              | E : Qleb _ _ = true |- _ => apply Qleb_le in E
              | E : Qltb _ _ = false |- _ => apply Qltb_ge in E
              end.
  all: unfold strictlyBetter, candPrice;
    cbn [c_routeIdx c_reason c_surge c_drive c_drop distance_m duration_s].
  all: split; [answered_here|].
  all: split; [assumption|]; split; [assumption|]; split; assumption.
Qed.


Lemma closestPoint_answers pu dr radiusM surge :
  appends (recordedFrom pu dr radiusM surge fallback) (closestPoint pu dr radiusM surge).
Proof. unfold appends, closestPoint, bind, ret. point_answers. all: answered_here. Qed.



(** *** A pass over providers that answer by the point alone *)

Lemma omap_flat_map {A B} (f : A -> option B) (l : list A) :
  flat_map (fun a => option_list (f a)) l = omap f l.
Proof.
  induction l as [|a l IH]; [reflexivity|].
  cbn [flat_map]. rewrite IH. cbn. destruct (f a); reflexivity.
Qed.

Lemma flat_map_pairs {B} (f : RouteGeo * LatLng -> list B) (visible : list RouteGeo) :
  flat_map f (tailPoints visible)
  = flat_map (fun r => flat_map (fun p => f (r, p))
                         (default [] (sampleTail (r_coords r) SAMPLE_COUNT TAIL_FRACTION)))
             visible.
Proof.
  unfold tailPoints. induction visible as [|r l IH]; [reflexivity|].
  cbn [flat_map]. rewrite flat_map_app, IH. f_equal.
  induction (default [] _) as [|p pts IHp]; [reflexivity|].
  cbn [map flat_map]. rewrite IHp. reflexivity.
Qed.

Lemma forEach_appends {A} (body : A -> list Candidate -> M (list Candidate))
    (f : A -> list Candidate) (l : list A) :
  (forall a, a ∈ l -> forall all w, exists w', body a all w = Some (all ++ f a, w')) ->
  forall all w, exists w', forEach body l all w = Some (all ++ flat_map f l, w').
Proof.
  induction l as [|a l IH]; intros Hb all w; cbn [forEach flat_map].
  - exists w. rewrite app_nil_r. reflexivity.
  - destruct (Hb a (list_elem_of_here a l) all w) as [w1 E1].
    destruct (IH (fun a0 Hin => Hb a0 (list_elem_of_further _ _ _ Hin)) (all ++ f a) w1)
      as [w2 E2].
    exists w2. unfold bind. rewrite E1, E2, app_assoc. reflexivity.
Qed.

Lemma scanTails_pure point (f : RouteGeo * LatLng -> list Candidate) visible :
  (forall r p all w, exists w', point r p all w = Some (all ++ f (r, p), w')) ->
  Forall (fun r => is_Some (sampleTail (r_coords r) SAMPLE_COUNT TAIL_FRACTION)) visible ->
  forall w, exists w', scanTails point visible w = Some (flat_map f (tailPoints visible), w').
Proof.
  intros Hp F w. rewrite flat_map_pairs. unfold scanTails.
  apply (forEach_appends _ (fun r => flat_map (fun p => f (r, p))
           (default [] (sampleTail (r_coords r) SAMPLE_COUNT TAIL_FRACTION)))).
  intros r Hr all w0. rewrite Forall_forall in F. destruct (F r Hr) as [pts E].
  rewrite E. unfold bind. cbn [liftOpt ret default].
  apply (forEach_appends (point r) (fun p => f (r, p))). intros p _. apply Hp.
Qed.

Lemma forEach_samples (point : RouteGeo -> LatLng -> list Candidate -> M (list Candidate))
    (visible : list RouteGeo) :
  forall all w out w',
    forEach (fun r all =>
               let* tailPts := liftOpt (sampleTail (r_coords r) SAMPLE_COUNT TAIL_FRACTION) in
               forEach (point r) tailPts all) visible all w = Some (out, w') ->
    Forall (fun r => is_Some (sampleTail (r_coords r) SAMPLE_COUNT TAIL_FRACTION)) visible.
Proof.
  induction visible as [|r l IH]; intros all w out w' E; [constructor|].
  cbn [forEach] in E. apply bind_Some in E as (s1 & w1 & E1 & E2).
  apply bind_Some in E1 as (pts & w0 & Ep & _). apply liftOpt_Some in Ep as [Ep _].
  constructor; [exists pts; exact Ep|]. exact (IH _ _ _ _ E2).
Qed.

Lemma scanTails_samples point visible w all w' :
  scanTails point visible w = Some (all, w') ->
  Forall (fun r => is_Some (sampleTail (r_coords r) SAMPLE_COUNT TAIL_FRACTION)) visible.
Proof. apply forEach_samples. Qed.

Lemma inBand_inBandb drop radiusM p : inBand drop radiusM p -> inBandb drop radiusM p = true.
Proof.
  intros [B1 B2]. unfold inBandb. apply andb_true_iff. split; apply Qleb_le; assumption.
Qed.

Lemma closestPoint_pure pu dr radiusM surge walkOf drvOf :
  (forall p w0, exists w0', mapboxWalk p dr w0 = Some (walkOf p, w0')) ->
  (forall p w0, exists w0', mapboxDrive pu p w0 = Some (drvOf p, w0')) ->
  forall r p all w, exists w',
    closestPoint pu dr radiusM surge r p all w
    = Some (all ++ option_list (closestCandidate dr radiusM surge walkOf drvOf (r, p)), w').
Proof.
  intros Hw Hd r p all w. unfold closestPoint, closestCandidate, inBandb, Qgtb, Qltb, Qleb.
  cbn [fst snd].
  destruct (Qle_bool (haversineMeters p dr) radiusM), (Qle_bool 12 (haversineMeters p dr));
    cbn [negb orb andb option_list];
    try (exists w; unfold ret; rewrite app_nil_r; reflexivity).
  destruct (Hw p w) as [w1 E1]. destruct (Hd p w1) as [w2 E2].
  exists w2. unfold bind. rewrite E1, E2.
  destruct (drvOf p) as [drv|]; unfold ret; cbn [option_list];
    [|rewrite app_nil_r; reflexivity].
  unfold candidateFor, walkMinutesOf. reflexivity.
Qed.

(** The closest pass records exactly the accepted sampled points. *)
Lemma closest_scan_accepts pu dr radiusM surge walkOf drvOf visible :
  (forall p w0, exists w0', mapboxWalk p dr w0 = Some (walkOf p, w0')) ->
  (forall p w0, exists w0', mapboxDrive pu p w0 = Some (drvOf p, w0')) ->
  Forall (fun r => is_Some (sampleTail (r_coords r) SAMPLE_COUNT TAIL_FRACTION)) visible ->
  forall w, exists w',
    scanTails (closestPoint pu dr radiusM surge) visible w
    = Some (closestAccepted dr radiusM surge walkOf drvOf (tailPoints visible), w').
Proof.
  intros Hw Hd F w. unfold closestAccepted. rewrite <- omap_flat_map.
  apply (scanTails_pure _ (fun rp => option_list (closestCandidate dr radiusM surge walkOf drvOf rp)));
    [|exact F].
  apply closestPoint_pure; assumption.
Qed.

(** Enough accepted points with distinct new keys give enough fresh
    candidates. *)
Lemma accepted_picks_fresh dr radiusM surge walkOf drvOf pts have
    (picks : list (RouteGeo * LatLng)) :
  NoDup (map (fun rp => coordKey 6 (snd rp)) picks) ->
  Forall (fun rp => rp ∈ pts /\ inBand dr radiusM (snd rp) /\ is_Some (drvOf (snd rp)) /\
                    coordKey 6 (snd rp) ∉ have) picks ->
  (length picks <= length (freshByKey have
     (closestAccepted dr radiusM surge walkOf drvOf pts)))%nat.
Proof.
  intros Hnd F.
  assert (forall rp, rp ∈ picks -> exists c,
            closestCandidate dr radiusM surge walkOf drvOf rp = Some c /\ c_drop c = snd rp) as G.
  { intros rp Hin. rewrite Forall_forall in F. destruct (F rp Hin) as (_ & B & [drv Ed] & _).
    unfold closestCandidate. rewrite (inBand_inBandb _ _ _ B), Ed.
    eexists. split; reflexivity. }
  assert (exists cs, Forall2 (fun rp c => closestCandidate dr radiusM surge walkOf drvOf rp = Some c
                                          /\ c_drop c = snd rp) picks cs) as [cs F2].
  { clear Hnd F. induction picks as [|rp l IH]; [exists []; constructor|].
    destruct (G rp (list_elem_of_here _ _)) as [c Hc].
    destruct IH as [cs F2]; [intros rp0 Hin; apply G, list_elem_of_further, Hin|].
    exists (c :: cs). constructor; assumption. }
  rewrite (Forall2_length _ _ _ F2).
  apply freshByKey_length_ge.
  - assert (map (fun c => coordKey 6 (c_drop c)) cs = map (fun rp => coordKey 6 (snd rp)) picks)
      as ->; [|exact Hnd].
    clear -F2. induction F2 as [|rp c l cs [_ Ec] _ IH]; [reflexivity|].
    cbn [map]. rewrite IH, Ec. reflexivity.
  - intros c Hc. apply list_elem_of_lookup in Hc as [i Hi].
    destruct (Forall2_lookup_r _ _ _ _ _ F2 Hi) as (rp & Hrp & Ec & Ed).
    apply list_elem_of_lookup_2 in Hrp. rewrite Forall_forall in F.
    destruct (F rp Hrp) as (Hin & _ & _ & Hk). split; [|rewrite Ed; exact Hk].
    unfold closestAccepted. apply list_elem_of_omap. exists rp. split; assumption.
Qed.

(** C1 (amended).  When the strict tier accepts nothing the relaxed tier
    runs on the empty list; when its result [r2] is shorter than
    [MIN_SUGGESTIONS] (2) the closest tier runs, and the pipeline returns
    [r2] followed by the candidates that tier adds.  With providers that
    answer a point the same way throughout the request ([walkOf p] for
    the walk from [p], [drvOf p] for the drive to [p]), the closest tier
    accepts exactly the sampled tail points of the visible routes that
    lie within the band and to which the driving provider has a route,
    and adds the first [MIN_SUGGESTIONS - |r2|] fresh ones in ascending
    radial distance to the destination; a candidate is fresh when its
    6-decimal key is carried neither by [r2] nor by an earlier candidate.
    The result reaches [MIN_SUGGESTIONS] whenever that many sampled
    points within the band, with a driving route and with pairwise
    distinct new keys, exist. *)
Theorem fallback_ladder pu dr (sr sa : bool) (regs alts : list RouteGeo) radiusM surge
    bestReg (walkOf drvOf : LatLng -> option RouteStats) w w1 r2 w2 :
  (forall p w0, exists w0', mapboxWalk p dr w0 = Some (walkOf p, w0')) ->
  (forall p w0, exists w0', mapboxDrive pu p w0 = Some (drvOf p, w0')) ->
  head (Array_sort durationCmp regs) = Some bestReg ->
  strictTier DIST_FACTOR TIME_FACTOR PCT_IMPROVE ABS_IMPROVE_MIN pu dr radiusM surge
    (bestPriceOf surge bestReg) ((if sr then regs else []) ++ (if sa then alts else [])) w
  = Some ([], w1) ->
  relaxedTier pu dr radiusM surge ((if sr then regs else []) ++ (if sa then alts else [])) [] w1
  = Some (r2, w2) ->
  (length r2 < MIN_SUGGESTIONS)%nat ->
  exists added w3,
    discover (Some pu) (Some dr) sr sa regs alts radiusM surge w = Some (r2 ++ added, w3) /\
    added = take (MIN_SUGGESTIONS - length r2)
              (freshByKey (keysOf r2)
                 (Array_sort (closestCmp dr surge)
                    (closestAccepted dr radiusM surge walkOf drvOf
                       (tailPoints ((if sr then regs else []) ++ (if sa then alts else [])))))) /\
    (length (r2 ++ added) <= MIN_SUGGESTIONS)%nat /\
    StronglySorted (radialLe dr) added /\
    Forall (sampledWith (recordedFrom pu dr radiusM surge fallback)
              ((if sr then regs else []) ++ (if sa then alts else []))) added /\
    Forall (fun c => coordKey 6 (c_drop c) ∉ keysOf r2) added /\
    NoDup (map (fun c => coordKey 6 (c_drop c)) added) /\
    (forall picks : list (RouteGeo * LatLng),
        NoDup (map (fun rp => coordKey 6 (snd rp)) picks) ->
        Forall (fun rp =>
                  rp ∈ tailPoints ((if sr then regs else []) ++ (if sa then alts else [])) /\
                  inBand dr radiusM (snd rp) /\ is_Some (drvOf (snd rp)) /\
                  coordKey 6 (snd rp) ∉ keysOf r2) picks ->
        (MIN_SUGGESTIONS - length r2 <= length picks)%nat ->
        length (r2 ++ added) = MIN_SUGGESTIONS).
Proof.
  intros Hw Hd Hbest E1 E2 L.
  set (visible := (if sr then regs else []) ++ (if sa then alts else [])) in *.
  assert (Forall (fun r => is_Some (sampleTail (r_coords r) SAMPLE_COUNT TAIL_FRACTION)) visible)
    as Fs.
  { unfold strictTier in E1. apply bind_Some in E1 as (all & w0 & E1 & _).
    exact (scanTails_samples _ _ _ _ _ E1). }
  destruct (closest_scan_accepts pu dr radiusM surge walkOf drvOf visible Hw Hd Fs w2)
    as [w3 E3].
  set (closestAll := closestAccepted dr radiusM surge walkOf drvOf (tailPoints visible)) in *.
  set (sorted := Array_sort (closestCmp dr surge) closestAll).
  set (fresh := freshByKey (keysOf r2) sorted).
  assert (closestTier pu dr radiusM surge visible r2 w2
          = Some (r2 ++ take (MIN_SUGGESTIONS - length r2) fresh, w3)) as E4.
  { unfold closestTier, bind. rewrite E3. unfold ret. rewrite mergeNew_eq by exact L. reflexivity. }
  assert (take (MIN_SUGGESTIONS - length r2) fresh `sublist_of` sorted) as Hs.
  { etransitivity; [apply sublist_take|apply freshByKey_sublist]. }
  exists (take (MIN_SUGGESTIONS - length r2) fresh), w3.
  assert (length (r2 ++ take (MIN_SUGGESTIONS - length r2) fresh) <= MIN_SUGGESTIONS)%nat as Hlen.
  { rewrite length_app, length_take. lia. }
  split; [|split; [reflexivity|split; [exact Hlen|]]].
  - unfold discover. rewrite Hbest. fold visible.
    unfold bind at 1. rewrite E1.
    change (length (@nil Candidate) <? MIN_SUGGESTIONS)%nat with true. cbv iota.
    unfold bind at 1. rewrite E2.
    destruct (Nat.ltb_spec (length r2) MIN_SUGGESTIONS) as [_|G]; [|lia].
    unfold bind at 1. rewrite E4. unfold ret.
    rewrite Array_slice_prefix, take_ge; [reflexivity|].
    unfold MIN_SUGGESTIONS, MAX_SUGGESTIONS in *. lia.
  - split; [|split; [|split; [|split]]].
    + eapply StronglySorted_sublist; [exact Hs|apply closest_sorted].
    + eapply Forall_sublist; [exact Hs|]. apply Array_sort_Forall.
      eapply scanTails_Forall; [apply closestPoint_answers|exact E3].
    + apply Forall_forall. intros c Hc. eapply freshByKey_new.
      eapply elem_of_sublist; [exact Hc|apply sublist_take].
    + rewrite <- firstn_map.
      eapply sublist_NoDup; [apply freshByKey_NoDup|apply sublist_take].
    + intros picks Hnd Hp Hk.
      assert (length picks <= length fresh)%nat as Hf.
      { etransitivity;
          [exact (accepted_picks_fresh dr radiusM surge walkOf drvOf _ _ picks Hnd Hp)|].
        unfold fresh, sorted. 
        apply freshByKey_length_ge; [apply freshByKey_NoDup|].
        intros c Hc. split; [|eapply freshByKey_new; exact Hc].
        rewrite Array_sort_perm. eapply elem_of_sublist; [exact Hc|apply freshByKey_sublist]. }
      rewrite length_app, length_take. lia.
Qed.

End Answers.

(** ** What the returned list holds *)

Section Returned.
Context `{Host}.

Lemma strictCmp_le surge best a b : strictCmp surge best a b <= 0 -> priceLe surge a b.
Proof.
  unfold strictCmp, priceLe.
  destruct (Qeq_bool _ _) eqn:E; cbn [negb].
  - apply Qeq_bool_iff in E. intros _. lra.
  - intros L. lra.
Qed.

Lemma strictCmp_gt surge best a b : ~ strictCmp surge best a b <= 0 -> priceLe surge b a.
Proof.
  unfold strictCmp, priceLe.
  destruct (Qeq_bool _ _) eqn:E; cbn [negb].
  - apply Qeq_bool_iff in E. intros _. lra.
  - intros L. lra.
Qed.

Lemma strict_sorted surge best l :
  StronglySorted (priceLe surge) (Array_sort (strictCmp surge best) l).
Proof.
  apply Sorted_StronglySorted.
  - intros a b c. unfold priceLe. apply Qle_trans.
  - apply (Array_sort_Sorted (strictCmp surge best) (priceLe surge)).
    + apply strictCmp_le.
    + apply strictCmp_gt.
Qed.

(** The candidates that a merging tier adds carry pairwise distinct keys,
    none of them among the keys it was given. *)
Lemma fresh_take_keys n have cs :
  NoDup (map candKey (take n (freshByKey have cs))) /\
  forall c, c ∈ take n (freshByKey have cs) -> candKey c ∉ have.
Proof.
  split.
  - rewrite <- firstn_map.
    eapply sublist_NoDup; [apply freshByKey_NoDup|apply sublist_take].
  - intros c Hc. eapply freshByKey_new.
    eapply elem_of_sublist; [exact Hc|apply sublist_take].
Qed.

Lemma keysOf_app_not_elem k (l1 l2 : list Candidate) :
  k ∉ keysOf (l1 ++ l2) -> (k ∉ keysOf l1) /\ (k ∉ map candKey l2).
Proof.
  intros N. split.
  - intros Hk. apply N. apply keysOf_spec in Hk as [c [Hc ->]].
    apply keysOf_spec. exists c. split; [|reflexivity]. apply elem_of_app. left. exact Hc.
  - intros Hk. apply N. apply list_elem_of_fmap in Hk as [c [-> Hc]].
    apply keysOf_spec. exists c. split; [|reflexivity]. apply elem_of_app. right. exact Hc.
Qed.

(** The parts of a returned list: the capped strict candidates, then
    what the relaxed and closest tiers added. *)
Lemma discover_parts pickup drop (sr sa : bool) (regs alts : list RouteGeo) radiusM surge
    w results w' :
  discover pickup drop sr sa regs alts radiusM surge w = Some (results, w') ->
  results = [] \/
  exists pu dr bestReg strictAll w1 added,
    pickup = Some pu /\ drop = Some dr /\
    head (Array_sort durationCmp regs) = Some bestReg /\
    scanTails (strictPoint pu dr radiusM surge (bestPriceOf surge bestReg)
                 DIST_FACTOR TIME_FACTOR PCT_IMPROVE ABS_IMPROVE_MIN)
      ((if sr then regs else []) ++ (if sa then alts else [])) w = Some (strictAll, w1) /\
    let capped := take MAX_SUGGESTIONS
                    (capRoute ∅ (Array_sort (strictCmp surge (bestPriceOf surge bestReg))
                                            strictAll)) in
    results = capped ++ added /\
    Forall (fun c => c_reason c = strict) capped /\
    Forall (fun c => c_reason c = fallback) added /\
    NoDup (map candKey added) /\
    (forall c, c ∈ added -> candKey c ∉ keysOf capped).
Proof.
  unfold discover. intros E.
  destruct pickup as [pu|]; [|apply ret_Some in E as [<- _]; left; reflexivity].
  destruct drop as [dr|]; [|apply ret_Some in E as [<- _]; left; reflexivity].
  destruct (head _) as [bestReg|] eqn:Eh; [|apply ret_Some in E as [<- _]; left; reflexivity].
  set (visible := (if sr then regs else []) ++ (if sa then alts else [])) in *.
  apply bind_Some in E as [capped [w1 [E1 E]]].
  apply bind_Some in E as [r2 [w2 [E2 E]]].
  apply bind_Some in E as [r3 [w3 [E3 E]]].
  apply ret_Some in E as [<- <-]. rewrite Array_slice_prefix.
  apply strictTier_spec in E1 as (strictAll & Es & Ec & F1 & L1 & _).
  assert (exists a2, r2 = capped ++ a2 /\ Forall (fun c => c_reason c = fallback) a2 /\
            NoDup (map candKey a2) /\ forall c, c ∈ a2 -> candKey c ∉ keysOf capped)
    as (a2 & -> & F2 & N2 & K2).
  { destruct (Nat.ltb_spec (length capped) MIN_SUGGESTIONS) as [L|L].
    - apply relaxedTier_spec in E2 as (relaxedAll & _ & F & ->); [|exact L].
      eexists. split; [reflexivity|]. split; [|apply fresh_take_keys].
      apply fresh_take_Forall. eapply Forall_impl; [exact F|].
      intros c Hc. apply sampledWith_recorded in Hc as [_ Hc]. exact Hc.
    - apply ret_Some in E2 as [<- _]. exists []. rewrite app_nil_r.
      split; [reflexivity|]. split; [constructor|]. split; [constructor|].
      intros c Hc. apply elem_of_nil in Hc. contradiction. }
  assert (exists a3, r3 = (capped ++ a2) ++ a3 /\ Forall (fun c => c_reason c = fallback) a3 /\
            NoDup (map candKey a3) /\ forall c, c ∈ a3 -> candKey c ∉ keysOf (capped ++ a2))
    as (a3 & -> & F3 & N3 & K3).
  { destruct (Nat.ltb_spec (length (capped ++ a2)) MIN_SUGGESTIONS) as [L|L].
    - apply closestTier_spec in E3 as (closestAll & _ & F & ->); [|exact L].
      eexists. split; [reflexivity|]. split; [|apply fresh_take_keys].
      apply fresh_take_Forall. eapply Forall_impl; [exact F|].
      intros c Hc. apply sampledWith_recorded in Hc as [_ Hc]. exact Hc.
    - apply ret_Some in E3 as [<- _]. exists []. rewrite app_nil_r.
      split; [reflexivity|]. split; [constructor|]. split; [constructor|].
      intros c Hc. apply elem_of_nil in Hc. contradiction. }
  right. exists pu, dr, bestReg, strictAll, w1, (take (MAX_SUGGESTIONS - length capped) (a2 ++ a3)).
  split; [reflexivity|]. split; [reflexivity|]. split; [reflexivity|]. split; [exact Es|].
  cbv zeta. rewrite <- Ec.
  assert (take (MAX_SUGGESTIONS - length capped) (a2 ++ a3) `sublist_of` a2 ++ a3) as Hs
    by apply sublist_take.
  split; [|split; [|split; [|split]]].
  - rewrite <- app_assoc, take_app, (take_ge capped) by exact L1. reflexivity.
  - eapply Forall_impl; [exact F1|].
    intros c Hc. apply sampledWith_recorded in Hc as [_ Hc]. exact Hc.
  - eapply Forall_sublist; [exact Hs|]. apply Forall_app. split; assumption.
  - eapply sublist_NoDup; [|apply fmap_sublist; exact Hs].
    rewrite map_app. apply NoDup_app. split; [exact N2|]. split; [|exact N3].
    intros k Hk Hk'. apply list_elem_of_fmap in Hk' as [c [-> Hc]].
    apply K3, keysOf_app_not_elem in Hc as [_ Hc]. contradiction.
  - intros c Hc. apply (elem_of_sublist _ _ _ Hc) in Hs.
    apply elem_of_app in Hs as [Hin|Hin]; [apply K2; exact Hin|].
    apply K3, keysOf_app_not_elem in Hin as [Hin _]. exact Hin.
Qed.

(** X13.  Every strict candidate of a returned list was sampled from
    the tail of a visible route, is made of the answers that the walking
    and the driving provider gave for that point, and has passed the
    strict thresholds: its drive is at most [DIST_FACTOR] (0.88) of the
    distance and [TIME_FACTOR] (0.88) of the duration of that route, and
    its modeled price undercuts the price of the fastest regular route
    by at least [ABS_IMPROVE_MIN] (1.75) and by at least the fraction
    [PCT_IMPROVE] (0.12). *)
Theorem strict_candidates_beat_thresholds
    pickup drop (sr sa : bool) (regs alts : list RouteGeo) radiusM surge w results w' :
  discover pickup drop sr sa regs alts radiusM surge w = Some (results, w') ->
  forall c, c ∈ results -> c_reason c = strict ->
    exists pu dr bestReg r pts wk drv,
      pickup = Some pu /\ drop = Some dr /\
      head (Array_sort durationCmp regs) = Some bestReg /\
      r ∈ (if sr then regs else []) ++ (if sa then alts else []) /\
      sampleTail (r_coords r) SAMPLE_COUNT TAIL_FRACTION = Some pts /\
      c_drop c ∈ pts /\
      inBand dr radiusM (c_drop c) /\
      answered pu dr (c_drop c) wk (Some drv) /\
      c = candidateFor dr surge strict r (c_drop c) wk drv /\
      distance drv <= DIST_FACTOR * r_distance r /\
      duration drv <= TIME_FACTOR * r_duration r /\
      ABS_IMPROVE_MIN <= bestPriceOf surge bestReg - candPrice surge c /\
      PCT_IMPROVE <= (bestPriceOf surge bestReg - candPrice surge c) / bestPriceOf surge bestReg.
Proof.
  intros E c Hc Hs. apply discover_parts in E as [->|E].
  { apply elem_of_nil in Hc. contradiction. }
  destruct E as (pu & dr & bestReg & strictAll & w1 & added & -> & -> & Eh & Es & E).
  cbv zeta in E. destruct E as (-> & _ & F2 & _ & _).
  apply elem_of_app in Hc as [Hc|Hc].
  - pose proof (scanTails_Forall _ _ _ _ _ _
                  (strictPoint_answers pu dr radiusM surge (bestPriceOf surge bestReg)
                     DIST_FACTOR TIME_FACTOR PCT_IMPROVE ABS_IMPROVE_MIN) Es) as F.
    apply (Array_sort_Forall _ (strictCmp surge (bestPriceOf surge bestReg))) in F.
    rewrite Forall_forall in F.
    destruct (F c) as (r & pts & p & Hr & Ep & Hp & K).
    { eapply elem_of_sublist; [exact Hc|].
      etransitivity; [apply sublist_take|apply capRoute_sublist]. }
    destruct K as ((B & wk & drv & A & Ec) & K4 & K5 & K6 & K7).
    assert (c_drop c = p) as Ed by (rewrite Ec; reflexivity).
    exists pu, dr, bestReg, r, pts, wk, drv. rewrite Ed.
    split; [reflexivity|]. split; [reflexivity|]. split; [exact Eh|]. split; [exact Hr|].
    split; [exact Ep|]. split; [exact Hp|]. split; [exact B|]. split; [exact A|].
    split; [exact Ec|].
    rewrite Ec in K4, K5. cbn [candidateFor c_drive distance_m duration_s] in K4, K5.
    split; [exact K4|]. split; [exact K5|]. split; assumption.
  - rewrite Forall_forall in F2. rewrite (F2 c Hc) in Hs. discriminate.
Qed.

(** X14.  A returned list is the capped strict candidates followed by
    the fallback candidates that the relaxed and closest merges added;
    the strict ones are listed by ascending modeled price (largest
    saving first); the added ones carry pairwise distinct 6-decimal
    keys, none of which is the key of a strict candidate.  So two
    entries of a returned list can share a key only if both are strict,
    and the list is free of duplicates whenever its strict part is. *)
Theorem merged_candidates_have_new_keys
    pickup drop (sr sa : bool) (regs alts : list RouteGeo) radiusM surge w results w' :
  discover pickup drop sr sa regs alts radiusM surge w = Some (results, w') ->
  exists capped added,
    results = capped ++ added /\
    Forall (fun c => c_reason c = strict) capped /\
    Forall (fun c => c_reason c = fallback) added /\
    StronglySorted (priceLe surge) capped /\
    NoDup (map candKey added) /\
    (forall a c, a ∈ added -> c ∈ capped -> candKey a <> candKey c) /\
    (NoDup (map candKey capped) -> NoDup (map candKey results)).
Proof.
  intros E. apply discover_parts in E as [->|E].
  { exists [], []. repeat split; try constructor.
    intros a c Ha. apply elem_of_nil in Ha. contradiction. }
  destruct E as (pu & dr & bestReg & strictAll & w1 & added & -> & -> & Eh & Es & E).
  cbv zeta in E. destruct E as (-> & F1 & F2 & N & K).
  set (capped := take MAX_SUGGESTIONS _) in *.
  assert (forall a c, a ∈ added -> c ∈ capped -> candKey a <> candKey c) as D.
  { intros a c Ha Hc Eq. apply (K a Ha). apply keysOf_spec. exists c. split; [exact Hc|exact Eq]. }
  exists capped, added. split; [reflexivity|]. split; [exact F1|]. split; [exact F2|].
  split; [|split; [exact N|split; [exact D|]]].
  - eapply StronglySorted_sublist; [|apply strict_sorted].
    etransitivity; [apply sublist_take|apply capRoute_sublist].
  - intros Nc. rewrite map_app. apply NoDup_app. split; [exact Nc|]. split; [|exact N].
    intros k Hk Hk'.
    apply list_elem_of_fmap in Hk as [c [-> Hc]]. apply list_elem_of_fmap in Hk' as [a [Eq Ha]].
    exact (D a c Ha Hc (eq_sym Eq)).
Qed.

Lemma sorted_head_least (l : list RouteGeo) (best : RouteGeo) :
  head (Array_sort durationCmp l) = Some best ->
  best ∈ l /\ Forall (fun r => r_duration best <= r_duration r) l.
Proof.
  intros Eh.
  assert (StronglySorted durationLe (Array_sort durationCmp l)) as S.
  { apply Sorted_StronglySorted.
    - intros a b c. unfold durationLe. apply Qle_trans.
    - apply (Array_sort_Sorted durationCmp durationLe).
      + intros a b. unfold durationCmp, durationLe. lra.
      + intros a b. unfold durationCmp, durationLe. lra. }
  apply head_Some in Eh as [rest Eq]. rewrite Eq in S.
  apply StronglySorted_inv in S as [_ F].
  assert (best ∈ Array_sort durationCmp l) as Hin by (rewrite Eq; apply elem_of_cons; auto).
  rewrite Array_sort_perm in Hin. split; [exact Hin|].
  apply Forall_forall. intros r Hr. rewrite <- (Array_sort_perm durationCmp) in Hr.
  rewrite Eq in Hr. apply elem_of_cons in Hr as [->|Hr]; [apply Qle_refl|].
  rewrite Forall_forall in F. apply F. exact Hr.
Qed.

End Returned.

(** X15.  The "cheapest regular" route, whose price the page shows as
    the regular price and against which the strict tier measures
    savings, is the regular route of least duration (not of least
    price): it exists whenever there is a regular route, it is one of
    them, and no regular route is faster. *)
Theorem cheapest_regular_is_fastest (regularRoutes : list RouteGeo) :
  (cheapestRegular regularRoutes = None <-> regularRoutes = []) /\
  cheapestRegular regularRoutes = head (Array_sort durationCmp regularRoutes) /\
  forall best, cheapestRegular regularRoutes = Some best ->
    best ∈ regularRoutes /\
    Forall (fun r => r_duration best <= r_duration r) regularRoutes.
Proof.
  assert (cheapestRegular regularRoutes = head (Array_sort durationCmp regularRoutes)) as E.
  { unfold cheapestRegular. destruct regularRoutes as [|r l]; [reflexivity|].
    cbn [length Nat.eqb]. unfold Array_get. cbn [Z.ltb Z.compare Z.to_nat].
    destruct (Array_sort durationCmp (r :: l)); reflexivity. }
  split; [|split; [exact E|]].
  - rewrite E. split.
    + intros N. apply head_None in N.
      pose proof (Array_sort_length durationCmp regularRoutes) as L. rewrite N in L.
      destruct regularRoutes; [reflexivity|discriminate].
    + intros ->. reflexivity.
  - intros best Eb. rewrite E in Eb. apply sorted_head_least. exact Eb.
Qed.

(** ** The route builder *)

Lemma Array_slice_nat {A} (l : list A) (a b : nat) :
  Array_slice l (Z.of_nat a) (Z.of_nat b) = take (b - a) (drop a l).
Proof.
  unfold Array_slice, rel_index.
  destruct (Z.ltb_spec (Z.of_nat a) 0); [lia|]. destruct (Z.ltb_spec (Z.of_nat b) 0); [lia|].
  destruct (Nat.le_gt_cases (length l) a) as [G|G].
  - rewrite (drop_ge l a) by exact G. rewrite take_nil.
    replace (Z.to_nat (Z.min (Z.of_nat a) (Z.of_nat (length l)))) with (length l) by lia.
    rewrite drop_ge by lia. apply take_nil.
  - replace (Z.to_nat (Z.min (Z.of_nat a) (Z.of_nat (length l)))) with a by lia.
    destruct (Nat.le_gt_cases b (length l)) as [G'|G'].
    + f_equal. lia.
    + rewrite !take_ge; [reflexivity| |]; rewrite length_drop; lia.
Qed.

Lemma statsOf_imap (f : nat -> RouteStats -> RouteGeo) (l : list RouteStats) :
  (forall i x, statsOf (f i x) = x) -> map statsOf (imap f l) = l.
Proof.
  revert f. induction l as [|x l IH]; intros f Hf; [reflexivity|].
  rewrite imap_cons. cbn [map]. rewrite Hf. f_equal. apply IH. intros i y. apply Hf.
Qed.

Lemma Forall_imap {A B} (P : B -> Prop) (f : nat -> A -> B) (l : list A) :
  (forall i x, P (f i x)) -> Forall P (imap f l).
Proof.
  revert f. induction l as [|x l IH]; intros f Hf; [constructor|].
  rewrite imap_cons. constructor; [apply Hf|]. apply IH. intros i y. apply Hf.
Qed.

Lemma take_imap {A B} (f : nat -> A -> B) (l : list A) (n : nat) :
  take n (imap f l) = imap f (take n l).
Proof.
  revert f n. induction l as [|x l IH]; intros f n.
  - rewrite take_nil. cbn. apply take_nil.
  - destruct n as [|n]; [reflexivity|]. cbn [take]. rewrite !imap_cons. cbn [take].
    f_equal. apply IH.
Qed.

Lemma sorted_by_stats (l : list RouteGeo) :
  StronglySorted statsLe (map statsOf l) -> StronglySorted durationLe l.
Proof.
  induction l as [|r l IH]; intros S; [constructor|].
  cbn [map] in S. apply StronglySorted_inv in S as [S F].
  constructor; [apply IH; exact S|].
  apply Forall_forall. intros r' Hr'. rewrite Forall_forall in F.
  apply (F (statsOf r')). apply list_elem_of_fmap. exists r'. split; [reflexivity|exact Hr'].
Qed.

Lemma stats_sorted (l : list RouteStats) : StronglySorted statsLe (Array_sort statsCmp l).
Proof.
  apply Sorted_StronglySorted.
  - intros a b c. unfold statsLe. apply Qle_trans.
  - apply (Array_sort_Sorted statsCmp statsLe).
    + intros a b. unfold statsCmp, statsLe. lra.
    + intros a b. unfold statsCmp, statsLe. lra.
Qed.

(** Sorting by duration leaves a list alone that is already in order:
    the sort is stable. *)
Lemma Array_sort_sorted_id (l : list RouteGeo) :
  StronglySorted durationLe l -> Array_sort durationCmp l = l.
Proof.
  induction 1 as [|x l S IH F]; [reflexivity|].
  cbn [Array_sort]. rewrite IH. destruct l as [|y l]; [reflexivity|].
  cbn [sort_insert]. apply Forall_cons in F as [F _].
  unfold durationLe in F. unfold durationCmp.
  assert (Qle_bool (r_duration x - r_duration y) 0 = true) as -> by (apply Qle_bool_iff; lra).
  reflexivity.
Qed.

Lemma regular_labels (l : list RouteStats) :
  (length l <= 2)%nat -> map r_label (imap asRegular l) = take (length l) REG_LABELS.
Proof.
  destruct l as [|a [|b [|c l]]]; cbn [length]; intros L; try reflexivity. lia.
Qed.

Lemma alternate_labels (l : list RouteStats) :
  (length l <= 3)%nat -> map r_label (imap asAlternate l) = take (length l) ALT_LABELS.
Proof.
  destruct l as [|a [|b [|c [|d l]]]]; cbn [length]; intros L; try reflexivity. lia.
Qed.

Lemma find_by_label (l : list RouteGeo) (r : RouteGeo) :
  NoDup (map r_label l) -> r ∈ l ->
  find (fun x => bool_decide (r_label x = r_label r)) l = Some r.
Proof.
  induction l as [|x l IH]; intros N Hr; [apply elem_of_nil in Hr; contradiction|].
  cbn [map] in N. apply NoDup_cons in N as [Nx N]. cbn [find].
  apply elem_of_cons in Hr as [->|Hr].
  - rewrite bool_decide_eq_true_2 by reflexivity. reflexivity.
  - rewrite bool_decide_eq_false_2; [apply IH; assumption|].
    intros Eq. apply Nx. rewrite Eq. apply list_elem_of_fmap. exists r. split; [reflexivity|exact Hr].
Qed.

Section Routes.
Context `{Host} `{!Geocoder}.

Lemma tryCatch_Some {A} (m handler : M A) w a w' :
  tryCatch m handler w = Some (a, w') ->
  m w = Some (a, w') \/ (m w = None /\ handler w = Some (a, w')).
Proof.
  unfold tryCatch. destruct (m w) as [[a0 w0]|].
  - intros E. left. exact E.
  - intros E. right. split; [reflexivity|exact E].
Qed.

Lemma tryCatch_total {A} (m handler : M A) w :
  (forall w0, is_Some (handler w0)) -> is_Some (tryCatch m handler w).
Proof.
  intros Hh. unfold tryCatch. destruct (m w) as [[a0 w0]|]; [eexists; reflexivity|apply Hh].
Qed.

Lemma surgeOf_range fastest free : 1 <= surgeOf fastest free /\ surgeOf fastest free <= 1.3.
Proof.
  unfold surgeOf. split.
  { eapply Qle_trans; [|apply Math_max_l]. vm_compute. discriminate. }
  apply Math_max_lub; [vm_compute; discriminate|].
  unfold Math_min. set (x := duration fastest / _).
  destruct (Qle_bool 1.3 x) eqn:E.
  - apply Qle_refl.
  - apply Qlt_le_weak. apply (proj1 (Qleb_gt 1.3 x)). exact E.
Qed.

(** The stages of a run of the route builder that finds routes. *)
Lemma buildRoutes_inv pu dr w u w' :
  buildRoutes (Some pu) (Some dr) w = Some (u, w') ->
  exists routes w1,
    mapboxDirections [pu; dr] driving_traffic true w = Some (routes, w1) /\
    ((default [] routes = [] /\ w' = w1 /\
      u = {| set_surgeProxy := None; set_regularRoutes := Some [];
             set_altRoutes := Some []; set_baselineAddr := None |}) \/
     (default [] routes <> [] /\
      exists surge addr,
        1 <= surge /\ surge <= 1.3 /\
        u = {| set_surgeProxy := Some surge;
               set_regularRoutes :=
                 Some (imap asRegular (take REG_MAX (Array_sort statsCmp (default [] routes))));
               set_altRoutes :=
                 Some (imap asAlternate
                         (take ALT_MAX (drop REG_MAX (Array_sort statsCmp (default [] routes)))));
               set_baselineAddr := addr |})).
Proof.
  unfold buildRoutes. intros E. apply bind_Some in E as [routes [w1 [E1 E]]].
  exists routes, w1. split; [exact E1|].
  destruct routes as [[|r0 rs]|].
  - left. apply ret_Some in E as [<- <-]. auto.
  - right. split; [discriminate|]. cbn [default].
    apply bind_Some in E as [surge [w2 [E2 E]]].
    apply bind_Some in E as [rev [w3 [E3 E]]].
    apply ret_Some in E as [<- <-].
    exists surge. eexists.
    assert (1 <= surge /\ surge <= 1.3) as [S1 S2].
    { apply tryCatch_Some in E2 as [E2|[_ E2]].
      - apply bind_Some in E2 as [fastest [w4 [_ E2]]].
        apply bind_Some in E2 as [free [w5 [_ E2]]].
        apply ret_Some in E2 as [<- _]. apply surgeOf_range.
      - apply ret_Some in E2 as [<- _]. split; vm_compute; discriminate. }
    split; [exact S1|]. split; [exact S2|].
    change (Z.of_nat (REG_MAX + ALT_MAX)) with (Z.of_nat 5).
    change 0%Z with (Z.of_nat 0).
    rewrite !Array_slice_nat. rewrite !drop_0, !Nat.sub_0_r.
    change (5 - REG_MAX)%nat with ALT_MAX.
    rewrite take_imap, take_idemp. reflexivity.
  - left. apply ret_Some in E as [<- <-]. auto.
Qed.

Lemma built_routes_sorted_prefix pu dr w w' u regs :
  buildRoutes (Some pu) (Some dr) w = Some (u, w') ->
  set_regularRoutes u = Some regs ->
  StronglySorted durationLe regs /\ map r_label regs = take (length regs) REG_LABELS.
Proof.
  intros E Er.
  apply buildRoutes_inv in E as (routes & w1 & _ & [(_ & _ & ->)|(_ & s & addr & _ & _ & ->)]);
    cbn in Er; injection Er as <-.
  - split; [constructor|reflexivity].
  - split.
    + apply sorted_by_stats. rewrite statsOf_imap by (intros i [? ? ?]; reflexivity).
      eapply StronglySorted_sublist; [apply sublist_take|apply stats_sorted].
    + rewrite length_imap. apply regular_labels. rewrite length_take. unfold REG_MAX. lia.
Qed.

(** X16.  A run of the route builder fails only when the traffic-aware
    directions call itself is rejected: a rejected free-flow call leaves
    the surge at 1.0 and a rejected reverse geocoding only leaves the
    address line unset. *)
Theorem route_builder_rejects_only_with_traffic_call (pu dr : LatLng) (w : World) :
  buildRoutes (Some pu) (Some dr) w = None <->
  mapboxDirections [pu; dr] driving_traffic true w = None.
Proof.
  unfold buildRoutes, bind at 1. split.
  - destruct (mapboxDirections [pu; dr] driving_traffic true w) as [[routes w1]|];
      [|reflexivity].
    intros E. exfalso.
    destruct routes as [[|r0 rs]|]; try discriminate E.
    match type of E with
    | ?t = None => assert (is_Some t) as [x Ex]; [|rewrite Ex in E; discriminate]
    end.
    apply bind_total; [apply tryCatch_total; intros; apply ret_total|].
    intros surge w2. apply bind_total; [apply tryCatch_total; intros; apply ret_total|].
    intros rev w3. apply ret_total.
  - intros ->. reflexivity.
Qed.

(** X17.  The surge proxy that the route builder sets always lies
    between 1.0 and 1.3. *)
Theorem surge_proxy_within_bounds (pickup drop : option LatLng) (w w' : World) u surge :
  buildRoutes pickup drop w = Some (u, w') ->
  set_surgeProxy u = Some surge ->
  1 <= surge /\ surge <= 1.3.
Proof.
  intros E Es. destruct pickup as [pu|], drop as [dr|];
    try (apply ret_Some in E as [<- _]; discriminate).
  apply buildRoutes_inv in E as (routes & w1 & _ & [(_ & _ & ->)|(_ & s & addr & S1 & S2 & ->)]).
  - discriminate.
  - cbn in Es. injection Es as <-. split; assumption.
Qed.

(** X18.  The routes that the route builder lists are the five fastest
    routes of the provider's answer, fastest first: the first two become
    the regular routes and the next three the alternates, so alternates
    are listed only when there are more than two routes, and no
    alternate is faster than a regular route. *)
Theorem built_routes_are_the_fastest_five (pu dr : LatLng) (w w' : World) u :
  buildRoutes (Some pu) (Some dr) w = Some (u, w') ->
  exists routes w1 regs alts,
    mapboxDirections [pu; dr] driving_traffic true w = Some (routes, w1) /\
    set_regularRoutes u = Some regs /\ set_altRoutes u = Some alts /\
    map statsOf (regs ++ alts)
    = take (REG_MAX + ALT_MAX) (Array_sort statsCmp (default [] routes)) /\
    length regs = Nat.min REG_MAX (length (default [] routes)) /\
    Forall (fun r => r_kind r = regular) regs /\
    Forall (fun r => r_kind r = alternate) alts /\
    StronglySorted durationLe (regs ++ alts).
Proof.
  intros E.
  apply buildRoutes_inv in E as (routes & w1 & E1 & [(En & _ & ->)|(_ & s & addr & _ & _ & ->)]).
  - exists routes, w1, [], []. rewrite En. repeat split; try constructor. exact E1.
  - set (sorted := Array_sort statsCmp (default [] routes)).
    exists routes, w1, (imap asRegular (take REG_MAX sorted)),
      (imap asAlternate (take ALT_MAX (drop REG_MAX sorted))).
    assert (map statsOf (imap asRegular (take REG_MAX sorted)
                         ++ imap asAlternate (take ALT_MAX (drop REG_MAX sorted)))
            = take (REG_MAX + ALT_MAX) sorted) as Em.
    { rewrite map_app, !statsOf_imap by (intros i [? ? ?]; reflexivity).
      apply take_take_drop. }
    split; [exact E1|]. split; [reflexivity|]. split; [reflexivity|]. split; [exact Em|].
    split; [|split; [|split]].
    + rewrite length_imap, length_take. unfold sorted. rewrite Array_sort_length. reflexivity.
    + apply Forall_imap. reflexivity.
    + apply Forall_imap. reflexivity.
    + apply sorted_by_stats. rewrite Em.
      eapply StronglySorted_sublist; [apply sublist_take|apply stats_sorted].
Qed.

(** X19.  The labels of the listed routes are "Regular A", "Regular B"
    and "Alternate 1" to "Alternate 3", in this order and without
    repetition; so the route that a card looks up by a candidate's
    label is the route that the candidate was sampled from. *)
Theorem built_route_labels_identify_routes (pu dr : LatLng) (w w' : World) u regs alts :
  buildRoutes (Some pu) (Some dr) w = Some (u, w') ->
  set_regularRoutes u = Some regs -> set_altRoutes u = Some alts ->
  map r_label regs = take (length regs) REG_LABELS /\
  map r_label alts = take (length alts) ALT_LABELS /\
  NoDup (map r_label (regs ++ alts)) /\
  forall r c, r ∈ regs ++ alts -> c_routeIdx c = r_label r ->
    baseForRouteOf regs alts c = Some r.
Proof.
  intros E Er Ea.
  assert (map r_label regs = take (length regs) REG_LABELS /\
          map r_label alts = take (length alts) ALT_LABELS) as [L1 L2].
  { apply buildRoutes_inv in E as (routes & w1 & _ & [(_ & _ & ->)|(_ & s & addr & _ & _ & ->)]);
      cbn in Er, Ea; injection Er as <-; injection Ea as <-.
    - split; reflexivity.
    - rewrite !length_imap. split.
      + apply regular_labels. rewrite length_take. unfold REG_MAX. lia.
      + apply alternate_labels. rewrite length_take. unfold ALT_MAX. lia. }
  assert (NoDup (map r_label (regs ++ alts))) as N.
  { rewrite map_app, L1, L2.
    eapply sublist_NoDup; [|apply sublist_app; apply sublist_take].
    apply (bool_decide_unpack _). vm_compute. reflexivity. }
  split; [exact L1|]. split; [exact L2|]. split; [exact N|].
  intros r c Hr Hc. unfold baseForRouteOf. rewrite Hc. apply find_by_label; assumption.
Qed.

(** X20.  The baseline of the strict tier is always "Regular A": the
    regular routes are listed fastest first, and the stable sort by
    duration that picks the cheapest regular route leaves them in
    place. *)
Theorem baseline_is_regular_A (pu dr : LatLng) (w w' : World) u regs :
  buildRoutes (Some pu) (Some dr) w = Some (u, w') ->
  set_regularRoutes u = Some regs -> regs <> [] ->
  exists first,
    head regs = Some first /\ r_label first = "Regular A" /\
    cheapestRegular regs = Some first /\
    head (Array_sort durationCmp regs) = Some first.
Proof.
  intros E Er Hne.
  destruct (built_routes_sorted_prefix pu dr w w' u regs E Er) as [S L].
  destruct regs as [|first rest]; [congruence|]. exists first.
  rewrite (Array_sort_sorted_id _ S) in *.
  split; [reflexivity|]. split.
  - cbn in L. injection L as L _. exact L.
  - split; [|reflexivity]. unfold cheapestRegular. cbn [length Nat.eqb].
    rewrite (Array_sort_sorted_id _ S). reflexivity.
Qed.

End Routes.

(** ** Geometry comparison *)

Section Overlap.
Context `{Host}.

Lemma nearestLoop_within (p : LatLng) (tolM : Q) (basePts : list LatLng) :
  forall best,
    match best with Some x => tolM < x | None => True end ->
    match nearestLoop p tolM basePts best with Some x => Qleb x tolM | None => false end
    = nearSome tolM basePts p.
Proof.
  induction basePts as [|b rest IH]; intros best Hb; cbn [nearestLoop nearSome existsb].
  - destruct best as [x|]; [|reflexivity]. apply Qleb_gt. exact Hb.
  - fold (nearSome tolM rest p).
    destruct (Qleb (haversineMeters p b) tolM) eqn:Ed; cbn [orb].
    + assert (match best with
              | Some x => if Qltb (haversineMeters p b) x
                          then Some (haversineMeters p b) else Some x
              | None => Some (haversineMeters p b)
              end = Some (haversineMeters p b)) as ->.
      { destruct best as [x|]; [|reflexivity].
        apply Qleb_le in Ed.
        assert (Qltb (haversineMeters p b) x = true) as -> by (apply Qltb_lt; lra).
        reflexivity. }
      rewrite Ed. exact Ed.
    + apply Qleb_gt in Ed.
      destruct best as [x|].
      * destruct (Qltb (haversineMeters p b) x) eqn:El.
        -- assert (Qleb (haversineMeters p b) tolM = false) as -> by (apply Qleb_gt; exact Ed).
           apply IH. exact Ed.
        -- assert (Qleb x tolM = false) as -> by (apply Qleb_gt; exact Hb).
           apply IH. exact Hb.
      * assert (Qleb (haversineMeters p b) tolM = false) as -> by (apply Qleb_gt; exact Ed).
        apply IH. exact Ed.
Qed.

Lemma within_count (tolM : Q) (basePts : list LatLng) (alt : list (Q * Q)) :
  forall n,
    fold_left (fun within c =>
                 let p := {| lat := snd c; lng := fst c |} in
                 let best := nearestLoop p tolM basePts None in
                 if match best with Some x => Qleb x tolM | None => false end
                 then (within + 1)%nat else within) alt n
    = (n + length (List.filter (fun c => nearSome tolM basePts (pointOf c)) alt))%nat.
Proof.
  induction alt as [|c alt IH]; intros n; cbn [fold_left List.filter]; [cbn; lia|].
  rewrite IH. cbv zeta. rewrite (nearestLoop_within _ tolM basePts None I).
  unfold pointOf. destruct (nearSome _ _ _); cbn [length]; lia.
Qed.

Lemma everyNth_one {A} (l : list A) : forall i, everyNth 1 i l = l.
Proof.
  induction l as [|x l IH]; intros i; [reflexivity|].
  cbn [everyNth]. rewrite Nat.mod_1_r. cbn [Nat.eqb]. f_equal. apply IH.
Qed.

(** X21.  [pathOverlapPct] is the share of the points of [alt] that lie
    within [tolM] of some compared base point, a number from 0 to 1 (and
    1 when either geometry is empty); leaving the inner loop at the
    first base point within tolerance does not change the count.  The
    compared base points are every [floor(n / 200)]-th point of [base],
    hence all of them when [base] has fewer than 400 points. *)
Theorem overlap_is_share_of_near_points (base alt : list (Q * Q)) (tolM : Q) :
  0 <= pathOverlapPct base alt tolM /\ pathOverlapPct base alt tolM <= 1 /\
  (base = [] \/ alt = [] -> pathOverlapPct base alt tolM = 1) /\
  (base <> [] -> alt <> [] ->
     pathOverlapPct base alt tolM * inject_Z (Z.of_nat (length alt))
     == inject_Z (Z.of_nat (length (List.filter
                                      (fun c => nearSome tolM (basePtsOf base) (pointOf c)) alt)))) /\
  ((length base < 400)%nat -> basePtsOf base = map pointOf base).
Proof.
  assert (base <> [] -> alt <> [] ->
          pathOverlapPct base alt tolM
          = inject_Z (Z.of_nat (length (List.filter
                                          (fun c => nearSome tolM (basePtsOf base) (pointOf c)) alt)))
            / inject_Z (Z.of_nat (length alt))) as E.
  { intros Hb Ha. unfold pathOverlapPct.
    destruct base as [|b0 base]; [congruence|]. destruct alt as [|a0 alt]; [congruence|].
    cbn [length Nat.eqb orb]. cbv zeta.
    rewrite (within_count tolM _ (a0 :: alt) 0). reflexivity. }
  assert (forall l : list (Q * Q), l <> [] -> 0 < inject_Z (Z.of_nat (length l))) as Hpos.
  { intros l Hl. rewrite <- (Zlt_Qlt 0). destruct l; [congruence|]. cbn [length]. lia. }
  assert (base = [] \/ alt = [] -> pathOverlapPct base alt tolM = 1) as E1.
  { intros [->| ->]; unfold pathOverlapPct; [reflexivity|].
    destruct (length base =? 0)%nat; reflexivity. }
  split; [|split; [|split; [exact E1|split]]].
  - destruct base as [|b0 base]; [rewrite E1 by auto; discriminate|].
    destruct alt as [|a0 alt]; [rewrite E1 by auto; discriminate|].
    rewrite E by discriminate. apply Qle_shift_div_l; [apply Hpos; discriminate|].
    rewrite Qmult_0_l, <- (Zle_Qle 0). lia.
  - destruct base as [|b0 base]; [rewrite E1 by auto; apply Qle_refl|].
    destruct alt as [|a0 alt]; [rewrite E1 by auto; apply Qle_refl|].
    rewrite E by discriminate. apply Qle_shift_div_r; [apply Hpos; discriminate|].
    rewrite Qmult_1_l, <- Zle_Qle. apply inj_le. apply filter_length_le.
  - intros Hb Ha. rewrite (E Hb Ha). field.
    intros Z0. pose proof (Hpos alt Ha) as P. rewrite Z0 in P. discriminate.
  - intros L. unfold basePtsOf.
    assert (Z.to_nat (Z.max 1 (Z.of_nat (length base) / 200)) = 1%nat) as ->.
    { assert (Z.of_nat (length base) / 200 <= 1)%Z; [|lia].
      apply Z.lt_succ_r. apply Z.div_lt_upper_bound; lia. }
    rewrite everyNth_one. reflexivity.
Qed.

End Overlap.

(** ** The places search route *)





(** ** The earlier pipelines of [page.tsx] *)

Section Earlier.
Context `{Host}.
Hypothesis sort_rearranges : forall A cmp (l l' : list A) w w',
  Array_sort_eff A cmp l w = Some (l', w') -> Permutation l l'.

(** A scan of route tails whose point body only appends candidates that
    satisfy [P] returns such candidates only, each for a sampled point. *)
Lemma scan_Forall {C} (P : RouteGeo -> LatLng -> C -> Prop)
    (point : RouteGeo -> LatLng -> list C -> M (list C)) (routes : list RouteGeo) w all w' :
  (forall r p s w0 s' w0', point r p s w0 = Some (s', w0') ->
     exists added, s' = s ++ added /\ Forall (P r p) added) ->
  forEach (fun r all =>
             let* tailPts := liftOpt (sampleTail (r_coords r) SAMPLE_COUNT TAIL_FRACTION) in
             forEach (point r) tailPts all) routes [] w = Some (all, w') ->
  Forall (sampledFrom P routes) all.
Proof.
  intros Hp E.
  eapply (forEach_inv (Forall _)); [| |exact E]; [|constructor].
  intros r s w0 s' w0' Hr Hs E0.
  apply bind_Some in E0 as [pts [w1 [Epts E1]]].
  apply liftOpt_Some in Epts as [Epts _].
  eapply (forEach_inv (Forall _)); [|exact Hs|exact E1].
  intros p s1 w2 s1' w2' Hin Hs1 E2.
  destruct (Hp _ _ _ _ _ _ E2) as [added [-> Fa]].
  apply Forall_app. split; [exact Hs1|].
  eapply Forall_impl; [exact Fa|]. intros c Hc. exists r, pts, p. auto.
Qed.

Ltac accepted_here :=
  repeat match goal with
         | E : negb _ = false |- _ => apply negb_false_iff, andb_prop in E; destruct E
         | E : Qleb _ _ = true |- _ => apply Qleb_le in E
         | E : Qltb _ _ = false |- _ => apply Qltb_ge in E
         | E : (_ >? _)%Z = false |- _ => rewrite Z.gtb_ltb in E; apply Z.ltb_ge in E
         end;
  split; [assumption|];
  eexists; eexists; split; [eexists; eexists; eexists; split; eassumption|].

Lemma pointV1_accepts pu dr radiusM r p all w all' w' :
  PageV1.point pu dr radiusM r p all w = Some (all', w') ->
  exists added, all' = all ++ added /\ Forall (acceptedV1 pu dr radiusM r p) added.
Proof.
  unfold PageV1.point, PageV2.modeledPriceUSD, bind, ret, liftTotal.
  intros E. repeat case_match; simplify_eq;
    first [ apply appends_none | apply appends_one ].
  all: unfold acceptedV1; accepted_here.
  all: cbn [PageV1.c_drop PageV1.c_parent PageV1.c_walkMin PageV1.c_drive
            PageV1.leg_distance_m PageV1.leg_duration_s walkMinutesOf].
  all: repeat (split; [first [reflexivity|assumption]|]); assumption.
Qed.

Lemma buildPoint_accepts pu dr radiusM strictPass r p all w all' w' :
  PageV2.buildPoint pu dr radiusM strictPass r p all w = Some (all', w') ->
  exists added, all' = all ++ added /\ Forall (acceptedV2 pu dr radiusM strictPass r p) added.
Proof.
  unfold PageV2.buildPoint, PageV2.modeledPriceUSD, bind, ret, liftTotal.
  intros E. repeat case_match; simplify_eq;
    first [ apply appends_none | apply appends_one ].
  all: unfold acceptedV2; accepted_here.
  all: cbn [walkMinutesOf].
  all: repeat (split; [first [reflexivity|assumption]|]); assumption.
Qed.

Lemma dedupCap_spec (P : PageV1.Candidate -> Prop) all :
  forall seen dedup,
    Forall P all -> Forall P dedup ->
    NoDup (map (fun c => coordKey 5 (PageV1.c_drop c)) dedup) ->
    (forall c, c ∈ dedup -> coordKey 5 (PageV1.c_drop c) ∈ seen) ->
    (length dedup < PageV1.CAND_MAX)%nat ->
    Forall P (PageV1.dedupCap all seen dedup) /\
    NoDup (map (fun c => coordKey 5 (PageV1.c_drop c)) (PageV1.dedupCap all seen dedup)) /\
    (length (PageV1.dedupCap all seen dedup) <= PageV1.CAND_MAX)%nat.
Proof.
  induction all as [|c all IH]; intros seen dedup Fa Fd N S L; cbn [PageV1.dedupCap].
  - split; [exact Fd|]. split; [exact N|lia].
  - apply Forall_cons in Fa as [Hc Fa].
    destruct (decide _) as [Hin|Hout]; [apply IH; assumption|].
    assert (Forall P (dedup ++ [c])) as Fd'.
    { apply Forall_app. split; [exact Fd|]. apply Forall_singleton. exact Hc. }
    assert (NoDup (map (fun c => coordKey 5 (PageV1.c_drop c)) (dedup ++ [c]))) as N'.
    { rewrite map_app. cbn [map]. apply NoDup_app. split; [exact N|].
      split; [|apply NoDup_singleton].
      intros k Hk Hk'. apply list_elem_of_singleton in Hk'. subst k.
      apply list_elem_of_fmap in Hk as [c' [Ek Hc']]. apply Hout. rewrite Ek. apply S. exact Hc'. }
    destruct (Nat.leb_spec PageV1.CAND_MAX (length (dedup ++ [c]))) as [G|G].
    + split; [exact Fd'|]. split; [exact N'|]. rewrite length_app in *. cbn [length] in *. lia.
    + apply IH; try assumption.
      intros c' Hc'. apply elem_of_app in Hc' as [Hc'|Hc'].
      * apply elem_of_union_r. apply S. exact Hc'.
      * apply list_elem_of_singleton in Hc'. subst c'.
        apply elem_of_union_l. apply elem_of_singleton. reflexivity.
Qed.

(** X23.  The first pipeline, whose sort is only assumed to rearrange
    its input, returns at most [CAND_MAX] (3) candidates, no two of them
    with the same 5-decimal coordinate key; each one was sampled from
    the tail of a regular route, carries that route's label and the
    answers that the providers gave for the point, lies at least 12 m
    from the destination, has walk minutes within the ceiling plus one,
    and a drive of at most 90 % of the route's distance and duration. *)
Theorem first_pipeline_distinct_and_capped pickup drop regs radiusM w out w' :
  PageV1.discover pickup drop regs radiusM w = Some (out, w') ->
  (length out <= PageV1.CAND_MAX)%nat /\
  NoDup (map (fun c => coordKey 5 (PageV1.c_drop c)) out) /\
  forall c, c ∈ out ->
    exists pu dr r pts,
      pickup = Some pu /\ drop = Some dr /\ r ∈ regs /\
      sampleTail (r_coords r) SAMPLE_COUNT TAIL_FRACTION = Some pts /\
      PageV1.c_drop c ∈ pts /\
      acceptedV1 pu dr radiusM r (PageV1.c_drop c) c.
Proof using sort_rearranges.
  unfold PageV1.discover. intros E.
  destruct pickup as [pu|];
    [|apply ret_Some in E as [<- _]; split; [cbn; lia|split; [constructor|]];
      intros c Hc; apply elem_of_nil in Hc; contradiction].
  destruct drop as [dr|];
    [|apply ret_Some in E as [<- _]; split; [cbn; lia|split; [constructor|]];
      intros c Hc; apply elem_of_nil in Hc; contradiction].
  destruct (length regs =? 0)%nat;
    [apply ret_Some in E as [<- _]; split; [cbn; lia|split; [constructor|]];
      intros c Hc; apply elem_of_nil in Hc; contradiction|].
  apply bind_Some in E as [all [w1 [E1 E]]].
  apply bind_Some in E as [sorted [w2 [E2 E]]].
  apply ret_Some in E as [<- _].
  apply (scan_Forall (acceptedV1 pu dr radiusM)) in E1; [|apply pointV1_accepts].
  apply sort_rearranges in E2. rewrite E2 in E1.
  destruct (dedupCap_spec _ sorted ∅ [] E1) as (F & N & L).
  { constructor. }
  { constructor. }
  { intros c Hc. apply elem_of_nil in Hc. contradiction. }
  { cbn. unfold PageV1.CAND_MAX. lia. }
  split; [exact L|]. split; [exact N|].
  intros c Hc. rewrite Forall_forall in F.
  destruct (F c Hc) as (r & pts & p & Hr & Ep & Hp & A).
  assert (PageV1.c_drop c = p) as Ed.
  { destruct A as (_ & wk & drv & _ & Ed & _). exact Ed. }
  exists pu, dr, r, pts. rewrite Ed. auto 8.
Qed.

Lemma capPerRoute_count (l : string) all :
  forall (perRoute : gmap string nat) capped,
    (countLabelV2 l capped <= Nat.min 2 (default 0 (perRoute !! l)))%nat ->
    (countLabelV2 l (PageV2.capPerRoute all perRoute capped) <= 2)%nat.
Proof.
  induction all as [|c all IH]; intros perRoute capped I; cbn [PageV2.capPerRoute]; [lia|].
  apply IH. unfold countLabelV2 in *.
  destruct (decide (PageV2.c_routeIdx c = l)) as [El|Nl].
  - rewrite El, lookup_insert_eq.
    change (default 0%nat (Some (default 0 (perRoute !! l) + 1)))%nat
      with (default 0 (perRoute !! l) + 1)%nat.
    destruct (Nat.leb_spec (default 0 (perRoute !! l) + 1)%nat 2%nat) as [G|G].
    + rewrite filter_app, length_app, filter_cons, decide_True, filter_nil by exact El.
      cbn [length]. lia.
    + lia.
  - rewrite lookup_insert_ne by exact Nl.
    destruct (_ <=? 2)%nat; [|exact I].
    rewrite filter_app, length_app, filter_cons, decide_False, filter_nil by exact Nl.
    cbn [length]. lia.
Qed.

Lemma build_accepts pu dr radiusM visible strictPass w out w' :
  PageV2.build pu dr radiusM visible strictPass w = Some (out, w') ->
  (forall l, countLabelV2 l out <= 2)%nat /\
  Forall (sampledFrom (acceptedV2 pu dr radiusM strictPass) visible) out.
Proof using sort_rearranges.
  unfold PageV2.build. intros E.
  apply bind_Some in E as [all [w1 [E1 E]]].
  apply bind_Some in E as [sorted [w2 [E2 E]]].
  apply ret_Some in E as [<- _]. split.
  - intros l. apply capPerRoute_count. cbn. lia.
  - apply capPerRoute_Forall; [|constructor].
    apply sort_rearranges in E2. rewrite <- E2.
    apply (scan_Forall (acceptedV2 pu dr radiusM strictPass)) in E1; [exact E1|].
    apply buildPoint_accepts.
Qed.

(** What the two-pass pipeline returns: nothing without pickup,
    destination or visible route; otherwise the result of the strict
    pass when it is not empty, and the result of the loose pass, run
    after it, when it is. *)
Lemma two_pass_choice pickup drop (sr sa : bool) (regs alts : list RouteGeo) radiusM w out w' :
  PageV2.discover pickup drop sr sa regs alts radiusM w = Some (out, w') ->
  match pickup, drop with
  | Some pu, Some dr =>
      let visible := (if sr then regs else []) ++ (if sa then alts else []) in
      (visible = [] /\ out = []) \/
      exists strictOut w1,
        visible <> [] /\
        PageV2.build pu dr radiusM visible true w = Some (strictOut, w1) /\
        (strictOut <> [] -> out = strictOut /\ w' = w1) /\
        (strictOut = [] -> PageV2.build pu dr radiusM visible false w1 = Some (out, w'))
  | _, _ => out = []
  end.
Proof.
  unfold PageV2.discover. intros E.
  destruct pickup as [pu|]; [|apply ret_Some in E as [<- _]; reflexivity].
  destruct drop as [dr|]; [|apply ret_Some in E as [<- _]; reflexivity].
  cbv zeta. set (visible := (if sr then regs else []) ++ (if sa then alts else [])) in *.
  destruct (Nat.eqb_spec (length visible) 0) as [E0|N0].
  { apply ret_Some in E as [<- _]. left. split; [|reflexivity].
    destruct visible; [reflexivity|discriminate]. }
  right.
  apply bind_Some in E as [out1 [w1 [E1 E]]].
  apply bind_Some in E as [out2 [w2 [E2 E]]].
  apply ret_Some in E as [<- <-].
  exists out1, w1. split; [intros ->; apply N0; reflexivity|]. split; [exact E1|].
  destruct (Nat.eqb_spec (length out1) 0) as [E3|N3].
  - split; [intros N; destruct out1; [congruence|discriminate]|]. intros _. exact E2.
  - apply ret_Some in E2 as [<- <-]. split; [auto|].
    intros ->. contradiction N3. reflexivity.
Qed.

(** X24.  The two-pass pipeline, whose sort is only assumed to rearrange
    its input, returns nothing without pickup, destination or visible
    route; otherwise it returns the candidates of the strict pass when
    that pass found some, and those of the loose pass, run after it,
    only when the strict pass found none.  It keeps at most two
    candidates per route label, of any kind; each one was sampled from
    the tail of a visible route, is made of the answers that the
    providers gave for the point, lies at least 12 m from the
    destination, has walk minutes within the ceiling plus one, and
    drives at most the pass's share (90 % or 98 %) of the route's
    distance and duration. *)
Theorem two_pass_two_per_route pickup drop (sr sa : bool) (regs alts : list RouteGeo)
    radiusM w out w' :
  PageV2.discover pickup drop sr sa regs alts radiusM w = Some (out, w') ->
  (forall l, countLabelV2 l out <= 2)%nat /\
  match pickup, drop with
  | Some pu, Some dr =>
      let visible := (if sr then regs else []) ++ (if sa then alts else []) in
      (visible = [] /\ out = []) \/
      exists strictOut w1,
        visible <> [] /\
        PageV2.build pu dr radiusM visible true w = Some (strictOut, w1) /\
        Forall (sampledFrom (acceptedV2 pu dr radiusM true) visible) strictOut /\
        (strictOut <> [] -> out = strictOut /\ w' = w1) /\
        (strictOut = [] ->
         PageV2.build pu dr radiusM visible false w1 = Some (out, w') /\
         Forall (sampledFrom (acceptedV2 pu dr radiusM false) visible) out)
  | _, _ => out = []
  end.
Proof using sort_rearranges.
  intros E. pose proof (two_pass_choice _ _ _ _ _ _ _ _ _ _ E) as Ch.
  assert (forall l, countLabelV2 l (@nil PageV2.Candidate) <= 2)%nat as C0 by (intros; cbn; lia).
  destruct pickup as [pu|]; [|subst out; split; [exact C0|reflexivity]].
  destruct drop as [dr|]; [|subst out; split; [exact C0|reflexivity]].
  cbv zeta in *. set (visible := (if sr then regs else []) ++ (if sa then alts else [])) in *.
  destruct Ch as [[Ev ->]|(strictOut & w1 & Nv & E1 & Hs & Hl)].
  { split; [exact C0|]. left. split; [exact Ev|reflexivity]. }
  destruct (build_accepts _ _ _ _ _ _ _ _ E1) as [C1 F1].
  assert (strictOut = [] \/ strictOut <> []) as [Es|Ns]
    by (destruct strictOut; [left; reflexivity|right; discriminate]).
  - destruct (build_accepts _ _ _ _ _ _ _ _ (Hl Es)) as [C2 F2].
    split; [exact C2|]. right. exists strictOut, w1.
    split; [exact Nv|]. split; [exact E1|]. split; [exact F1|]. split; [exact Hs|].
    intros _. split; [exact (Hl Es)|exact F2].
  - destruct (Hs Ns) as [-> ->].
    split; [exact C1|]. right. exists strictOut, w1.
    split; [exact Nv|]. split; [exact E1|]. split; [exact F1|]. split; [auto|].
    intros Es. contradiction.
Qed.


End Earlier.


(** ** The server estimate and the candidate card *)

Section Server.
Context `{Host}.

(** X25.  When [Math.sin] stays within -1 and 1, the surge of the server
    estimate stays within 1.0 and 1.5: for a trip of non-negative
    distance and duration the quoted center is at least the metered fare
    and at most one and a half times it (and never below 5), with
    [low] and [high] at 90 % and 115 % of the center. *)
Theorem server_quote_within_surge_band (d : Q) (dur : option Q) (w w' : World) (q : FareQuote) :
  (forall x, -1 <= Math_sin x /\ Math_sin x <= 1) ->
  0 <= d -> (forall t, dur = Some t -> 0 <= t) ->
  UberEstimates.modeledPriceUSD d dur w = Some (q, w') ->
  let fare := 2.25 + 1.50 * (d / 1609.34) + 0.33 * serverMinutes d dur + 1.2 in
  Math_max 5 fare <= center q /\ center q <= Math_max 5 (fare * 1.5) /\
  low q == center q * 0.9 /\ high q == center q * 1.15.
Proof.
  intros Hsin Hd Hdur. unfold UberEstimates.modeledPriceUSD, bind, liftTotal, ret.
  destruct (Date_getHours w) as [h w1]. destruct (Date_now w1) as [now w2].
  intros E. injection E as <- <-. cbn [center low high]. cbv zeta.
  fold (serverMinutes d dur).
  assert (0 <= d / 1609.34) as Hm by (apply Qle_shift_div_l; lra).
  assert (0 <= serverMinutes d dur) as Hmin.
  { unfold serverMinutes. destruct dur as [t|].
    - destruct (Qeq_bool t 0).
      + eapply Qle_trans; [|apply Math_max_l]. discriminate.
      + apply Qle_shift_div_l; [reflexivity|]. specialize (Hdur t eq_refl). lra.
    - eapply Qle_trans; [|apply Math_max_l]. discriminate. }
  set (mins := serverMinutes d dur) in *.
  match goal with
  | |- context [Math_sin ?s] => destruct (Hsin s) as [S1 S2]; set (sn := Math_sin s) in *
  end.
  split; [|split; [|split; reflexivity]].
  - apply Math_max_mono; [apply Qle_refl|].
    destruct ((7 <=? h)%Z && (h <=? 9)%Z || (16 <=? h)%Z && (h <=? 19)%Z); nra.
  - apply Math_max_mono; [apply Qle_refl|].
    destruct ((7 <=? h)%Z && (h <=? 9)%Z || (16 <=? h)%Z && (h <=? 19)%Z); nra.
Qed.

End Server.

(** X26.  A candidate card always shows a saving when it is given the
    route of the candidate, and none otherwise: a modeled base price is
    at least 5, so it is never taken for missing.  The saving shown is
    the base center minus the candidate's center, and 0 when the
    candidate is not cheaper. *)
Theorem card_saving_shown (c : Candidate) (baseForRoute : option RouteGeo) :
  match baseForRoute, cardSaved c baseForRoute with
  | None, saved => saved = None
  | Some b, None => False
  | Some b, Some s =>
      0 <= s /\
      forall q, cardBasePrice c (Some b) = Some q ->
        s == Qmax 0 (center q - center (cardPrice c))
  end.
Proof.
  unfold cardSaved. destruct baseForRoute as [b|]; [|reflexivity].
  cbn [cardBasePrice].
  pose proof (modeledPriceUSD_center_min (r_distance b) (r_duration b) (c_surge c)
                (zonePenaltyUSD (endPoint (r_coords b)))) as C.
  set (baseVal := center (modeledPriceUSD (r_distance b) _ _ _)) in *.
  assert (Qgtb baseVal 0 = true) as -> by (apply Qgtb_gt; lra).
  split; [apply Math_max_l|].
  intros q Eq. injection Eq as <-. fold baseVal. apply Math_max_spec.
Qed.

(** ** The properties at work *)

Lemma same_key_points_are_close_witness :
  let p := {| lat := 30.28460001; lng := -97.7394 |} in
  let q := {| lat := 30.28460004; lng := -97.73940002 |} in
  coordKey 5 p = coordKey 5 q /\
  Qabs (lat p - lat q) * inject_Z (10 ^ Z.of_nat 5) < 1 /\
  Qabs (lng p - lng q) * inject_Z (10 ^ Z.of_nat 5) < 1.
Proof.
  intros p q.
  assert (coordKey 5 p = coordKey 5 q) as E by (vm_compute; reflexivity).
  split; [exact E|]. exact (same_key_points_are_close 5 p q E).
Defined.

Lemma estimate_monotone_in_trip_witness :
  let H := routesHost None None in
  let now := {| Estimator.getHours := 8; Estimator.getDay := 2 |} in
  let near := {| lat := 30.2846; lng := -97.7394 |} in
  exists pr1 pr2,
    Estimator.estimatePriceRange pickupPt near now noon = Some (pr1, after 1) /\
    Estimator.estimatePriceRange pickupPt destPt now noon = Some (pr2, after 1) /\
    Estimator.center pr1 <= Estimator.center pr2 /\
    Estimator.low pr1 <= Estimator.low pr2 /\
    Estimator.high pr1 <= Estimator.high pr2.
Proof.
  intros H now near. eexists. eexists.
  split; [vm_compute; reflexivity|]. split; [vm_compute; reflexivity|].
  eapply (estimate_monotone_in_trip (H:=H) pickupPt near pickupPt destPt now
            noon noon (after 1) (after 1)).
  - vm_compute. reflexivity.
  - vm_compute. reflexivity.
  - vm_compute. discriminate.
  - vm_compute. discriminate.
  - vm_compute. reflexivity.
  - vm_compute. reflexivity.
Defined.

Lemma testHost_responds walkOf drvOf : @providersRespond (testHost walkOf drvOf).
Proof.
  intros pts profile alternatives w. cbn.
  destruct profile; destruct pts as [|a [|b [|c pts]]]; eexists; reflexivity.
Qed.

Lemma discover_returns_when_providers_respond_witness :
  let H := testHost walkOk drvMixed in
  providersRespond /\
  Forall (fun r => length (r_coords r) <> 1%nat) [route14] /\
  exists results w',
    discover (Some pickupPt) (Some destPt) true true [route14] [] 400 1 noon
    = Some (results, w').
Proof.
  intros H.
  assert (Forall (fun r => length (r_coords r) <> 1%nat) [route14]) as F.
  { apply Forall_singleton. vm_compute. discriminate. }
  split; [apply testHost_responds|]. split; [exact F|].
  apply (discover_returns_when_providers_respond (H:=H) (Some pickupPt) (Some destPt)
           true true [route14] [] 400 1 noon (testHost_responds walkOk drvMixed)).
  exact F.
Defined.

Lemma discover_rejects_on_one_point_route_witness :
  let H := testHost walkOk drvMixed in
  length (r_coords onePoint) = 1%nat /\
  discover (Some pickupPt) (Some destPt) true true [route14; onePoint] [] 400 1 noon = None.
Proof.
  intros H. split; [reflexivity|].
  apply (discover_rejects_on_one_point_route (H:=H) pickupPt destPt true true
           [route14; onePoint] [] 400 1 noon onePoint).
  - discriminate.
  - cbn. apply elem_of_cons. right. apply elem_of_cons. left. reflexivity.
  - reflexivity.
Defined.

Lemma strict_candidates_beat_thresholds_witness :
  let H := testHost walkOk drvMixed in
  discover (Some pickupPt) (Some destPt) true true [route14] [] 400 1 noon
  = Some (mixedRun, after 12) /\
  forall c, c ∈ mixedRun -> c_reason c = strict ->
    exists pu dr bestReg r pts wk drv,
      Some pickupPt = Some pu /\ Some destPt = Some dr /\
      head (Array_sort durationCmp [route14]) = Some bestReg /\
      r ∈ (if true then [route14] else []) ++ (if true then [] else []) /\
      sampleTail (r_coords r) SAMPLE_COUNT TAIL_FRACTION = Some pts /\
      c_drop c ∈ pts /\
      inBand dr 400 (c_drop c) /\
      answered pu dr (c_drop c) wk (Some drv) /\
      c = candidateFor dr 1 strict r (c_drop c) wk drv /\
      distance drv <= DIST_FACTOR * r_distance r /\
      duration drv <= TIME_FACTOR * r_duration r /\
      ABS_IMPROVE_MIN <= bestPriceOf 1 bestReg - candPrice 1 c /\
      PCT_IMPROVE <= (bestPriceOf 1 bestReg - candPrice 1 c) / bestPriceOf 1 bestReg.
Proof.
  intros H.
  assert (discover (Some pickupPt) (Some destPt) true true [route14] [] 400 1 noon
          = Some (mixedRun, after 12)) as E by (vm_compute; reflexivity).
  split; [exact E|].
  exact (strict_candidates_beat_thresholds (H:=H) _ _ _ _ _ _ _ _ _ _ _ E).
Defined.

Lemma merged_candidates_have_new_keys_witness :
  let H := testHost walkOk drvMixed in
  discover (Some pickupPt) (Some destPt) true true [route14] [] 400 1 noon
  = Some (mixedRun, after 12) /\
  exists capped added,
    mixedRun = capped ++ added /\
    Forall (fun c => c_reason c = strict) capped /\
    Forall (fun c => c_reason c = fallback) added /\
    StronglySorted (priceLe 1) capped /\
    NoDup (map candKey added) /\
    (forall a c, a ∈ added -> c ∈ capped -> candKey a <> candKey c) /\
    (NoDup (map candKey capped) -> NoDup (map candKey mixedRun)).
Proof.
  intros H.
  assert (discover (Some pickupPt) (Some destPt) true true [route14] [] 400 1 noon
          = Some (mixedRun, after 12)) as E by (vm_compute; reflexivity).
  split; [exact E|].
  exact (merged_candidates_have_new_keys (H:=H) _ _ _ _ _ _ _ _ _ _ _ E).
Defined.

Lemma surge_proxy_within_bounds_witness :
  let H := sixRoutesHost in
  let G := fixedGeocoder H (Some "Main Building") in
  exists u w' surge,
    buildRoutes (Some pickupPt) (Some destPt) noon = Some (u, w') /\
    set_surgeProxy u = Some surge /\ surge == 1.2 /\
    1 <= surge /\ surge <= 1.3.
Proof.
  intros H G. eexists. eexists. eexists.
  split; [vm_compute; reflexivity|]. split; [reflexivity|].
  split; [vm_compute; reflexivity|].
  eapply (surge_proxy_within_bounds (H:=H) (H0:=G) (Some pickupPt) (Some destPt) noon).
  - vm_compute. reflexivity.
  - reflexivity.
Defined.

Lemma built_routes_are_the_fastest_five_witness :
  let H := sixRoutesHost in
  let G := fixedGeocoder H None in
  exists u w',
    buildRoutes (Some pickupPt) (Some destPt) noon = Some (u, w') /\
    exists routes w1 regs alts,
      mapboxDirections [pickupPt; destPt] driving_traffic true noon = Some (routes, w1) /\
      set_regularRoutes u = Some regs /\ set_altRoutes u = Some alts /\
      map statsOf (regs ++ alts)
      = take (REG_MAX + ALT_MAX) (Array_sort statsCmp (default [] routes)) /\
      length regs = Nat.min REG_MAX (length (default [] routes)) /\
      Forall (fun r => r_kind r = regular) regs /\
      Forall (fun r => r_kind r = alternate) alts /\
      StronglySorted durationLe (regs ++ alts).
Proof.
  intros H G. eexists. eexists.
  split; [vm_compute; reflexivity|].
  eapply (built_routes_are_the_fastest_five (H:=H) (H0:=G) pickupPt destPt noon).
  vm_compute. reflexivity.
Defined.

Lemma built_route_labels_identify_routes_witness :
  let H := sixRoutesHost in
  let G := fixedGeocoder H None in
  exists u w' regs alts,
    buildRoutes (Some pickupPt) (Some destPt) noon = Some (u, w') /\
    set_regularRoutes u = Some regs /\ set_altRoutes u = Some alts /\
    length regs = 2%nat /\ length alts = 3%nat /\
    map r_label regs = take (length regs) REG_LABELS /\
    map r_label alts = take (length alts) ALT_LABELS /\
    NoDup (map r_label (regs ++ alts)) /\
    forall r c, r ∈ regs ++ alts -> c_routeIdx c = r_label r ->
      baseForRouteOf regs alts c = Some r.
Proof.
  intros H G. eexists. eexists. eexists. eexists.
  split; [vm_compute; reflexivity|]. split; [reflexivity|]. split; [reflexivity|].
  split; [reflexivity|]. split; [reflexivity|].
  eapply (built_route_labels_identify_routes (H:=H) (H0:=G) pickupPt destPt noon).
  - vm_compute. reflexivity.
  - reflexivity.
  - reflexivity.
Defined.

Lemma baseline_is_regular_A_witness :
  let H := sixRoutesHost in
  let G := fixedGeocoder H None in
  exists u w' regs,
    buildRoutes (Some pickupPt) (Some destPt) noon = Some (u, w') /\
    set_regularRoutes u = Some regs /\ regs <> [] /\
    exists first,
      head regs = Some first /\ r_label first = "Regular A" /\
      cheapestRegular regs = Some first /\
      head (Array_sort durationCmp regs) = Some first.
Proof.
  intros H G. eexists. eexists. eexists.
  split; [vm_compute; reflexivity|]. split; [reflexivity|]. split; [discriminate|].
  eapply (baseline_is_regular_A (H:=H) (H0:=G) pickupPt destPt noon).
  - vm_compute. reflexivity.
  - reflexivity.
  - discriminate.
Defined.

Lemma first_pipeline_distinct_and_capped_witness :
  let H := testHost walkOk drvMixed in
  (forall A cmp (l l' : list A) w w',
      Array_sort_eff A cmp l w = Some (l', w') -> Permutation l l') /\
  exists out,
    PageV1.discover (Some pickupPt) (Some destPt) [route14] 400 noon = Some (out, after 6) /\
    length out = 1%nat /\
    (length out <= PageV1.CAND_MAX)%nat /\
    NoDup (map (fun c => coordKey 5 (PageV1.c_drop c)) out) /\
    forall c, c ∈ out ->
      exists pu dr r pts,
        Some pickupPt = Some pu /\ Some destPt = Some dr /\ r ∈ [route14] /\
        sampleTail (r_coords r) SAMPLE_COUNT TAIL_FRACTION = Some pts /\
        PageV1.c_drop c ∈ pts /\
        acceptedV1 pu dr 400 r (PageV1.c_drop c) c.
Proof.
  intros H.
  assert (forall A cmp (l l' : list A) w w',
             Array_sort_eff A cmp l w = Some (l', w') -> Permutation l l') as Hsort.
  { intros A cmp l l' w w'. apply sortEff_perm. }
  split; [exact Hsort|]. eexists.
  split; [vm_compute; reflexivity|]. split; [reflexivity|].
  eapply (first_pipeline_distinct_and_capped (H:=H) Hsort (Some pickupPt) (Some destPt)
            [route14] 400 noon).
  vm_compute. reflexivity.
Defined.

Lemma two_pass_two_per_route_witness :
  let H := testHost walkOk drvGood in
  (forall A cmp (l l' : list A) w w',
      Array_sort_eff A cmp l w = Some (l', w') -> Permutation l l') /\
  exists out,
    PageV2.discover (Some pickupPt) (Some destPt) true true [route14] [] 400 noon
    = Some (out, after 6) /\
    countLabelV2 "Regular A" out = 2%nat /\
    (forall l, countLabelV2 l out <= 2)%nat /\
    (([route14] = [] /\ out = []) \/
     exists strictOut w1,
       [route14] <> [] /\
       PageV2.build pickupPt destPt 400 [route14] true noon = Some (strictOut, w1) /\
       Forall (sampledFrom (acceptedV2 pickupPt destPt 400 true) [route14]) strictOut /\
       (strictOut <> [] -> out = strictOut /\ after 6 = w1) /\
       (strictOut = [] ->
        PageV2.build pickupPt destPt 400 [route14] false w1 = Some (out, after 6) /\
        Forall (sampledFrom (acceptedV2 pickupPt destPt 400 false) [route14]) out)).
Proof.
  intros H.
  assert (forall A cmp (l l' : list A) w w',
             Array_sort_eff A cmp l w = Some (l', w') -> Permutation l l') as Hsort.
  { intros A cmp l l' w w'. apply sortEff_perm. }
  split; [exact Hsort|]. eexists.
  split; [vm_compute; reflexivity|]. split; [vm_compute; reflexivity|].
  eapply (two_pass_two_per_route (H:=H) Hsort (Some pickupPt) (Some destPt) true true
            [route14] [] 400 noon).
  vm_compute. reflexivity.
Defined.

(** The loose pass at work: on the slow drives of [drvPoor] the strict
    pass finds nothing and the result is that of the loose pass. *)
Remark two_pass_loose_example :
  let H := testHost walkOk drvPoor in
  PageV2.build pickupPt destPt 400 [route14] true noon = Some ([], after 6) /\
  exists out w',
    PageV2.build pickupPt destPt 400 [route14] false (after 6) = Some (out, w') /\
    PageV2.discover (Some pickupPt) (Some destPt) true true [route14] [] 400 noon
    = Some (out, w').
Proof.
  intros H. split; [vm_compute; reflexivity|].
  eexists. eexists. split; vm_compute; reflexivity.
Qed.

(** C1 at a concrete input: no point passes the strict or the relaxed
    tests, the driving provider finds routes, and the closest tier returns
    the two nearest of the three sampled points, nearest first. *)
Lemma fallback_ladder_witness :
  let H := testHost walkOk drvPoor in
  let mid := pushed (mkLatLng 30.2836 (-97.7394)) 3 7900 890 "Regular A" fallback in
  let near := pushed (mkLatLng 30.2846 (-97.7394)) 3 7900 890 "Regular A" fallback in
  ((forall p w0, exists w0', mapboxWalk p destPt w0 = Some (walkOk p, w0')) /\
   (forall p w0, exists w0', mapboxDrive pickupPt p w0 = Some (drvPoor p, w0')) /\
   head (Array_sort durationCmp [route14]) = Some route14 /\
   strictTier DIST_FACTOR TIME_FACTOR PCT_IMPROVE ABS_IMPROVE_MIN pickupPt destPt 400 1
     (bestPriceOf 1 route14) [route14] noon = Some ([], after 6) /\
   relaxedTier pickupPt destPt 400 1 [route14] [] (after 6) = Some ([], after 12) /\
   (length (@nil Candidate) < MIN_SUGGESTIONS)%nat) /\
  exists w3,
    discover (Some pickupPt) (Some destPt) true true [route14] [] 400 1 noon
    = Some ([near; mid], w3).
Proof.
  intros H mid near.
  assert (forall p w0, exists w0', mapboxWalk p destPt w0 = Some (walkOk p, w0')) as Hw
    by (intros p w0; eexists; reflexivity).
  assert (forall p w0, exists w0', mapboxDrive pickupPt p w0 = Some (drvPoor p, w0')) as Hd
    by (intros p w0; eexists; reflexivity).
  assert (head (Array_sort durationCmp [route14]) = Some route14) as H1 by reflexivity.
  assert (strictTier DIST_FACTOR TIME_FACTOR PCT_IMPROVE ABS_IMPROVE_MIN pickupPt destPt 400 1
            (bestPriceOf 1 route14) [route14] noon = Some ([], after 6)) as H2
    by (vm_compute; reflexivity).
  assert (relaxedTier pickupPt destPt 400 1 [route14] [] (after 6) = Some ([], after 12)) as H3
    by (vm_compute; reflexivity).
  assert (length (@nil Candidate) < MIN_SUGGESTIONS)%nat as H4
    by (cbn; unfold MIN_SUGGESTIONS; lia).
  split; [repeat split; assumption|].
  destruct (fallback_ladder (H:=H) pickupPt destPt true true [route14] [] 400 1 route14
              walkOk drvPoor noon (after 6) [] (after 12) Hw Hd H1 H2 H3 H4)
    as (added & w3 & E & Eadd & _).
  exists w3. rewrite E, Eadd. vm_compute. reflexivity.
Defined.


Lemma server_quote_within_surge_band_witness :
  let H := testHost walkOk drvGood in
  exists q,
    UberEstimates.modeledPriceUSD 5000 None rushHour = Some (q, rushHour) /\
    let fare := 2.25 + 1.50 * (5000 / 1609.34) + 0.33 * serverMinutes 5000 None + 1.2 in
    Math_max 5 fare <= center q /\ center q <= Math_max 5 (fare * 1.5) /\
    low q == center q * 0.9 /\ high q == center q * 1.15.
Proof.
  intros H. eexists. split; [vm_compute; reflexivity|].
  eapply (server_quote_within_surge_band (H:=H) 5000 None rushHour rushHour).
  - intros x. split; vm_compute; discriminate.
  - vm_compute. discriminate.
  - intros t E. discriminate E.
  - vm_compute. reflexivity.
Defined.
